(** * Transit tracker API: reconciliation engine and schedule aggregator

    A shallow embedding of
    - [src/modules/feed/modules/gtfs/gtfs.service.ts] (module [Gtfs]):
      [cached], [getTripUpdates], [resolveTripTimes],
      [getUpcomingTripsForRoutesAtStops];
    - [src/schedule/schedule.service.ts] (module [Schedule]):
      [getUpcomingTrips], [parseRouteStopPairs], [updateSchedule];
    followed by the properties of the specification that were checked
    against them.

    Conventions.  A JavaScript number that holds a time in milliseconds or
    a count of seconds taken from the real-time feed is an integer ([Z]);
    the time value of a date is such an integer within the range of
    [Date], or [NaN] for an invalid date ([option Z]); the seconds of a
    [ScheduleTrip], obtained by a division by 1000, are rationals or [NaN]
    ([option Q]); what [parseInt] returns is a double that holds an
    integer, an infinity or [NaN].  A string is held in UTF-8.  A [Date]
    is an object: it has an identity besides its time value, and [===] on
    two dates compares identities.  A function that may throw returns a
    [Result]; a promise is the result it settles to. *)

From Stdlib Require Import ZArith QArith Qround Lqa List Sorted Bool Lia Ascii String.
From Stdlib Require Import Decimal DecimalFacts DecimalNat DecimalString.
From stdpp Require Import base option list strings gmap.

Import ListNotations.
Open Scope string_scope.

(** ** JavaScript runtime pieces used by the two services *)

Module Js.

(** *** Exceptions *)

Inductive Result (E A : Type) : Type :=
| Ok (a : A)
| Throw (e : E).
Arguments Ok {E A} a.
Arguments Throw {E A} e.

Definition bindR {E A B} (r : Result E A) (k : A -> Result E B) : Result E B :=
  match r with
  | Ok a => k a
  | Throw e => Throw e
  end.

Definition isOk {E A} (r : Result E A) : bool :=
  match r with Ok _ => true | Throw _ => false end.

(** [xs.map f] for a callback that may throw: the results in order, or
    the exception of the first element on which [f] throws. *)
Fixpoint mapR {E A B} (f : A -> Result E B) (xs : list A)
  : Result E (list B) :=
  match xs with
  | [] => Ok []
  | x :: rest =>
      bindR (f x) (fun y =>
      bindR (mapR f rest) (fun ys => Ok (y :: ys)))
  end.

(** [Promise.all (xs.map f)]: the results in order, or a rejection as
    soon as one element rejects. *)
Definition promiseAll {E A B} (f : A -> Result E B) (xs : list A)
  : Result E (list B) := mapR f xs.

Inductive Exception : Type :=
| TypeError (message : string)
| BadRequestException (message : string)
| Error (message : string).

(** *** Numbers that may be [NaN]

    The time value of a date, and what is computed from time values, is
    an integer or [NaN] ([None]).  Arithmetic on [NaN] gives [NaN], and
    every comparison with [NaN] is false. *)

(** [a - b] *)
Definition numSub (a b : option Z) : option Z :=
  match a, b with
  | Some x, Some y => Some (x - y)%Z
  | _, _ => None
  end.

(** [Math.abs(a)] *)
Definition numAbs (a : option Z) : option Z :=
  match a with
  | Some x => Some (Z.abs x)
  | None => None
  end.

(** [Math.max(a, b)] and [Math.min(a, b)] *)
Definition numMax (a b : option Z) : option Z :=
  match a, b with
  | Some x, Some y => Some (Z.max x y)
  | _, _ => None
  end.

Definition numMin (a b : option Z) : option Z :=
  match a, b with
  | Some x, Some y => Some (Z.min x y)
  | _, _ => None
  end.

(** [a > b] and [a < b] *)
Definition numGt (a b : option Z) : bool :=
  match a, b with
  | Some x, Some y => (x >? y)%Z
  | _, _ => false
  end.

Definition numLt (a b : option Z) : bool :=
  match a, b with
  | Some x, Some y => (x <? y)%Z
  | _, _ => false
  end.

(** *** Dates as objects

    [new Date(..)] allocates: the allocation counter is threaded through
    every function that creates dates.  The time value of a date lies at
    most 8.64e15 ms from the epoch; [new Date(x)] for a number [x]
    outside that range is an invalid date, whose time value is [NaN]. *)

Definition maxTimeValue : Z := 8640000000000000.

Definition inRange (ms : Z) : bool := (Z.abs ms <=? maxTimeValue)%Z.

(** [TimeClip] on an integer. *)
Definition timeClip (ms : Z) : option Z :=
  if inRange ms then Some ms else None.

Record DateObj : Type := mkDate { date_ref : nat; date_ms : option Z }.

Definition Alloc (A : Type) : Type := nat -> A * nat.

Definition ret {A} (a : A) : Alloc A := fun n => (a, n).

Definition bindA {A B} (m : Alloc A) (k : A -> Alloc B) : Alloc B :=
  fun n => let (a, n') := m n in k a n'.

(** [new Date(ms)] for a number [ms], and [new Date(d)] for a valid date
    [d] of time value [ms]. *)
Definition newDate (ms : Z) : Alloc DateObj :=
  fun n => (mkDate n (timeClip ms), S n).

Definition getTime (d : DateObj) : option Z := date_ms d.

(** [d.setTime(t)] mutates [d] in place: same object, new value. *)
Definition setTime (d : DateObj) (t : option Z) : DateObj :=
  mkDate (date_ref d)
    match t with
    | Some ms => timeClip ms
    | None => None
    end.

(** [a === b] on two [Date] objects. *)
Definition sameObject (a b : DateObj) : bool :=
  Nat.eqb (date_ref a) (date_ref b).

(** [a > b] on two [Date] objects converts both to their time value. *)
Definition dateGt (a b : DateObj) : bool := numGt (getTime a) (getTime b).

(** *** Strings

    A string is the UTF-8 encoding of the JavaScript string: a character
    below U+0080 is one byte, and no byte of another character is below
    128.  Comparing, cutting at a one-byte separator, testing a prefix
    and removing a prefix that was found mean the same on the encoding
    as on the string. *)

(** White space removed by [trim] and skipped by [parseInt]: the
    characters [WhiteSpace] and [LineTerminator] of ECMAScript.  On one
    byte: TAB, LF, VT, FF, CR, SP. *)
Definition isWhiteSpace (c : ascii) : bool :=
  let n := nat_of_ascii c in
  (Nat.leb 9 n && Nat.leb n 13) || Nat.eqb n 32.

(** On two bytes: U+00A0 (C2 A0). *)
Definition isWhiteSpace2 (a b : ascii) : bool :=
  Nat.eqb (nat_of_ascii a) 194 && Nat.eqb (nat_of_ascii b) 160.

(** On three bytes: U+1680 (E1 9A 80); U+2000 to U+200A (E2 80 80 to
    E2 80 8A), U+2028, U+2029 and U+202F (E2 80 A8, A9, AF); U+205F
    (E2 81 9F); U+3000 (E3 80 80); U+FEFF (EF BB BF). *)
Definition isWhiteSpace3 (a b c : ascii) : bool :=
  let x := nat_of_ascii a in
  let y := nat_of_ascii b in
  let z := nat_of_ascii c in
  (Nat.eqb x 225 && Nat.eqb y 154 && Nat.eqb z 128)
  || (Nat.eqb x 226 && Nat.eqb y 128
      && ((Nat.leb 128 z && Nat.leb z 138)
          || Nat.eqb z 168 || Nat.eqb z 169 || Nat.eqb z 175))
  || (Nat.eqb x 226 && Nat.eqb y 129 && Nat.eqb z 159)
  || (Nat.eqb x 227 && Nat.eqb y 128 && Nat.eqb z 128)
  || (Nat.eqb x 239 && Nat.eqb y 187 && Nat.eqb z 191).

(** The string is one white space character. *)
Definition isWhiteSpaceChar (s : string) : bool :=
  match s with
  | String a EmptyString => isWhiteSpace a
  | String a (String b EmptyString) => isWhiteSpace2 a b
  | String a (String b (String c EmptyString)) => isWhiteSpace3 a b c
  | _ => false
  end.

Fixpoint trimStart (s : string) : string :=
  match s with
  | EmptyString => EmptyString
  | String a rest1 =>
      if isWhiteSpace a then trimStart rest1
      else
        match rest1 with
        | EmptyString => s
        | String b rest2 =>
            if isWhiteSpace2 a b then trimStart rest2
            else
              match rest2 with
              | EmptyString => s
              | String c rest3 =>
                  if isWhiteSpace3 a b c then trimStart rest3 else s
              end
        end
  end.

(** From the right: what is kept of [rest], with [c] before it, is
    dropped when it is one white space character. *)
Fixpoint trimEnd (s : string) : string :=
  match s with
  | String c rest =>
      let kept := String c (trimEnd rest) in
      if isWhiteSpaceChar kept then EmptyString else kept
  | EmptyString => EmptyString
  end.

Definition trim (s : string) : string := trimEnd (trimStart s).

(** [s.split(sep)] for a one-character separator; the result always has
    at least one element. *)
Fixpoint split (sep : ascii) (s : string) : list string :=
  match s with
  | EmptyString => [EmptyString]
  | String c rest =>
      if Ascii.eqb c sep then EmptyString :: split sep rest
      else
        match split sep rest with
        | hd :: tl => String c hd :: tl
        | [] => [String c EmptyString]
        end
  end.

Fixpoint startsWith (s prefix : string) : bool :=
  match prefix, s with
  | EmptyString, _ => true
  | String p prefix', String c s' => Ascii.eqb p c && startsWith s' prefix'
  | String _ _, EmptyString => false
  end.

(** [s.slice(n)] for [0 <= n]. *)
Fixpoint slice (n : nat) (s : string) : string :=
  match n, s with
  | O, _ => s
  | S n', String _ rest => slice n' rest
  | S _, EmptyString => EmptyString
  end.

(** [s.replaceAll(c, "")]. *)
Fixpoint removeAll (c : ascii) (s : string) : string :=
  match s with
  | EmptyString => EmptyString
  | String d rest =>
      if Ascii.eqb d c then removeAll c rest else String d (removeAll c rest)
  end.

(** *** [parseInt(s)] with no radix argument

    Leading white space is skipped, one sign is read, a [0x]/[0X] prefix
    selects radix 16, and then the longest prefix of digits is read;
    whatever follows is ignored.  No digit at all gives [NaN].  The
    integer that was read is returned as a double: the nearest one, an
    infinity when it is beyond the largest double.  ([-0] is not told
    from [0].  Past the 20th significant decimal digit the standard lets
    an implementation read zeros instead of the digits; the engine of
    Node.js rounds as if it read them all, as is done here.) *)

Inductive Number : Type :=
| NaN
| Finite (value : Z)
| Infinity (negative : bool).

Definition isNaN (x : Number) : bool :=
  match x with NaN => true | _ => false end.

(** The double nearest to the integer [m >= 0], ties to the even
    significand of 53 bits; the result is [2^1024] for an [m] beyond the
    largest double. *)
Definition nearestDouble (m : Z) : Z :=
  let bits := (Z.log2 m + 1)%Z in
  if (bits <=? 53)%Z then m
  else
    let e := (bits - 53)%Z in
    let q := Z.shiftr m e in
    let r := Z.land m (Z.ones e) in
    let half := Z.shiftl 1 (e - 1) in
    let q' := if (r >? half)%Z || ((r =? half)%Z && Z.odd q) then (q + 1)%Z else q in
    Z.shiftl q' e.

Definition toNumber (negative : bool) (m : Z) : Number :=
  let v := nearestDouble m in
  if (Z.shiftl 1 1024 <=? v)%Z then Infinity negative
  else Finite (if negative then (- v)%Z else v).

Definition digitValue (c : ascii) : option Z :=
  let n := Z.of_nat (nat_of_ascii c) in
  if (48 <=? n)%Z && (n <=? 57)%Z then Some (n - 48)%Z
  else if (97 <=? n)%Z && (n <=? 122)%Z then Some (n - 87)%Z
  else if (65 <=? n)%Z && (n <=? 90)%Z then Some (n - 55)%Z
  else None.

Definition digitIn (radix : Z) (c : ascii) : option Z :=
  match digitValue c with
  | Some d => if (d <? radix)%Z then Some d else None
  | None => None
  end.

(** Reads digits left to right; [acc] is [None] until a digit is seen. *)
Fixpoint readDigits (radix : Z) (acc : option Z) (s : string) : option Z :=
  match s with
  | EmptyString => acc
  | String c rest =>
      match digitIn radix c with
      | Some d =>
          readDigits radix
            (Some (match acc with Some a => a * radix + d | None => d end)%Z)
            rest
      | None => acc
      end
  end.

(** [true] for a minus sign. *)
Definition stripSign (s : string) : bool * string :=
  match s with
  | String "-"%char rest => (true, rest)
  | String "+"%char rest => (false, rest)
  | _ => (false, s)
  end.

Definition stripHexPrefix (s : string) : Z * string :=
  match s with
  | String "0"%char (String "x"%char rest) => (16%Z, rest)
  | String "0"%char (String "X"%char rest) => (16%Z, rest)
  | _ => (10%Z, s)
  end.

Definition parseInt (s : string) : Number :=
  let (negative, s1) := stripSign (trimStart s) in
  let (radix, s2) := stripHexPrefix s1 in
  match readDigits radix None s2 with
  | Some v => toNumber negative v
  | None => NaN
  end.

End Js.

Import Js.

Declare Scope alloc_scope.
Delimit Scope alloc_scope with alloc.
Notation "'let*' x ':=' m 'in' k" := (bindA m (fun x => k))
  (at level 10, x name, m at level 100, k at level 200) : alloc_scope.


(** ** Decoded real-time messages (gtfs-realtime-bindings)

    [FeedMessage.toObject] without the [defaults] option leaves an unset
    field out of the object: every optional field is an [option].  With
    [longs: Number] the 64-bit [time] is a number. *)

Module GtfsRt.

Record StopTimeEvent : Type := {
  delay : option Z;       (* seconds *)
  time : option Z         (* seconds since the epoch *)
}.

Module StopTimeUpdate.
Inductive ScheduleRelationship : Type :=
| SCHEDULED | SKIPPED | NO_DATA | UNSCHEDULED.

Record t : Type := {
  stopSequence : option Z;
  stopId : option string;
  arrival : option StopTimeEvent;
  departure : option StopTimeEvent;
  scheduleRelationship : option ScheduleRelationship
}.
End StopTimeUpdate.

Module TripDescriptor.
Inductive ScheduleRelationship : Type :=
| SCHEDULED | ADDED | UNSCHEDULED | CANCELED
| REPLACEMENT | DUPLICATED | DELETED.

Record t : Type := {
  tripId : option string;
  startDate : option string;
  scheduleRelationship : option ScheduleRelationship
}.
End TripDescriptor.

Record TripUpdate : Type := {
  trip : TripDescriptor.t;
  stopTimeUpdate : list StopTimeUpdate.t
}.

Record FeedEntity : Type := {
  tripUpdate : option TripUpdate
}.

End GtfsRt.

(** ** feed-provider.interface.ts *)

Module Feed.

Record RouteAtStop : Type := {
  routeId : string;
  stopId : string
}.

Record TripStop : Type := {
  ts_tripId : string;
  ts_stopId : string;
  ts_routeId : string;
  ts_routeName : string;
  ts_routeColor : option string;
  ts_stopName : string;
  ts_headsign : string;
  ts_arrivalTime : DateObj;
  ts_departureTime : DateObj;
  ts_isRealtime : bool
}.

End Feed.

(** ** gtfs.service.ts *)

Module Gtfs.
Import GtfsRt Feed.
Local Open Scope Z_scope.

(** One row of the static schedule query.  [arrival_time] and
    [departure_time] are valid dates, held by their time value: an
    integer of milliseconds within the range of [Date]. *)
Record TripStopRaw : Type := {
  trip_id : string;
  stop_id : string;
  route_id : string;
  route_name : string;
  route_color : option string;
  stop_name : string;
  stop_headsign : string;
  stop_sequence : Z;
  arrival_time : Z;
  departure_time : Z;
  start_date : string;
  arrival_time_valid : inRange arrival_time = true;
  departure_time_valid : inRange departure_time = true
}.

Record FetchConfig : Type := {
  url : string;
  headers : list (string * string)
}.

(** [rtTripUpdates?: FetchConfig | FetchConfig[]] *)
Inductive RtConfig : Type :=
| One (c : FetchConfig)
| Many (cs : list FetchConfig).

Record GtfsConfig : Type := {
  static : FetchConfig;
  rtTripUpdates : option RtConfig
}.

(** *** [cached]

    The compute function returns a bare value or a [{value, ttl}] pair.
    The cache itself is an external collaborator: [lookup] is what
    [cacheManager.get] answers (a falsy answer counts as absent), and the
    calls of [cacheManager.set] are returned next to the value. *)

Inductive Computed (T : Type) : Type :=
| Bare (v : T)
| WithTtl (value : T) (ttl : Z).
Arguments Bare {T} v.
Arguments WithTtl {T} value ttl.

Record CacheSet (T : Type) : Type := {
  set_key : string;
  set_value : T;
  set_ttl : option Z
}.
Arguments Build_CacheSet {T}.
Arguments set_key {T}.
Arguments set_value {T}.
Arguments set_ttl {T}.

Definition cached {E T} (feedCode key : string)
    (lookup : string -> option T)
    (fn : unit -> Result E (Computed T)) (ttl : option Z)
  : Result E (T * list (CacheSet T)) :=
  let cacheKey := feedCode +:+ "-" +:+ key in
  match lookup cacheKey with
  | Some hit => Ok (hit, [])
  | None =>
      bindR (fn tt) (fun result =>
        match result with
        | WithTtl value ttl' =>
            if ttl' >? 0
            then Ok (value, [Build_CacheSet cacheKey value (Some ttl')])
            else Ok (value, [])
        | Bare v => Ok (v, [Build_CacheSet cacheKey v ttl])
        end)
  end.

(** *** [removeFromStart], [removeRouteNameFromHeadsign] *)

Fixpoint removeFromStart (str : string) (substrs : list string) : string :=
  match substrs with
  | [] => str
  | substr :: rest =>
      if startsWith str substr
      then trim (slice (String.length substr) str)
      else removeFromStart str rest
  end.

Definition is_Some_b {A} (o : option A) : bool :=
  match o with Some _ => true | None => false end.

Definition nonEmpty (s : string) : bool :=
  match s with EmptyString => false | _ => true end.

Definition removeRouteNameFromHeadsign
    (routeShortName : option string) (headsign : string) : string :=
  match routeShortName with
  | Some r =>
      if nonEmpty r then
        if nonEmpty headsign then
          removeFromStart (trim headsign)
            [r +:+ " "; r +:+ " - "; r +:+ ": "]
        else ""
      else trim headsign
  | None => trim headsign
  end.

(** *** [getTripUpdates] *)

(** The parsed [cache-control] header of a response: [max_age] is
    [Some] when [directives["max-age"]] is a number. *)
Record CacheControl : Type := {
  max_age : option Z;
  no_cache : bool
}.

(** What one endpoint answered: the parsed header when the header is
    present, and the decoded [feedMessage.entity ?? []]. *)
Record Response : Type := {
  cache_control : option CacheControl;
  entity : list FeedEntity
}.

Definition updateMaxAge (maxAge : Z) (resp : Response) : Z :=
  match cache_control resp with
  | Some directives =>
      match max_age directives with
      | Some n => Z.max maxAge n
      | None => if no_cache directives then Z.max maxAge 0 else maxAge
      end
  | None => maxAge
  end.

Definition fetchConfigsOf (rt : RtConfig) : list FetchConfig :=
  match rt with
  | Many cs => cs
  | One c => [c]
  end.

Definition ttlOfMaxAge (maxAge : Z) : Z :=
  if maxAge >=? 0 then maxAge * 1000 else 15000.

(** The compute function handed to [cached]: [fetch] is [axios.get]
    followed by the decoding of the body, either of which may throw. *)
Definition fetchTripUpdates {E} (rt : RtConfig)
    (fetch : FetchConfig -> Result E Response)
  : Result E (Computed (list FeedEntity)) :=
  bindR (promiseAll fetch (fetchConfigsOf rt)) (fun responses =>
    let maxAge := fold_left updateMaxAge responses (-1) in
    Ok (WithTtl (concat (map entity responses)) (ttlOfMaxAge maxAge))).

Definition includes (x : string) (xs : list string) : bool :=
  existsb (String.eqb x) xs.

Definition truthyString (o : option string) : option string :=
  match o with
  | Some s => if nonEmpty s then Some s else None
  | None => None
  end.

Definition addEntity (tripIds : list string)
    (filteredTripUpdates : gmap string TripUpdate) (e : FeedEntity)
  : gmap string TripUpdate :=
  match tripUpdate e with
  | None => filteredTripUpdates
  | Some tu =>
      match truthyString (TripDescriptor.tripId (trip tu)) with
      | Some tripId =>
          if includes tripId tripIds then
            let key :=
              match truthyString (TripDescriptor.startDate (trip tu)) with
              | Some startDate => tripId +:+ "_" +:+ startDate
              | None => tripId
              end in
            <[key := tu]> filteredTripUpdates
          else filteredTripUpdates
      | None => filteredTripUpdates
      end
  end.

(** The cached value is a list here, so the test that it is iterable
    always passes; the calls of [cacheManager.set] are returned with the
    map. *)
Definition getTripUpdates {E} (feedCode : string) (config : GtfsConfig)
    (lookup : string -> option (list FeedEntity))
    (fetch : FetchConfig -> Result E Response)
    (tripIds : list string)
  : Result E (gmap string TripUpdate * list (CacheSet (list FeedEntity))) :=
  match rtTripUpdates config with
  | None => Ok (∅, [])
  | Some rt =>
      bindR (cached feedCode "tripUpdates" lookup
               (fun _ => fetchTripUpdates rt fetch) None)
        (fun '(allFeedEntities, sets) =>
           Ok (fold_left (addEntity tripIds) allFeedEntities ∅, sets))
  end.

(** *** [resolveTripTimes] *)

Record ResolvedTimes : Type := {
  departureTime : DateObj;
  arrivalTime : DateObj;
  isRealtime : bool
}.

(** The keys ["arrival"] and ["departure"]. *)
Inductive Key : Type := KArrival | KDeparture.

Definition eventOf (stu : StopTimeUpdate.t) (key : Key) : option StopTimeEvent :=
  match key with
  | KArrival => StopTimeUpdate.arrival stu
  | KDeparture => StopTimeUpdate.departure stu
  end.

(** [trip[`${key}_time`]] *)
Definition scheduledOf (trip : TripStopRaw) (key : Key) : Z :=
  match key with
  | KArrival => arrival_time trip
  | KDeparture => departure_time trip
  end.

(** [e?.delay] and [e?.time] *)
Definition delayOf (e : option StopTimeEvent) : option Z :=
  match e with Some ev => delay ev | None => None end.

Definition timeOf (e : option StopTimeEvent) : option Z :=
  match e with Some ev => time ev | None => None end.

(** [a ?? b] *)
Definition nullish {A} (a b : option A) : option A :=
  match a with Some _ => a | None => b end.

(** A number used as a condition: [undefined] and [0] are falsy. *)
Definition truthyNumber (o : option Z) : option Z :=
  match o with
  | Some n => if n =? 0 then None else Some n
  | None => None
  end.

(** The loop over the two keys; the last key that carries a time wins.
    The source holds [delay] in seconds, possibly fractional when a
    scheduled instant is not a whole second, and only ever uses it as
    [delay * 1000]: the embedding carries [delay * 1000]. *)
Definition inferDelayMs (trip : TripStopRaw) (stu : StopTimeUpdate.t) (delayMs : Z) : Z :=
  fold_left
    (fun acc key =>
       match timeOf (eventOf stu key) with
       | Some t => t * 1000 - scheduledOf trip key
       | None => acc
       end)
    [KArrival; KDeparture] delayMs.

Definition resolveDelayMs (trip : TripStopRaw)
    (stopTimeUpdate : option StopTimeUpdate.t) : Z :=
  let delayMs := 0 in
  match stopTimeUpdate with
  | Some stu =>
      let hasAnyUpdate :=
        is_Some_b (StopTimeUpdate.arrival stu)
        || is_Some_b (StopTimeUpdate.departure stu) in
      let hasOnlyOneUpdate :=
        negb (is_Some_b (StopTimeUpdate.arrival stu))
        || negb (is_Some_b (StopTimeUpdate.departure stu)) in
      if hasAnyUpdate && hasOnlyOneUpdate then
        let definedDelay :=
          nullish (delayOf (StopTimeUpdate.arrival stu))
                  (delayOf (StopTimeUpdate.departure stu)) in
        match truthyNumber definedDelay with
        | Some d => d * 1000
        | None => inferDelayMs trip stu delayMs
        end
      else delayMs
  | None => delayMs
  end.

Definition eventOfUpdate (stopTimeUpdate : option StopTimeUpdate.t) (key : Key)
  : option StopTimeEvent :=
  match stopTimeUpdate with
  | Some stu => eventOf stu key
  | None => None
  end.

(** The value given to [new Date(..)] for [departureTime] ([KDeparture])
    and [arrivalTime] ([KArrival]), before the two are compared. *)
Definition effectiveTimeMs (trip : TripStopRaw)
    (stopTimeUpdate : option StopTimeUpdate.t) (key : Key) : Z :=
  match truthyNumber (timeOf (eventOfUpdate stopTimeUpdate key)) with
  | Some t => t * 1000
  | None => scheduledOf trip key + resolveDelayMs trip stopTimeUpdate
  end.

Definition ninetyMinutes : Z := 5400000.

(** The four dates that can reach the caller are allocated in the order
    of the source; the temporary date of the delay inference never leaves
    the function and is not counted. *)
Definition resolveTripTimes (trip : TripStopRaw)
    (stopTimeUpdate : option StopTimeUpdate.t) : Alloc ResolvedTimes :=
  (let* scheduledArrivalTime := newDate (arrival_time trip) in
   let* scheduledDepartureTime := newDate (departure_time trip) in
   let* departureTime0 := newDate (effectiveTimeMs trip stopTimeUpdate KDeparture) in
   let* arrivalTime0 := newDate (effectiveTimeMs trip stopTimeUpdate KArrival) in
   let departureTime1 :=
     if dateGt arrivalTime0 departureTime0
     then setTime departureTime0 (getTime arrivalTime0)
     else departureTime0 in
   let maximumDeviationFromSchedule :=
     numMax
       (numAbs (numSub (getTime departureTime1) (getTime scheduledDepartureTime)))
       (numAbs (numSub (getTime arrivalTime0) (getTime scheduledArrivalTime))) in
   if numGt maximumDeviationFromSchedule (Some ninetyMinutes) then
     ret {| departureTime := scheduledDepartureTime;
            arrivalTime := scheduledArrivalTime;
            isRealtime := false |}
   else
     ret {| departureTime := departureTime1;
            arrivalTime := arrivalTime0;
            isRealtime := is_Some_b stopTimeUpdate |})%alloc.

(** *** [getUpcomingTripsForRoutesAtStops] *)

Definition findTripUpdate (tripUpdates : gmap string TripUpdate)
    (trip : TripStopRaw) : option TripUpdate :=
  nullish (tripUpdates !! (trip_id trip +:+ "_" +:+ start_date trip))
          (tripUpdates !! trip_id trip).

(** [update.stopSequence === trip.stop_sequence ||
     update.stopId === trip.stop_id] *)
Definition matchesStop (trip : TripStopRaw) (update : StopTimeUpdate.t) : bool :=
  match StopTimeUpdate.stopSequence update with
  | Some q => q =? stop_sequence trip
  | None => false
  end
  ||
  match StopTimeUpdate.stopId update with
  | Some s => String.eqb s (stop_id trip)
  | None => false
  end.

Definition findStopTimeUpdate (tripUpdate : option TripUpdate)
    (trip : TripStopRaw) : option StopTimeUpdate.t :=
  match tripUpdate with
  | Some tu => List.find (matchesStop trip) (stopTimeUpdate tu)
  | None => None
  end.

Definition fourHours : Z := 14400000.

Definition tripIsFeasiblyActive (now : Z) (r : ResolvedTimes) : bool :=
  numLt
    (numMin (numAbs (numSub (getTime (arrivalTime r)) (Some now)))
            (numAbs (numSub (getTime (departureTime r)) (Some now))))
    (Some fourHours).

(** [tripUpdate?.trip?.startDate === trip.start_date] *)
Definition sameStartDate (tripUpdate : option TripUpdate) (trip : TripStopRaw) : bool :=
  match tripUpdate with
  | Some tu =>
      match TripDescriptor.startDate (GtfsRt.trip tu) with
      | Some d => String.eqb d (start_date trip)
      | None => false
      end
  | None => false
  end.

Definition isCanceled (tripUpdate : option TripUpdate) : bool :=
  match tripUpdate with
  | Some tu =>
      match TripDescriptor.scheduleRelationship (GtfsRt.trip tu) with
      | Some TripDescriptor.CANCELED => true
      | _ => false
      end
  | None => false
  end.

Definition isSkipped (stopTimeUpdate : option StopTimeUpdate.t) : bool :=
  match stopTimeUpdate with
  | Some stu =>
      match StopTimeUpdate.scheduleRelationship stu with
      | Some StopTimeUpdate.SKIPPED => true
      | _ => false
      end
  | None => false
  end.

(** The cancellation and skip block of the callback: [true] when one of
    its two [return]s is taken. *)
Definition canceledOrSkipped (now : Z) (trip : TripStopRaw)
    (tripUpdate : option TripUpdate)
    (stopTimeUpdate : option StopTimeUpdate.t) (r : ResolvedTimes) : bool :=
  if tripIsFeasiblyActive now r || sameStartDate tripUpdate trip then
    if isCanceled tripUpdate then true
    else if isSkipped stopTimeUpdate then true
    else false
  else false.

(** The test of [tripStops.some(..)]: [===] on the two dates compares
    objects. *)
Definition isDuplicate (tripStops : list TripStop) (trip : TripStopRaw)
    (r : ResolvedTimes) : bool :=
  existsb
    (fun ts =>
       String.eqb (ts_tripId ts) (trip_id trip)
       && sameObject (ts_arrivalTime ts) (arrivalTime r)
       && sameObject (ts_departureTime ts) (departureTime r))
    tripStops.

Definition toTripStop (trip : TripStopRaw) (r : ResolvedTimes) : TripStop :=
  {| ts_tripId := trip_id trip;
     ts_routeId := route_id trip;
     ts_stopId := stop_id trip;
     ts_routeName := route_name trip;
     ts_routeColor := option_map (removeAll "#") (route_color trip);
     ts_headsign :=
       removeRouteNameFromHeadsign (Some (route_name trip)) (stop_headsign trip);
     ts_stopName := stop_name trip;
     ts_arrivalTime := arrivalTime r;
     ts_departureTime := departureTime r;
     ts_isRealtime := isRealtime r |}.

(** The callback of [trips.forEach]; [tripStops] is the array it pushes to. *)
Definition processTrip (now : Z) (tripUpdates : gmap string TripUpdate)
    (tripStops : list TripStop) (trip : TripStopRaw) : Alloc (list TripStop) :=
  (let tripUpdate := findTripUpdate tripUpdates trip in
   let stopTimeUpdate := findStopTimeUpdate tripUpdate trip in
   let* r := resolveTripTimes trip stopTimeUpdate in
   if numLt (getTime (departureTime r)) (Some now) then ret tripStops
   else if canceledOrSkipped now trip tripUpdate stopTimeUpdate r then ret tripStops
   else if isDuplicate tripStops trip r then ret tripStops
   else ret (app tripStops [toTripStop trip r]))%alloc.

Fixpoint forEachTrip (now : Z) (tripUpdates : gmap string TripUpdate)
    (trips : list TripStopRaw) (tripStops : list TripStop)
  : Alloc (list TripStop) :=
  match trips with
  | [] => ret tripStops
  | trip :: rest =>
      (let* tripStops' := processTrip now tripUpdates tripStops trip in
       forEachTrip now tripUpdates rest tripStops')%alloc
  end.

(** What the service reaches outside itself, at each of the three
    schedule dates: the static schedule query, the cache, and the
    real-time endpoints. *)
Record World (E : Type) : Type := {
  getScheduleForRouteAtStop : string -> string -> Z -> Result E (list TripStopRaw);
  cacheGet : Z -> string -> option (list FeedEntity);
  fetch : Z -> FetchConfig -> Result E Response
}.
Arguments getScheduleForRouteAtStop {E}.
Arguments cacheGet {E}.
Arguments fetch {E}.

(** The [try]/[catch] around [getTripUpdates]. *)
Definition tripUpdatesOrEmpty {E} {C}
    (r : Result E (gmap string TripUpdate * C)) : gmap string TripUpdate :=
  match r with
  | Ok (m, _) => m
  | Throw _ => ∅
  end.

(** One turn of the loop over [scheduleDates]. *)
Definition scanDay {E} (w : World E) (feedCode : string) (config : GtfsConfig)
    (routes : list RouteAtStop) (now : Z) (scheduleDate : Z)
    (tripStops : list TripStop) (n : nat)
  : Result E (list TripStop * nat) :=
  bindR (promiseAll
           (fun r => getScheduleForRouteAtStop w (routeId r) (stopId r) scheduleDate)
           routes)
    (fun rows =>
       let trips := concat rows in
       let tripUpdates :=
         tripUpdatesOrEmpty
           (getTripUpdates feedCode config (cacheGet w scheduleDate)
              (fetch w scheduleDate) (map trip_id trips)) in
       Ok (forEachTrip now tripUpdates trips tripStops n)).

Definition scheduleDates : list Z := [-1; 0; 1].

Definition getUpcomingTripsForRoutesAtStops {E} (w : World E)
    (feedCode : string) (config : GtfsConfig)
    (routes : list RouteAtStop) (now : Z) (n : nat)
  : Result E (list TripStop * nat) :=
  fold_left
    (fun acc scheduleDate =>
       bindR acc (fun '(tripStops, n') =>
         scanDay w feedCode config routes now scheduleDate tripStops n'))
    scheduleDates (Ok ([], n)).

(** *** [getRoutesForStop]: from the rows of the query to [StopRoute] *)

(** One row of the query: a route serving the stop, with the headsigns
    aggregated over its stop times ([JSON_AGG] may hold [null]). *)
Record StopRouteRow : Type := {
  row_route_id : string;
  row_route_short_name : option string;
  row_route_long_name : option string;
  row_route_color : option string;
  row_headsigns : list (option string)
}.

(** [StopRoute] of feed-provider.interface.ts *)
Record StopRoute : Type := {
  sr_routeId : string;
  sr_name : string;
  sr_color : option string;
  sr_headsigns : list string
}.

(** [!s || s.trim() === ""] *)
Definition blank (s : option string) : bool :=
  match s with
  | Some str => negb (nonEmpty str) || negb (nonEmpty (trim str))
  | None => true
  end.

Definition toStopRoute (route : StopRouteRow) : StopRoute :=
  {| sr_routeId := row_route_id route;
     sr_color := option_map (removeAll "#") (row_route_color route);
     sr_name :=
       match (if blank (row_route_short_name route)
              then row_route_long_name route
              else row_route_short_name route) with
       | Some name => name
       | None => "Unnamed Route"
       end;
     sr_headsigns :=
       map (removeRouteNameFromHeadsign (row_route_short_name route))
         (flat_map
            (fun headsign =>
               match headsign with
               | Some h => if negb (blank (Some h)) then [h] else []
               | None => []
               end)
            (row_headsigns route)) |}.

(** [routes.map(..)] over the rows of the query. *)
Definition getRoutesForStop (rows : list StopRouteRow) : list StopRoute :=
  map toStopRoute rows.

End Gtfs.

(** ** schedule.service.ts *)

Module Schedule.
Local Open Scope Q_scope.

Record ScheduleTrip : Type := {
  tripId : string;
  routeId : string;
  routeName : string;
  routeColor : option string;
  stopId : string;
  stopName : string;
  headsign : string;
  arrivalTime : option Q;        (* seconds, or NaN *)
  departureTime : option Q;
  isRealtime : bool
}.

Record ScheduleUpdate : Type := { trips : list ScheduleTrip }.

(** [RouteAtStop & { offset: number }], for offsets held in [N]: the
    aggregation is embedded for offsets that are integers, [N := Z]; the
    parser returns the doubles of [parseInt], [N := Number]. *)
Record RouteAtStopWithOffset (N : Type) : Type := {
  r_routeId : string;
  r_stopId : string;
  offset : N
}.
Arguments Build_RouteAtStopWithOffset {N}.
Arguments r_routeId {N}.
Arguments r_stopId {N}.
Arguments offset {N}.

Definition toRouteAtStop {N} (r : RouteAtStopWithOffset N) : Feed.RouteAtStop :=
  {| Feed.routeId := r_routeId r; Feed.stopId := r_stopId r |}.

Inductive ListMode : Type := sequential | nextPerRoute.

Record ScheduleOptions : Type := {
  feedCode : string;
  routes : list (RouteAtStopWithOffset Z);
  limit : Z;
  sortByDeparture : option bool;
  listMode : option ListMode
}.

(** *** [getUpcomingTrips] *)

Definition truthyBool (o : option bool) : bool :=
  match o with Some b => b | None => false end.

(** [trip[sortKey]] *)
Definition sortKeyOf (sortByDeparture : option bool) (trip : ScheduleTrip)
  : option Q :=
  if truthyBool sortByDeparture then departureTime trip else arrivalTime trip.

Definition seconds (ms : Z) : Q := inject_Z ms / 1000.

(** [new Date(d).getTime() / 1000 + offset]; [NaN] for an invalid date. *)
Definition shiftedSeconds (d : DateObj) (offset : Z) : option Q :=
  match getTime d with
  | Some ms => Some (seconds ms + inject_Z offset)
  | None => None
  end.

(** The callback of [upcomingTrips.map]; reading [.offset] of the
    [undefined] that [find] returns when no route matches throws. *)
Definition applyOffset (routes : list (RouteAtStopWithOffset Z))
    (trip : Feed.TripStop) : Result Exception ScheduleTrip :=
  match
    List.find
      (fun r => String.eqb (r_routeId r) (Feed.ts_routeId trip)
                && String.eqb (r_stopId r) (Feed.ts_stopId trip))
      routes
  with
  | Some r =>
      Ok {| tripId := Feed.ts_tripId trip;
            routeId := Feed.ts_routeId trip;
            routeName := Feed.ts_routeName trip;
            routeColor := Feed.ts_routeColor trip;
            stopId := Feed.ts_stopId trip;
            stopName := Feed.ts_stopName trip;
            headsign := Feed.ts_headsign trip;
            arrivalTime := shiftedSeconds (Feed.ts_arrivalTime trip) (offset r);
            departureTime := shiftedSeconds (Feed.ts_departureTime trip) (offset r);
            isRealtime := Feed.ts_isRealtime trip |}
  | None => Throw (TypeError "Cannot read properties of undefined (reading 'offset')")
  end.

Definition Qgtb (a b : Q) : bool := negb (Qle_bool a b).

(** [key > now] for a key that may be [NaN]. *)
Definition after (now : Q) (key : option Q) : bool :=
  match key with
  | Some k => Qgtb k now
  | None => false
  end.

(** [a - b] as the sort reads it: a comparator result [NaN] counts
    as [+0]. *)
Definition compareKeys (a b : option Q) : Q :=
  match a, b with
  | Some x, Some y => x - y
  | _, _ => 0
  end.

(** [xs.sort(cmp)]: the sort is stable, so for a comparator that orders
    by a key the result is the one of a stable insertion sort. *)
Fixpoint insertBy {A} (cmp : A -> A -> Q) (x : A) (sorted : list A) : list A :=
  match sorted with
  | [] => [x]
  | y :: rest =>
      if Qgtb (cmp x y) 0 then y :: insertBy cmp x rest else x :: sorted
  end.

Definition sortWith {A} (cmp : A -> A -> Q) (xs : list A) : list A :=
  fold_right (insertBy cmp) [] xs.

Definition pairKey (trip : ScheduleTrip) : string :=
  routeId trip +:+ "-" +:+ stopId trip.

(** [trips.filter(..)] with the mutable set [pairs] in its closure. *)
Fixpoint filterFirstSeen (pairs : gset string) (trips : list ScheduleTrip)
  : list ScheduleTrip :=
  match trips with
  | [] => []
  | trip :: rest =>
      let key := pairKey trip in
      if bool_decide (key ∈ pairs)
      then trip :: filterFirstSeen (pairs ∖ {[key]}) rest
      else filterFirstSeen pairs rest
  end.

Definition addAll (trips : list ScheduleTrip) : gset string :=
  fold_left (fun pairs trip => {[pairKey trip]} ∪ pairs) trips ∅.

(** [xs.slice(0, limit)] for an integer [limit]; a negative [limit]
    counts from the end. *)
Definition sliceTo {A} (limit : Z) (xs : list A) : list A :=
  if (limit <? 0)%Z
  then firstn (Z.to_nat (Z.max (Z.of_nat (length xs) + limit) 0)) xs
  else firstn (Z.to_nat limit) xs.

(** [provider] is [provider.getUpcomingTripsForRoutesAtStops], [now] is
    [Date.now()], read once for the pass. *)
Definition getUpcomingTrips
    (provider : list Feed.RouteAtStop -> Result Exception (list Feed.TripStop))
    (now : Z) (options : ScheduleOptions) : Result Exception ScheduleUpdate :=
  bindR (provider (map toRouteAtStop (routes options))) (fun upcomingTrips =>
  bindR (mapR (applyOffset (routes options)) upcomingTrips) (fun mapped =>
    let sortKey := sortKeyOf (sortByDeparture options) in
    let trips0 :=
      sortWith (fun a b => compareKeys (sortKey a) (sortKey b))
        (List.filter (fun trip => after (seconds now) (sortKey trip)) mapped) in
    let trips1 :=
      match listMode options with
      | Some nextPerRoute => filterFirstSeen (addAll trips0) trips0
      | _ => trips0
      end in
    Ok {| trips := sliceTo (limit options) trips1 |})).

(** *** [parseRouteStopPairs] *)

(** The object built from one destructured tuple: a missing component
    is [undefined], an offset that [parseInt] cannot read is [NaN]. *)
Record RawPair : Type := {
  raw_routeId : option string;
  raw_stopId : option string;
  raw_offset : Number
}.

Definition toRawPair (parts : list string) : RawPair :=
  {| raw_routeId := nth_error parts 0;
     raw_stopId := nth_error parts 1;
     raw_offset :=
       parseInt (match nth_error parts 2 with Some o => o | None => "0" end) |}.

Definition checkPair (pair : RawPair)
  : Result Exception (RouteAtStopWithOffset Number) :=
  match Gtfs.truthyString (raw_routeId pair), Gtfs.truthyString (raw_stopId pair) with
  | Some r, Some s =>
      if isNaN (raw_offset pair)
      then Throw (BadRequestException "Invalid offset; must be a number")
      else Ok {| r_routeId := r; r_stopId := s; offset := raw_offset pair |}
  | _, _ =>
      Throw (BadRequestException
        "Invalid route-stop pair; must be in the format routeId,stopId[,offset]")
  end.

Definition parseRouteStopPairs (routeStopPairsRaw : string)
  : Result Exception (list (RouteAtStopWithOffset Number)) :=
  let routeStopPairs :=
    map toRawPair
      (map (fun pair => map trim (split "," pair))
         (split ";" routeStopPairsRaw)) in
  mapR checkPair routeStopPairs.

(** *** [updateSchedule], the pass of [subscribeToSchedule] *)

(** [currentSchedule]: declared [ScheduleUpdate | null], it also holds
    [undefined] once the local [trips] was copied into it unassigned. *)
Inductive Current : Type :=
| CNull
| CUndefined
| CSchedule (s : ScheduleUpdate).

(** The calls made on the observer. *)
Inductive Notification : Type :=
| ONext (value : option ScheduleUpdate)     (* [None] is [undefined] *)
| OError (e : Exception).

Section UpdateSchedule.
(** [JSON.stringify] on a schedule update. *)
Variable stringify : ScheduleUpdate -> string.

(** [JSON.stringify(v)]: [undefined] for [undefined]. *)
Definition jsonOfCurrent (c : Current) : option string :=
  match c with
  | CNull => Some "null"
  | CUndefined => None
  | CSchedule s => Some (stringify s)
  end.

Definition jsonOfTrips (trips : option ScheduleUpdate) : option string :=
  option_map stringify trips.

Definition strictEq (a b : option string) : bool :=
  match a, b with
  | Some x, Some y => String.eqb x y
  | None, None => true
  | _, _ => false
  end.

Definition isNull (c : Current) : bool :=
  match c with CNull => true | _ => false end.

Definition currentOf (trips : option ScheduleUpdate) : Current :=
  match trips with
  | Some s => CSchedule s
  | None => CUndefined
  end.

(** One pass: the new [currentSchedule] and the observer calls made,
    in order. *)
Definition updateSchedule
    (provider : list Feed.RouteAtStop -> Result Exception (list Feed.TripStop))
    (now : Z) (subscription : ScheduleOptions) (currentSchedule : Current)
  : Current * list Notification :=
  let '(trips, calls) :=
    match getUpcomingTrips provider now subscription with
    | Ok result => (Some result, [])
    | Throw e => (None, [OError e])
    end in
  if isNull currentSchedule
     || negb (strictEq (jsonOfCurrent currentSchedule) (jsonOfTrips trips))
  then (currentOf trips, app calls [ONext trips])
  else (currentSchedule, calls).
End UpdateSchedule.

End Schedule.

(** * Definitions used to state the properties *)

Import GtfsRt Feed Gtfs.

Local Open Scope Z_scope.

Section TimeResolution.

(** The time values of a result of [resolveTripTimes]. *)
Definition arrivalMs (r : ResolvedTimes) : option Z := getTime (arrivalTime r).
Definition departureMs (r : ResolvedTimes) : option Z := getTime (departureTime r).

(** The deviation in the words of the specification: the larger of the
    distances between the effective and the scheduled time, on departure
    and on arrival. *)
Definition statedDeviationMs (trip : TripStopRaw)
    (stu : option StopTimeUpdate.t) : Z :=
  Z.max (Z.abs (effectiveTimeMs trip stu KDeparture - departure_time trip))
        (Z.abs (effectiveTimeMs trip stu KArrival - arrival_time trip)).

(** The adjusted times: the effective arrival, and the effective
    departure raised to the arrival when it lies before it. *)
Definition adjustedArrivalMs (trip : TripStopRaw)
    (stu : option StopTimeUpdate.t) : Z :=
  effectiveTimeMs trip stu KArrival.

Definition adjustedDepartureMs (trip : TripStopRaw)
    (stu : option StopTimeUpdate.t) : Z :=
  if effectiveTimeMs trip stu KArrival >? effectiveTimeMs trip stu KDeparture
  then effectiveTimeMs trip stu KArrival
  else effectiveTimeMs trip stu KDeparture.

Definition deviationMs (trip : TripStopRaw)
    (stu : option StopTimeUpdate.t) : Z :=
  Z.max (Z.abs (adjustedDepartureMs trip stu - departure_time trip))
        (Z.abs (adjustedArrivalMs trip stu - arrival_time trip)).

End TimeResolution.

Ltac run_resolve :=
  unfold resolveTripTimes, bindA, newDate, ret, dateGt, setTime, getTime,
    arrivalMs, departureMs; cbn [date_ms date_ref].

(** ** Inputs used in examples

    The trip of the end-to-end tests: STBA at the Stagecoach stop, due on
    2008-01-04 at 14:00:00 UTC. *)

Definition stbaTrip : TripStopRaw :=
  {| trip_id := "STBA"; stop_id := "STAGECOACH"; route_id := "STBA";
     route_name := "STBA"; route_color := None;
     stop_name := "Stagecoach Hotel and Casino"; stop_headsign := "Shuttle";
     stop_sequence := 1;
     arrival_time := 1199455200000; departure_time := 1199455200000;
     start_date := "20080104";
     arrival_time_valid := eq_refl; departure_time_valid := eq_refl |}.

(** A row whose scheduled arrival lies two hours after its scheduled
    departure. *)
Definition misorderedTrip : TripStopRaw :=
  {| trip_id := "STBA"; stop_id := "STAGECOACH"; route_id := "STBA";
     route_name := "STBA"; route_color := None;
     stop_name := "Stagecoach Hotel and Casino"; stop_headsign := "Shuttle";
     stop_sequence := 1;
     arrival_time := 1199462400000; departure_time := 1199455200000;
     start_date := "20080104";
     arrival_time_valid := eq_refl; departure_time_valid := eq_refl |}.

(** A row whose scheduled arrival lies one minute after its scheduled
    departure. *)
Definition minuteMisorderedTrip : TripStopRaw :=
  {| trip_id := "STBA"; stop_id := "STAGECOACH"; route_id := "STBA";
     route_name := "STBA"; route_color := None;
     stop_name := "Stagecoach Hotel and Casino"; stop_headsign := "Shuttle";
     stop_sequence := 1;
     arrival_time := 1199455260000; departure_time := 1199455200000;
     start_date := "20080104";
     arrival_time_valid := eq_refl; departure_time_valid := eq_refl |}.

Definition updateAt (stopId : string) (arrival departure : option StopTimeEvent)
    (rel : option StopTimeUpdate.ScheduleRelationship) : StopTimeUpdate.t :=
  {| StopTimeUpdate.stopSequence := None;
     StopTimeUpdate.stopId := Some stopId;
     StopTimeUpdate.arrival := arrival;
     StopTimeUpdate.departure := departure;
     StopTimeUpdate.scheduleRelationship := rel |}.

(** An arrival thirty seconds late, given as a delay. *)
Definition lateArrival : StopTimeUpdate.t :=
  updateAt "STAGECOACH" (Some {| delay := Some 30; time := None |}) None None.

(** An arrival predicted for 16:00:00, two hours after the schedule. *)
Definition twoHoursLateArrival : StopTimeUpdate.t :=
  updateAt "STAGECOACH" (Some {| delay := None; time := Some 1199462400 |}) None None.



(** ** The delay and the effective times in the words of the specification *)








(** ** Freshness hints *)

(** The hint of one response, in seconds: its [max-age] when it has one,
    0 for a [no-cache] without [max-age], none otherwise. *)
Definition hintOf (resp : Response) : option Z :=
  match cache_control resp with
  | Some directives =>
      match max_age directives with
      | Some n => Some n
      | None => if no_cache directives then Some 0 else None
      end
  | None => None
  end.

Definition hintsOf (responses : list Response) : list Z :=
  flat_map (fun resp => match hintOf resp with Some h => [h] | None => [] end)
    responses.

Definition shortFixedTtl : Z := 15000.

(** "The most restrictive freshness hint across all responses", in
    milliseconds, with the short fixed value when there is no hint. *)
Definition mostRestrictiveTtl (responses : list Response) : Z :=
  match hintsOf responses with
  | [] => shortFixedTtl
  | h :: hs => 1000 * fold_left Z.min hs h
  end.

(** The least restrictive one: the largest hint that is not negative. *)
Definition leastRestrictiveTtl (responses : list Response) : Z :=
  match List.filter (fun h => 0 <=? h) (hintsOf responses) with
  | [] => shortFixedTtl
  | h :: hs => 1000 * fold_left Z.max hs h
  end.

Definition respond (cc : option CacheControl) : Response :=
  {| cache_control := cc; Gtfs.entity := [] |}.

Definition maxAge60 : Response :=
  respond (Some {| max_age := Some 60; no_cache := false |}).

Definition noCache : Response :=
  respond (Some {| max_age := None; no_cache := true |}).

Definition twoEndpoints : RtConfig :=
  Many [ {| url := "https://a.example/tripupdates"; headers := [] |};
         {| url := "https://b.example/tripupdates"; headers := [] |} ].

(** The first endpoint answers [max-age=60], the second [no-cache]. *)
Definition twoAnswers (c : FetchConfig) : Result Exception Response :=
  if String.eqb (url c) "https://a.example/tripupdates"
  then Ok maxAge60 else Ok noCache.

Definition emptyCache {T} (key : string) : option T := None.

(** ** Worlds used in examples *)

(** 2008-01-04 13:30:00 UTC, the clock of the end-to-end tests. *)
Definition testNow : Z := 1199453400000.

Definition stbaAtStagecoach : RouteAtStop :=
  {| Feed.routeId := "STBA"; Feed.stopId := "STAGECOACH" |}.

Definition staticOnlyConfig : GtfsConfig :=
  {| static := {| url := "https://feed.example/gtfs.zip"; headers := [] |};
     rtTripUpdates := None |}.

Definition realtimeConfig : GtfsConfig :=
  {| static := {| url := "https://feed.example/gtfs.zip"; headers := [] |};
     rtTripUpdates := Some (One {| url := "https://feed.example/tripupdates"; headers := [] |}) |}.


(** STBA runs on the service day of today (offset 0) only; nothing is
    cached; the real-time endpoint is unreachable. *)
Definition stbaToday (routeId stopId : string) (dayOffset : Z)
  : Result Exception (list TripStopRaw) :=
  if String.eqb routeId "STBA" && String.eqb stopId "STAGECOACH" && (dayOffset =? 0)
  then Ok [stbaTrip] else Ok [].

Definition unreachableWorld : World Exception :=
  {| getScheduleForRouteAtStop := stbaToday;
     cacheGet := fun _ _ => None;
     fetch := fun _ _ => Throw (Error "connect ECONNREFUSED") |}.

(** The day offsets 0 and +1 resolve to the same service day (as when
    "now + 1 day" is still the same local date, on the 25-hour day that
    ends daylight saving time), so the occurrence is surfaced twice. *)
Definition stbaSameDayTwice (routeId stopId : string) (dayOffset : Z)
  : Result Exception (list TripStopRaw) :=
  if String.eqb routeId "STBA" && String.eqb stopId "STAGECOACH"
     && ((dayOffset =? 0) || (dayOffset =? 1))
  then Ok [stbaTrip] else Ok [].

Definition overlappingDaysWorld : World Exception :=
  {| getScheduleForRouteAtStop := stbaSameDayTwice;
     cacheGet := fun _ _ => None;
     fetch := fun _ _ => Throw (Error "connect ECONNREFUSED") |}.

(** ** Invariants of the scan *)

(** Every date held by an entry of [tripStops] was allocated before the
    counter reached [n]. *)
Definition allocatedBelow (n : nat) (tripStops : list TripStop) : Prop :=
  Forall (fun ts => (date_ref (ts_arrivalTime ts) < n)%nat
                    /\ (date_ref (ts_departureTime ts) < n)%nat) tripStops.

(** Two entries stand for the same visit: same trip, same arrival and
    departure as time values. *)
Definition sameVisit (a b : TripStop) : Prop :=
  ts_tripId a = ts_tripId b
  /\ (exists t, getTime (ts_arrivalTime a) = Some t
                /\ getTime (ts_arrivalTime b) = Some t)
  /\ (exists t, getTime (ts_departureTime a) = Some t
                /\ getTime (ts_departureTime b) = Some t).

(** ** A cancellation without a start date *)

Definition canceledStba : TripUpdate :=
  {| GtfsRt.trip :=
       {| TripDescriptor.tripId := Some "STBA";
          TripDescriptor.startDate := None;
          TripDescriptor.scheduleRelationship := Some TripDescriptor.CANCELED |};
     stopTimeUpdate := [] |}.

(** The occurrence of the same trip on the next service day, 24 hours
    later. *)
Definition stbaTripNextDay : TripStopRaw :=
  {| trip_id := "STBA"; stop_id := "STAGECOACH"; route_id := "STBA";
     route_name := "STBA"; route_color := None;
     stop_name := "Stagecoach Hotel and Casino"; stop_headsign := "Shuttle";
     stop_sequence := 1;
     arrival_time := 1199541600000; departure_time := 1199541600000;
     start_date := "20080105";
     arrival_time_valid := eq_refl; departure_time_valid := eq_refl |}.

(** ** A subscription whose provider fails *)

Definition failingProvider (routes : list RouteAtStop)
  : Result Exception (list TripStop) :=
  Throw (Error "timetable store unreachable").

Definition stbaSubscription : Schedule.ScheduleOptions :=
  {| Schedule.feedCode := "testfeed";
     Schedule.routes :=
       [ {| Schedule.r_routeId := "STBA"; Schedule.r_stopId := "STAGECOACH";
            Schedule.offset := 0 |} ];
     Schedule.limit := 10;
     Schedule.sortByDeparture := None;
     Schedule.listMode := None |}.

Definition emptySnapshot : Schedule.ScheduleUpdate := {| Schedule.trips := [] |}.

(** ** An aggregation over two occurrences of one route at one stop *)

Definition stbaEntry (arrivalMs : Z) (ref : nat) : TripStop :=
  {| ts_tripId := "STBA"; ts_stopId := "STAGECOACH"; ts_routeId := "STBA";
     ts_routeName := "STBA"; ts_routeColor := None;
     ts_stopName := "Stagecoach Hotel and Casino"; ts_headsign := "Shuttle";
     ts_arrivalTime := mkDate ref (Some arrivalMs);
     ts_departureTime := mkDate (S ref) (Some arrivalMs);
     ts_isRealtime := false |}.

(** The provider answers the occurrence of the next day before the one of
    today. *)
Definition twoDaysProvider (routes : list RouteAtStop)
  : Result Exception (list TripStop) :=
  Ok [stbaEntry 1199541600000 0; stbaEntry 1199455200000 2].

Definition nextStbaOptions : Schedule.ScheduleOptions :=
  {| Schedule.feedCode := "testfeed";
     Schedule.routes :=
       [ {| Schedule.r_routeId := "STBA"; Schedule.r_stopId := "STAGECOACH";
            Schedule.offset := 0 |} ];
     Schedule.limit := 10;
     Schedule.sortByDeparture := None;
     Schedule.listMode := Some Schedule.nextPerRoute |}.

(** The snapshot of a pass that returned. *)
Definition snapshotOf (r : Result Exception Schedule.ScheduleUpdate)
  : Schedule.ScheduleUpdate :=
  match r with
  | Ok snapshot => snapshot
  | Throw _ => {| Schedule.trips := [] |}
  end.

(** ** Entries of the scan and the rows they come from *)

(** The entry was built from the row, for some stop update and some
    state of the allocation counter. *)
Definition entryOf (trip : TripStopRaw) (ts : TripStop) : Prop :=
  exists stu m, ts = toTripStop trip (fst (resolveTripTimes trip stu m)).

(** The row is an answer of the static schedule for one of the asked
    pairs at one of the three day offsets. *)
Definition scheduledRow {E} (w : World E) (routes : list RouteAtStop)
    (trip : TripStopRaw) : Prop :=
  exists d r rows,
    In d scheduleDates /\ In r routes
    /\ getScheduleForRouteAtStop w (routeId r) (stopId r) d = Ok rows
    /\ In trip rows.

(** The departure of the entry is not before [now]: it is a date at or
    after [now], or an invalid date. *)
Definition notPast (now : Z) (ts : TripStop) : Prop :=
  forall d, getTime (ts_departureTime ts) = Some d -> now <= d.

(** ** A world with a live real-time feed *)

(** The feed announces the STBA trip of 2008-01-04 thirty seconds late at
    the Stagecoach stop. *)
Definition stbaLate : TripUpdate :=
  {| GtfsRt.trip :=
       {| TripDescriptor.tripId := Some "STBA";
          TripDescriptor.startDate := Some "20080104";
          TripDescriptor.scheduleRelationship := Some TripDescriptor.SCHEDULED |};
     stopTimeUpdate := [lateArrival] |}.

Definition liveWorld : World Exception :=
  {| getScheduleForRouteAtStop := stbaToday;
     cacheGet := fun _ _ => None;
     fetch := fun _ _ =>
       Ok {| cache_control := None;
             Gtfs.entity := [ {| tripUpdate := Some stbaLate |} ] |} |}.

(** What the scan answers in that world at the clock of the tests. *)
Definition stbaLateEntry : TripStop :=
  {| ts_tripId := "STBA"; ts_stopId := "STAGECOACH"; ts_routeId := "STBA";
     ts_routeName := "STBA"; ts_routeColor := None;
     ts_stopName := "Stagecoach Hotel and Casino"; ts_headsign := "Shuttle";
     ts_arrivalTime := mkDate 3 (Some 1199455230000);
     ts_departureTime := mkDate 2 (Some 1199455230000);
     ts_isRealtime := true |}.

(** The timetable store cannot be reached. *)
Definition storeDownWorld : World Exception :=
  {| getScheduleForRouteAtStop := fun _ _ _ => Throw (Error "connection refused");
     cacheGet := fun _ _ => None;
     fetch := fun _ _ => Throw (Error "connect ECONNREFUSED") |}.

(** ** Keys of the trip-update map *)

(** The key of a trip update of trip [id]: [id_startDate] when it carries
    a start date that is not empty, [id] alone otherwise. *)
Definition keyFor (tu : TripUpdate) (id : string) : string :=
  match TripDescriptor.startDate (GtfsRt.trip tu) with
  | Some (String c d) => id +:+ "_" +:+ String c d
  | _ => id
  end.

(** The update is about the trip [id], and [id] was asked for. *)
Definition requested (tripIds : list string) (tu : TripUpdate) (id : string) : Prop :=
  TripDescriptor.tripId (GtfsRt.trip tu) = Some id /\ id <> "" /\ In id tripIds.

(** ** The order of sort keys *)

(** [a <= b] and [a < b] on numbers that may be [NaN]: false as soon as
    one of the two is [NaN]. *)
Definition keyLe (a b : option Q) : Prop :=
  match a, b with
  | Some x, Some y => (x <= y)%Q
  | _, _ => False
  end.

Definition keyLt (a b : option Q) : Prop :=
  match a, b with
  | Some x, Some y => (x < y)%Q
  | _, _ => False
  end.

(** ** More inputs for the aggregation *)

(** The value of a computation that returned, else a default. *)
Definition okOr {A} (default : A) (r : Result Exception A) : A :=
  match r with
  | Ok a => a
  | Throw _ => default
  end.

(** A provider that answers a trip of a route that was not asked for. *)
Definition strayProvider (routes : list RouteAtStop)
  : Result Exception (list TripStop) :=
  Ok [ stbaEntry 1199455200000 0;
       {| ts_tripId := "CITY1"; ts_stopId := "NADAV"; ts_routeId := "CITY";
          ts_routeName := "CITY"; ts_routeColor := None;
          ts_stopName := "North Ave / D Ave N"; ts_headsign := "City";
          ts_arrivalTime := mkDate 2 (Some 1199455200000);
          ts_departureTime := mkDate 3 (Some 1199455200000);
          ts_isRealtime := false |} ].

(** The string holds no dash. *)
Fixpoint noDash (s : string) : bool :=
  match s with
  | EmptyString => true
  | String c rest => negb (Ascii.eqb c "-") && noDash rest
  end.

(** The STBA occurrence of the next day as a trip of a snapshot. *)
Definition stbaNextDaySnapshotTrip : Schedule.ScheduleTrip :=
  {| Schedule.tripId := "STBA"; Schedule.routeId := "STBA";
     Schedule.routeName := "STBA"; Schedule.routeColor := None;
     Schedule.stopId := "STAGECOACH";
     Schedule.stopName := "Stagecoach Hotel and Casino";
     Schedule.headsign := "Shuttle";
     Schedule.arrivalTime := Some (Schedule.seconds 1199541600000 + inject_Z 0)%Q;
     Schedule.departureTime := Some (Schedule.seconds 1199541600000 + inject_Z 0)%Q;
     Schedule.isRealtime := false |}.

(** ** White space *)

(** The string consists of white space characters only. *)
Fixpoint allWs (s : string) : bool :=
  match s with
  | EmptyString => true
  | String a rest1 =>
      if isWhiteSpace a then allWs rest1
      else
        match rest1 with
        | EmptyString => false
        | String b rest2 =>
            if isWhiteSpace2 a b then allWs rest2
            else
              match rest2 with
              | EmptyString => false
              | String c rest3 => isWhiteSpace3 a b c && allWs rest3
              end
        end
  end.

(** The same, as the strings built from white space characters. *)
Inductive Blank : string -> Prop :=
| Blank_nil : Blank ""
| Blank_1 a w :
    isWhiteSpace a = true -> Blank w -> Blank (String a w)
| Blank_2 a b w :
    isWhiteSpace2 a b = true -> Blank w -> Blank (String a (String b w))
| Blank_3 a b c w :
    isWhiteSpace3 a b c = true -> Blank w ->
    Blank (String a (String b (String c w))).

(** The string starts with a white space character. *)
Definition startsWithWhiteSpace (s : string) : bool :=
  match s with
  | EmptyString => false
  | String a rest1 =>
      isWhiteSpace a
      || match rest1 with
         | EmptyString => false
         | String b rest2 =>
             isWhiteSpace2 a b
             || match rest2 with
                | EmptyString => false
                | String c _ => isWhiteSpace3 a b c
                end
         end
  end.

(** The character occurs in the string. *)
Fixpoint occursIn (c : ascii) (s : string) : bool :=
  match s with
  | EmptyString => false
  | String d rest => Ascii.eqb d c || occursIn c rest
  end.

(** ** Well-formed tuples *)

(** The parts, with the separator between them. *)
Fixpoint join (sep : ascii) (parts : list string) : string :=
  match parts with
  | [] => ""
  | [part] => part
  | part :: rest => part +:+ String sep (join sep rest)
  end.

Definition isDecimalDigit (c : ascii) : bool :=
  let n := nat_of_ascii c in Nat.leb 48 n && Nat.leb n 57.

Definition isHexDigit (c : ascii) : bool :=
  let n := nat_of_ascii c in
  isDecimalDigit c || (Nat.leb 97 n && Nat.leb n 102) || (Nat.leb 65 n && Nat.leb n 70).

(** The prefix [0x] or [0X]. *)
Definition isHexPrefix (d b : ascii) : bool :=
  Ascii.eqb d "0" && (Ascii.eqb b "x" || Ascii.eqb b "X").

(** The string starts with the digits of a number: [0x] or [0X] and a
    hexadecimal digit, or a decimal digit. *)
Definition startsWithDigits (s : string) : bool :=
  match s with
  | String "0" (String "x" rest) | String "0" (String "X" rest) =>
      match rest with
      | String h _ => isHexDigit h
      | EmptyString => false
      end
  | String d _ => isDecimalDigit d
  | EmptyString => false
  end.

(** An offset that can be read: white space, then one optional sign,
    then the digits of a number; whatever follows the first digit is
    free. *)
Definition readableOffset (part : string) : Prop :=
  exists blanks sign body,
    part = blanks +:+ sign +:+ body
    /\ allWs blanks = true
    /\ (sign = "" \/ sign = "+" \/ sign = "-")
    /\ startsWithDigits body = true.

(** The parts of an accepted tuple: a route and a stop that hold more
    than white space, and, when there is a third part, an offset that
    can be read.  Parts after the third are free. *)
Definition acceptedParts (parts : list string) : Prop :=
  match parts with
  | route :: stop :: more =>
      allWs route = false /\ allWs stop = false
      /\ match more with
         | offset :: _ => readableOffset offset
         | [] => True
         end
  | _ => False
  end.

(** The tuple is made of accepted parts with commas between them. *)
Definition acceptedTuple (tuple : string) : Prop :=
  exists parts,
    tuple = join "," parts
    /\ Forall (fun part => occursIn "," part = false) parts
    /\ acceptedParts parts.

(** ** Successive passes of one subscription *)

(** A pass: the provider as it answers at that moment, and the clock. *)
Definition Pass : Type :=
  (list RouteAtStop -> Result Exception (list TripStop)) * Z.

Definition resultOf (subscription : Schedule.ScheduleOptions) (p : Pass)
  : Result Exception Schedule.ScheduleUpdate :=
  Schedule.getUpcomingTrips (fst p) (snd p) subscription.

(** The initial call of [updateSchedule] and the calls of the interval
    timer, one after the other: the last value of [currentSchedule] and
    all the calls made on the observer. *)
Fixpoint runPasses (stringify : Schedule.ScheduleUpdate -> string)
    (subscription : Schedule.ScheduleOptions) (passes : list Pass)
    (currentSchedule : Schedule.Current)
  : Schedule.Current * list Schedule.Notification :=
  match passes with
  | [] => (currentSchedule, [])
  | p :: rest =>
      let step :=
        Schedule.updateSchedule stringify (fst p) (snd p) subscription
          currentSchedule in
      let run := runPasses stringify subscription rest (fst step) in
      (fst run, app (snd step) (snd run))
  end.

(** The snapshots handed to [observer.next]. *)
Definition emitted (calls : list Schedule.Notification)
  : list Schedule.ScheduleUpdate :=
  flat_map (fun call => match call with
                        | Schedule.ONext (Some s) => [s]
                        | _ => []
                        end) calls.

(** No two neighbours of the list are equal. *)
Fixpoint adjacentDistinct (l : list string) : Prop :=
  match l with
  | a :: rest =>
      match rest with
      | b :: _ => a <> b /\ adjacentDistinct rest
      | [] => True
      end
  | [] => True
  end.

(** ** The timers of [subscribeToSchedule]

    [random] is a value of [Math.random()]. *)

(** [Math.floor(Math.random() * 10000)], the delay before the interval
    timer is started. *)
Definition startupDelay (random : Q) : Z := Qfloor (random * 10000).

(** [30_000 + jitter] with [jitter = Math.floor(Math.random() * 1000)],
    the period of the interval timer. *)
Definition pollingPeriod (random : Q) : Z := 30000 + Qfloor (random * 1000).

(** ** Writing route-stop pairs

    The format that the error message of the parser names:
    [routeId,stopId,offset], the tuples separated by semicolons, the
    offset in decimal notation. *)

Definition showNat (n : nat) : string :=
  NilEmpty.string_of_uint (Nat.to_uint n).

Definition showZ (z : Z) : string :=
  if z <? 0 then String "-" (showNat (Z.to_nat (- z))) else showNat (Z.to_nat z).

Definition formatPair (pair : Schedule.RouteAtStopWithOffset Z) : string :=
  join "," [Schedule.r_routeId pair; Schedule.r_stopId pair;
            showZ (Schedule.offset pair)].

Definition formatPairs (pairs : list (Schedule.RouteAtStopWithOffset Z)) : string :=
  join ";" (map formatPair pairs).

(** Every byte of the string is a character below U+0080 that is not
    white space. *)
Fixpoint inked (s : string) : bool :=
  match s with
  | EmptyString => true
  | String c rest =>
      Nat.ltb (nat_of_ascii c) 128 && negb (isWhiteSpace c) && inked rest
  end.

(** An identifier that can be written in a tuple as it is: not empty, no
    white space at either end, no comma and no semicolon. *)
Definition writable (s : string) : Prop :=
  s <> "" /\ trim s = s /\ occursIn "," s = false /\ occursIn ";" s = false.

(** The largest integer below which every integer is a double,
    [Number.MAX_SAFE_INTEGER]. *)
Definition maxSafeInteger : Z := 9007199254740991.

(** The pair as the parser returns it. *)
Definition asParsed (pair : Schedule.RouteAtStopWithOffset Z)
  : Schedule.RouteAtStopWithOffset Number :=
  {| Schedule.r_routeId := Schedule.r_routeId pair;
     Schedule.r_stopId := Schedule.r_stopId pair;
     Schedule.offset := Finite (Schedule.offset pair) |}.

(** ** Trip ids and keys *)

(** No trip id of the list is another one of them followed by an
    underscore: the keys [id] and [id_startDate] of two of the trips
    never meet. *)
Definition unambiguous (tripIds : list string) : Prop :=
  forall a b, In a tripIds -> In b tripIds -> startsWith b (a +:+ "_") = false.

(** ** Real-time sources that fail *)






(** ** Updates that the confidence filter should discard *)

(** An arrival predicted beyond the last instant a [Date] can hold. *)
Definition farFutureArrival : StopTimeUpdate.t :=
  updateAt "STAGECOACH"
    (Some {| delay := None; time := Some 8640000000001 |}) None None.

(** An arrival predicted ten minutes late and a departure predicted two
    hours early. *)
Definition earlyDeparture : StopTimeUpdate.t :=
  updateAt "STAGECOACH"
    (Some {| delay := None; time := Some 1199455800 |})
    (Some {| delay := None; time := Some 1199448000 |}) None.

(** * Properties *)

(** ** The runtime pieces on examples *)

Example trim_both_ends : trim "  STBA , " = "STBA ,".
Proof. reflexivity. Qed.

(** U+00A0 (C2 A0), U+FEFF (EF BB BF) and U+2028 (E2 80 A8) are white
    space; U+2014 (E2 80 94), the dash, is not. *)
Example trim_unicode :
  let nbsp := String (ascii_of_nat 194) (String (ascii_of_nat 160) "") in
  let bom :=
    String (ascii_of_nat 239) (String (ascii_of_nat 187)
      (String (ascii_of_nat 191) "")) in
  let ls :=
    String (ascii_of_nat 226) (String (ascii_of_nat 128)
      (String (ascii_of_nat 168) "")) in
  let dash :=
    String (ascii_of_nat 226) (String (ascii_of_nat 128)
      (String (ascii_of_nat 148) "")) in
  trim nbsp = ""
  /\ trim (bom +:+ " STBA" +:+ nbsp +:+ ls) = "STBA"
  /\ trim (dash +:+ " STBA " +:+ dash) = dash +:+ " STBA " +:+ dash.
Proof. repeat split; reflexivity. Qed.

Example split_keeps_empty_parts : split ";" "a,b;;c" = ["a,b"; ""; "c"].
Proof. reflexivity. Qed.

Example split_of_empty : split "," "" = [""].
Proof. reflexivity. Qed.

Example parseInt_signed : parseInt " -30" = Finite (-30).
Proof. reflexivity. Qed.

Example parseInt_hex : parseInt "0x1f" = Finite 31.
Proof. reflexivity. Qed.

Example parseInt_prefix : parseInt "12abc" = Finite 12.
Proof. reflexivity. Qed.

Example parseInt_empty : parseInt "" = NaN.
Proof. reflexivity. Qed.

Example parseInt_no_digit : parseInt "-x" = NaN.
Proof. reflexivity. Qed.

(** Beyond 2^53 the integer that was read is rounded to a double. *)
Example parseInt_rounds :
  parseInt "9007199254740993" = Finite 9007199254740992
  /\ parseInt "9007199254740995" = Finite 9007199254740996
  /\ parseInt "-18014398509481987" = Finite (-18014398509481988).
Proof. repeat split; reflexivity. Qed.

Example headsign_without_route_name :
  removeRouteNameFromHeadsign (Some "STBA") "STBA - Shuttle " = "- Shuttle".
Proof. reflexivity. Qed.

(** ** Time resolution *)

Lemma timeClip_inRange ms : inRange ms = true -> timeClip ms = Some ms.
Proof. intros H. unfold timeClip. rewrite H. reflexivity. Qed.

Lemma timeClip_outside ms : inRange ms = false -> timeClip ms = None.
Proof. intros H. unfold timeClip. rewrite H. reflexivity. Qed.


Ltac run_numbers :=
  unfold numGt, numLt, numMax, numMin, numAbs, numSub in *.

(** The result of [resolveTripTimes] in terms of the effective times.
    When both are within the range of [Date]: the scheduled pair when the
    deviation of the adjusted times exceeds ninety minutes, the adjusted
    pair otherwise.  When one of them is not: both as [new Date] made
    them, the one outside the range invalid, whatever the deviation. *)
Lemma resolveTripTimes_values trip stu n :
  let r := fst (resolveTripTimes trip stu n) in
  if inRange (effectiveTimeMs trip stu KArrival)
     && inRange (effectiveTimeMs trip stu KDeparture)
  then
    if deviationMs trip stu >? ninetyMinutes
    then arrivalMs r = Some (arrival_time trip)
         /\ departureMs r = Some (departure_time trip)
         /\ isRealtime r = false
    else arrivalMs r = Some (adjustedArrivalMs trip stu)
         /\ departureMs r = Some (adjustedDepartureMs trip stu)
         /\ isRealtime r = is_Some_b stu
  else arrivalMs r = timeClip (effectiveTimeMs trip stu KArrival)
       /\ departureMs r = timeClip (effectiveTimeMs trip stu KDeparture)
       /\ isRealtime r = is_Some_b stu.
Proof.
  unfold deviationMs, adjustedDepartureMs, adjustedArrivalMs.
  run_resolve.
  rewrite (timeClip_inRange _ (arrival_time_valid trip)),
    (timeClip_inRange _ (departure_time_valid trip)).
  unfold timeClip.
  destruct (inRange (effectiveTimeMs trip stu KArrival)) eqn:Ha;
    destruct (inRange (effectiveTimeMs trip stu KDeparture)) eqn:Hd;
    cbn [andb numGt numMax numAbs numSub date_ms date_ref];
    try (repeat split; reflexivity).
  destruct (effectiveTimeMs trip stu KArrival >? effectiveTimeMs trip stu KDeparture);
    cbn [date_ms date_ref numGt numMax numAbs numSub];
    rewrite ?Ha;
    cbn [date_ms date_ref numGt numMax numAbs numSub];
    match goal with
    | |- context [if ?c then _ else _] => destruct c
    end; cbn; auto.
Qed.

Ltac split_resolve :=
  run_resolve; unfold timeClip; run_numbers;
  repeat match goal with
         | |- context [if ?c then _ else _] => destruct c; cbn [date_ms date_ref]
         | |- context [match (if ?c then _ else _) with _ => _ end] =>
             destruct c; cbn [date_ms date_ref]
         end.

(** [resolveTripTimes] allocates four dates on every call. *)
Lemma resolveTripTimes_counter trip stu n :
  snd (resolveTripTimes trip stu n) = (4 + n)%nat.
Proof. split_resolve; reflexivity. Qed.

(** The two dates of a result are objects allocated by that call. *)
Lemma resolveTripTimes_fresh trip stu n :
  let r := fst (resolveTripTimes trip stu n) in
  (n <= date_ref (arrivalTime r))%nat /\ (n <= date_ref (departureTime r))%nat.
Proof. split_resolve; cbn; lia. Qed.

(** When the schedule itself is ordered, no result has its arrival after
    its departure. *)
Lemma resolveTripTimes_ordered_of_schedule trip stu n :
  arrival_time trip <= departure_time trip ->
  forall a d,
    arrivalMs (fst (resolveTripTimes trip stu n)) = Some a ->
    departureMs (fst (resolveTripTimes trip stu n)) = Some d ->
    a <= d.
Proof.
  intros Hs a d.
  pose proof (resolveTripTimes_values trip stu n) as H. cbv zeta in H.
  destruct (inRange (effectiveTimeMs trip stu KArrival)) eqn:Ha;
    destruct (inRange (effectiveTimeMs trip stu KDeparture)) eqn:Hd;
    cbn [andb] in H.
  - destruct (deviationMs trip stu >? ninetyMinutes);
      destruct H as (-> & -> & _); intros [= <-] [= <-]; [exact Hs|].
    unfold adjustedArrivalMs, adjustedDepartureMs.
    destruct (Z.gtb_spec (effectiveTimeMs trip stu KArrival)
                (effectiveTimeMs trip stu KDeparture)); lia.
  - destruct H as (_ & -> & _). rewrite (timeClip_outside _ Hd). discriminate.
  - destruct H as (-> & _ & _). rewrite (timeClip_outside _ Ha). discriminate.
  - destruct H as (-> & _ & _). rewrite (timeClip_outside _ Ha). discriminate.
Qed.

(** A result that is not the low-confidence fallback never has its
    arrival after its departure. *)
Lemma resolveTripTimes_ordered_when_confident trip stu n :
  deviationMs trip stu <= ninetyMinutes ->
  forall a d,
    arrivalMs (fst (resolveTripTimes trip stu n)) = Some a ->
    departureMs (fst (resolveTripTimes trip stu n)) = Some d ->
    a <= d.
Proof.
  intros Hdev a d.
  pose proof (resolveTripTimes_values trip stu n) as H. cbv zeta in H.
  destruct (inRange (effectiveTimeMs trip stu KArrival)) eqn:Ha;
    destruct (inRange (effectiveTimeMs trip stu KDeparture)) eqn:Hd;
    cbn [andb] in H.
  - destruct (Z.gtb_spec (deviationMs trip stu) ninetyMinutes); [lia|].
    destruct H as (-> & -> & _); intros [= <-] [= <-].
    unfold adjustedArrivalMs, adjustedDepartureMs.
    destruct (Z.gtb_spec (effectiveTimeMs trip stu KArrival)
                (effectiveTimeMs trip stu KDeparture)); lia.
  - destruct H as (_ & -> & _). rewrite (timeClip_outside _ Hd). discriminate.
  - destruct H as (-> & _ & _). rewrite (timeClip_outside _ Ha). discriminate.
  - destruct H as (-> & _ & _). rewrite (timeClip_outside _ Ha). discriminate.
Qed.

(** C1, at a failing input.  The property "arrivalTime <= departureTime
    for every result" does not hold on the low-confidence branch.  For a
    row scheduled to arrive two hours after it departs and no stop update,
    the departure is first raised to the arrival, the deviation is then
    two hours, and the raw scheduled pair is returned, arrival after
    departure.  For a row scheduled to arrive one minute after it departs
    and an arrival predicted two hours late, the prediction is discarded
    and the raw scheduled pair is returned, again arrival after
    departure. *)
Theorem resolveTripTimes_fallback_unordered :
  (let r := fst (resolveTripTimes misorderedTrip None 0%nat) in
   arrivalMs r = Some 1199462400000
   /\ departureMs r = Some 1199455200000
   /\ isRealtime r = false
   /\ dateGt (arrivalTime r) (departureTime r) = true)
  /\ (let r := fst (resolveTripTimes minuteMisorderedTrip
                      (Some twoHoursLateArrival) 0%nat) in
      arrivalMs r = Some 1199455260000
      /\ departureMs r = Some 1199455200000
      /\ isRealtime r = false
      /\ dateGt (arrivalTime r) (departureTime r) = true).
Proof. vm_compute. repeat split; reflexivity. Qed.

(** When the effective arrival does not lie after the effective
    departure, the adjusted times are the effective times and the
    deviation is the one of the effective times. *)
Lemma deviationMs_of_ordered trip stu :
  effectiveTimeMs trip stu KArrival <= effectiveTimeMs trip stu KDeparture ->
  adjustedDepartureMs trip stu = effectiveTimeMs trip stu KDeparture
  /\ deviationMs trip stu = statedDeviationMs trip stu.
Proof.
  intros Hle.
  unfold deviationMs, statedDeviationMs, adjustedDepartureMs, adjustedArrivalMs.
  destruct (Z.gtb_spec (effectiveTimeMs trip stu KArrival)
              (effectiveTimeMs trip stu KDeparture)); [lia|]. split; reflexivity.
Qed.

(** C3, at two failing inputs.  The property "a deviation of more than
    ninety minutes gives the scheduled times with [isRealtime = false]"
    does not hold.  For an arrival predicted beyond the last instant a
    [Date] can hold, both dates of the result are invalid, the deviation
    is [NaN], the test [NaN > 5400000] is false, and the invalid dates
    are returned with [isRealtime = true].  For an arrival predicted ten
    minutes late and a departure predicted two hours early, the departure
    is first raised to the arrival, the deviation is then ten minutes,
    and the pair is returned with [isRealtime = true], although the
    predicted departure lies two hours from the schedule. *)
Theorem resolveTripTimes_keeps_deviating_update :
  (let r := fst (resolveTripTimes stbaTrip (Some farFutureArrival) 0%nat) in
   statedDeviationMs stbaTrip (Some farFutureArrival) > ninetyMinutes
   /\ arrivalMs r = None
   /\ departureMs r = None
   /\ isRealtime r = true)
  /\ (let r := fst (resolveTripTimes stbaTrip (Some earlyDeparture) 0%nat) in
      statedDeviationMs stbaTrip (Some earlyDeparture) = 7200000
      /\ statedDeviationMs stbaTrip (Some earlyDeparture) > ninetyMinutes
      /\ arrivalMs r = Some 1199455800000
      /\ departureMs r = Some 1199455800000
      /\ isRealtime r = true).
Proof. vm_compute. repeat split; reflexivity. Qed.

(** Inside the range of [Date], and with the deviation taken over the
    adjusted times (the effective arrival, and the effective departure
    raised to it when it lay before it), the filter is as the
    specification words it: above ninety minutes the result is the
    scheduled pair with [isRealtime = false]; otherwise it is the adjusted
    pair, and [isRealtime] is true exactly when a stop update was
    matched. *)
Lemma resolveTripTimes_confidence_filter trip stu n :
  inRange (effectiveTimeMs trip stu KArrival) = true ->
  inRange (effectiveTimeMs trip stu KDeparture) = true ->
  let r := fst (resolveTripTimes trip stu n) in
  (deviationMs trip stu > ninetyMinutes ->
     arrivalMs r = Some (arrival_time trip)
     /\ departureMs r = Some (departure_time trip)
     /\ isRealtime r = false)
  /\ (deviationMs trip stu <= ninetyMinutes ->
       arrivalMs r = Some (adjustedArrivalMs trip stu)
       /\ departureMs r = Some (adjustedDepartureMs trip stu)
       /\ (isRealtime r = true <-> exists u, stu = Some u)).
Proof.
  intros Hia Hid.
  pose proof (resolveTripTimes_values trip stu n) as H. cbv zeta in *.
  rewrite Hia, Hid in H. cbn [andb] in H.
  destruct (Z.gtb_spec (deviationMs trip stu) ninetyMinutes) as [Hgt|Hle].
  - split; [intros _; exact H | lia].
  - split; [lia | intros _].
    destruct H as (Ha & Hd & Hr). repeat split; auto.
    + rewrite Hr. destruct stu; [eauto | discriminate].
    + intros [u ->]. rewrite Hr. reflexivity.
Qed.

(** ** The delay and the effective times *)








(** ** The cache TTL of the fetched trip updates *)

Lemma fold_updateMaxAge responses acc :
  fold_left updateMaxAge responses acc = fold_left Z.max (hintsOf responses) acc.
Proof.
  revert acc. induction responses as [|r rs IH]; intros acc; [reflexivity|].
  cbn [fold_left]. rewrite IH. unfold hintsOf. cbn [flat_map].
  unfold updateMaxAge, hintOf.
  destruct (cache_control r) as [d|]; [|reflexivity].
  destruct (max_age d); [reflexivity|].
  destruct (no_cache d); reflexivity.
Qed.

Lemma fold_max_ge hs acc : acc <= fold_left Z.max hs acc.
Proof.
  revert acc. induction hs as [|h hs IH]; intros acc; cbn; [lia|].
  specialize (IH (Z.max acc h)). lia.
Qed.

Lemma fold_max_upper ys acc y :
  In y (acc :: ys) -> y <= fold_left Z.max ys acc.
Proof.
  revert acc y. induction ys as [|z ys IH]; intros acc y Hin; cbn [fold_left].
  - destruct Hin as [<-|[]]. lia.
  - pose proof (fold_max_ge ys (Z.max acc z)).
    destruct Hin as [<-|[<-|Hy]]; [lia|lia|].
    apply IH. right. exact Hy.
Qed.

Lemma fold_max_drop_negative hs acc :
  0 <= acc ->
  fold_left Z.max hs acc = fold_left Z.max (List.filter (fun h => 0 <=? h) hs) acc.
Proof.
  revert acc. induction hs as [|h hs IH]; intros acc Hacc; [reflexivity|].
  cbn [fold_left List.filter].
  destruct (Z.leb_spec 0 h).
  - cbn [fold_left]. apply IH. lia.
  - replace (Z.max acc h) with acc by lia. apply IH. exact Hacc.
Qed.

Lemma ttlOfMaxAge_fold hs :
  ttlOfMaxAge (fold_left Z.max hs (-1)) =
  match List.filter (fun h => 0 <=? h) hs with
  | [] => shortFixedTtl
  | h :: hs' => 1000 * fold_left Z.max hs' h
  end.
Proof.
  induction hs as [|h hs IH]; [reflexivity|].
  cbn [fold_left List.filter].
  destruct (Z.leb_spec 0 h).
  - replace (Z.max (-1) h) with h by lia.
    rewrite (fold_max_drop_negative hs h) by lia.
    unfold ttlOfMaxAge.
    pose proof (fold_max_ge (List.filter (fun h => 0 <=? h) hs) h).
    destruct (Z.geb_spec (fold_left Z.max (List.filter (fun h => 0 <=? h) hs) h) 0);
      lia.
  - replace (Z.max (-1) h) with (-1) by lia. exact IH.
Qed.

Lemma fetchTripUpdates_ttl {E} rt (fetch : FetchConfig -> Result E Response) responses :
  promiseAll fetch (fetchConfigsOf rt) = Ok responses ->
  fetchTripUpdates rt fetch =
  Ok (WithTtl (concat (map Gtfs.entity responses)) (leastRestrictiveTtl responses)).
Proof.
  intros H. unfold fetchTripUpdates. rewrite H. cbn [bindR].
  rewrite fold_updateMaxAge, ttlOfMaxAge_fold. reflexivity.
Qed.

(** C5, as stated, fails.  Two endpoints, the first answering
    [max-age=60] and the second [no-cache]: the most restrictive hint
    gives the TTL 0 and nothing stored; the entities are stored for
    60000 ms. *)
Lemma ttl_not_most_restrictive :
  promiseAll twoAnswers (fetchConfigsOf twoEndpoints) = Ok [maxAge60; noCache]
  /\ mostRestrictiveTtl [maxAge60; noCache] = 0
  /\ fetchTripUpdates twoEndpoints twoAnswers = Ok (WithTtl [] 60000)
  /\ cached "feed" "tripUpdates" emptyCache
       (fun _ => fetchTripUpdates twoEndpoints twoAnswers) None
     = Ok ([], [ {| set_key := "feed-tripUpdates"; set_value := [];
                    set_ttl := Some 60000 |} ])
  /\ fetchTripUpdates twoEndpoints twoAnswers
     <> Ok (WithTtl [] (mostRestrictiveTtl [maxAge60; noCache])).
Proof. vm_compute. repeat split; try reflexivity. discriminate. Qed.

(** C5, amended.  When every endpoint answers, the TTL handed to the
    cache is the least restrictive hint: 1000 times the largest
    [max-age] over all responses, a [no-cache] without [max-age]
    counting as 0 and a negative [max-age] not counting, and 15000 ms
    when no response carries a hint.  On a cache miss the entities are
    stored with that TTL when it is positive and not stored when it is 0;
    so a [no-cache] hint keeps the result out of the cache only when no
    response carries a positive [max-age]. *)
Theorem ttl_least_restrictive {E} feedCode rt
    (fetch : FetchConfig -> Result E Response)
    (lookup : string -> option (list FeedEntity)) responses :
  promiseAll fetch (fetchConfigsOf rt) = Ok responses ->
  lookup (feedCode +:+ "-" +:+ "tripUpdates") = None ->
  let entities := concat (map Gtfs.entity responses) in
  let ttl := leastRestrictiveTtl responses in
  fetchTripUpdates rt fetch = Ok (WithTtl entities ttl)
  /\ 0 <= ttl
  /\ cached feedCode "tripUpdates" lookup (fun _ => fetchTripUpdates rt fetch) None
     = Ok (entities,
           if ttl >? 0
           then [ {| set_key := feedCode +:+ "-" +:+ "tripUpdates";
                     set_value := entities; set_ttl := Some ttl |} ]
           else [])
  /\ (hintsOf responses = [] -> ttl = shortFixedTtl)
  /\ (forall h, In h (hintsOf responses) -> 1000 * h <= ttl).
Proof.
  intros Hall Hmiss entities ttl.
  pose proof (fetchTripUpdates_ttl rt fetch responses Hall) as Hf.
  assert (Hbound : forall h, In h (hintsOf responses) -> 1000 * h <= ttl
                   /\ 0 <= ttl).
  { subst ttl. unfold leastRestrictiveTtl.
    generalize (hintsOf responses) as hs. intros hs h Hin.
    assert (Hin' : 0 <= h -> In h (List.filter (fun h => 0 <=? h) hs)).
    { intros H0. apply filter_In. split; [exact Hin|]. apply Z.leb_le. exact H0. }
    assert (Hpos : forall x, In x (List.filter (fun h => 0 <=? h) hs) -> 0 <= x).
    { intros x Hx. apply filter_In in Hx. destruct Hx as [_ Hx].
      apply Z.leb_le. exact Hx. }
    destruct (List.filter (fun h => 0 <=? h) hs) as [|x xs] eqn:Hfil.
    - unfold shortFixedTtl. split; [|lia].
      destruct (Z.le_gt_cases 0 h) as [H0|H0]; [destruct (Hin' H0)|lia].
    - pose proof (fold_max_ge xs x) as Hge.
      pose proof (Hpos x (or_introl eq_refl)) as Hx.
      split; [|lia].
      destruct (Z.le_gt_cases 0 h) as [H0|H0]; [|lia].
      pose proof (fold_max_upper xs x h) as Hle.
      specialize (Hle (Hin' H0)). lia. }
  assert (H0 : 0 <= ttl).
  { subst ttl. unfold leastRestrictiveTtl.
    destruct (List.filter (fun h => 0 <=? h) (hintsOf responses)) as [|x xs] eqn:Hfil.
    - unfold shortFixedTtl. lia.
    - assert (Hx : In x (List.filter (fun h => 0 <=? h) (hintsOf responses)))
        by (rewrite Hfil; left; reflexivity).
      apply filter_In in Hx. destruct Hx as [_ Hx]. apply Z.leb_le in Hx.
      pose proof (fold_max_ge xs x). lia. }
  split; [exact Hf|]. split; [exact H0|]. split; [|split].
  - unfold cached. rewrite Hmiss, Hf. cbn [bindR].
    fold entities. fold ttl. destruct (ttl >? 0); reflexivity.
  - intros Hnone. subst ttl. unfold leastRestrictiveTtl. rewrite Hnone. reflexivity.
  - intros h Hin. apply (Hbound h Hin).
Qed.

Lemma ttl_least_restrictive_witness :
  promiseAll twoAnswers (fetchConfigsOf twoEndpoints) = Ok [maxAge60; noCache]
  /\ fetchTripUpdates twoEndpoints twoAnswers
     = Ok (WithTtl [] (leastRestrictiveTtl [maxAge60; noCache])).
Proof.
  split; [reflexivity|].
  exact (proj1 (ttl_least_restrictive "feed" twoEndpoints twoAnswers emptyCache
                  [maxAge60; noCache] eq_refl eq_refl)).
Defined.

(** ** The three-day scan *)

Lemma resolveTripTimes_refs trip stu n :
  let r := fst (resolveTripTimes trip stu n) in
  (n <= date_ref (arrivalTime r) < 4 + n)%nat
  /\ (n <= date_ref (departureTime r) < 4 + n)%nat.
Proof. split_resolve; cbn; lia. Qed.

(** The callback, as one conditional on the result of the time
    resolution. *)
Lemma processTrip_unfold now tripUpdates tripStops trip n :
  let tripUpdate := findTripUpdate tripUpdates trip in
  let stopTimeUpdate := findStopTimeUpdate tripUpdate trip in
  let r := fst (resolveTripTimes trip stopTimeUpdate n) in
  processTrip now tripUpdates tripStops trip n =
  (if numLt (departureMs r) (Some now)
      || canceledOrSkipped now trip tripUpdate stopTimeUpdate r
      || isDuplicate tripStops trip r
   then tripStops
   else app tripStops [toTripStop trip r],
   (4 + n)%nat).
Proof.
  cbv zeta. unfold processTrip, bindA.
  pose proof (resolveTripTimes_counter trip
                (findStopTimeUpdate (findTripUpdate tripUpdates trip) trip) n) as Hc.
  destruct (resolveTripTimes trip
              (findStopTimeUpdate (findTripUpdate tripUpdates trip) trip) n)
    as [r n'] eqn:Hr.
  cbn [fst snd] in *. subst n'. unfold departureMs, ret.
  destruct (numLt (getTime (departureTime r)) (Some now)); [reflexivity|].
  destruct (canceledOrSkipped now trip _ _ r); [reflexivity|].
  destruct (isDuplicate tripStops trip r); reflexivity.
Qed.

(** The duplicate test compares the dates of the stored entries with two
    dates that were allocated after them: it never succeeds. *)
Lemma isDuplicate_fresh tripStops trip stu n :
  allocatedBelow n tripStops ->
  isDuplicate tripStops trip (fst (resolveTripTimes trip stu n)) = false.
Proof.
  intros Hall. unfold isDuplicate.
  pose proof (resolveTripTimes_refs trip stu n) as [Ha _]. cbv zeta in Ha.
  induction Hall as [|ts rest [Hts _] _ IH]; [reflexivity|].
  cbn [existsb]. rewrite IH, orb_false_r.
  unfold sameObject.
  replace (date_ref (ts_arrivalTime ts)
           =? date_ref (arrivalTime (fst (resolveTripTimes trip stu n))))%nat
    with false by (symmetry; apply Nat.eqb_neq; lia).
  rewrite andb_false_r. reflexivity.
Qed.

Lemma allocatedBelow_mono n m tripStops :
  (n <= m)%nat -> allocatedBelow n tripStops -> allocatedBelow m tripStops.
Proof.
  intros Hle Hall. unfold allocatedBelow in *.
  induction Hall as [|ts rest [Ha Hd] _ IH]; constructor; [lia | exact IH].
Qed.

Lemma processTrip_allocated now tripUpdates tripStops trip n :
  allocatedBelow n tripStops ->
  allocatedBelow (snd (processTrip now tripUpdates tripStops trip n))
                 (fst (processTrip now tripUpdates tripStops trip n)).
Proof.
  intros Hall. rewrite processTrip_unfold. cbn [fst snd].
  pose proof (resolveTripTimes_refs trip
    (findStopTimeUpdate (findTripUpdate tripUpdates trip) trip) n) as [Ha Hd].
  cbv zeta in Ha, Hd.
  match goal with
  | |- context [if ?c then _ else _] => destruct c
  end.
  - apply (allocatedBelow_mono n); [lia | exact Hall].
  - apply Forall_app. split.
    + apply (allocatedBelow_mono n); [lia | exact Hall].
    + constructor; [|constructor].
      unfold toTripStop. cbn [ts_arrivalTime ts_departureTime]. lia.
Qed.

Lemma forEachTrip_allocated now tripUpdates trips tripStops n :
  allocatedBelow n tripStops ->
  allocatedBelow (snd (forEachTrip now tripUpdates trips tripStops n))
                 (fst (forEachTrip now tripUpdates trips tripStops n)).
Proof.
  revert tripStops n. induction trips as [|trip rest IH]; intros tripStops n Hall.
  - exact Hall.
  - cbn [forEachTrip]. unfold bindA.
    pose proof (processTrip_allocated now tripUpdates tripStops trip n Hall) as Hp.
    destruct (processTrip now tripUpdates tripStops trip n) as [ts' n'].
    apply IH. exact Hp.
Qed.

(** C2, at a failing input.  The same route-stop pair asked twice: the
    static schedule is read twice, the occurrence of 14:00 is resolved
    twice into dates of equal value, the duplicate test compares the date
    objects and does not recognise them, and the scan returns two entries
    for the same visit.  The same happens for a single pair when two day
    offsets of the scan surface the same occurrence. *)
Theorem scan_keeps_duplicate_visit :
  (exists a b n,
     getUpcomingTripsForRoutesAtStops unreachableWorld "testfeed" staticOnlyConfig
       [stbaAtStagecoach; stbaAtStagecoach] testNow 0%nat
     = Ok ([a; b], n)
     /\ sameVisit a b)
  /\ (exists a b n,
        getUpcomingTripsForRoutesAtStops overlappingDaysWorld "testfeed"
          staticOnlyConfig [stbaAtStagecoach] testNow 0%nat
        = Ok ([a; b], n)
        /\ sameVisit a b).
Proof.
  split; (eexists _, _, _; split; [vm_compute; reflexivity|]);
    (split; [reflexivity|]); split; eexists; split; reflexivity.
Qed.

(** During a scan the duplicate test is only ever applied to dates that
    were just allocated: started from an empty array, every call of the
    callback finds all stored dates older than the counter. *)
Lemma scan_never_deduplicates now tripUpdates trips :
  forall n,
    allocatedBelow (snd (forEachTrip now tripUpdates trips [] n))
                   (fst (forEachTrip now tripUpdates trips [] n)).
Proof. intros n. apply forEachTrip_allocated. constructor. Qed.

(** ** Cancelled trips and skipped stops *)

Lemma isCanceled_iff tu :
  isCanceled (Some tu) = true
  <-> TripDescriptor.scheduleRelationship (GtfsRt.trip tu) = Some TripDescriptor.CANCELED.
Proof.
  unfold isCanceled.
  destruct (TripDescriptor.scheduleRelationship (GtfsRt.trip tu)) as [[]|];
    split; intros H; try reflexivity; discriminate.
Qed.

Lemma isSkipped_iff stu :
  isSkipped stu = true
  <-> exists u, stu = Some u
      /\ StopTimeUpdate.scheduleRelationship u = Some StopTimeUpdate.SKIPPED.
Proof.
  unfold isSkipped. destruct stu as [u|].
  - destruct (StopTimeUpdate.scheduleRelationship u) as [[]|] eqn:Hrel; split;
      try discriminate; try (intros _; eauto; fail);
      try (intros [u' [Hu Hs]]; injection Hu as <-; congruence).
  - split; [discriminate | intros [u [Hu _]]; discriminate].
Qed.

Lemma tripIsFeasiblyActive_iff now r :
  tripIsFeasiblyActive now r = true
  <-> exists a d,
        arrivalMs r = Some a /\ departureMs r = Some d
        /\ Z.min (Z.abs (a - now)) (Z.abs (d - now)) < fourHours.
Proof.
  unfold tripIsFeasiblyActive, arrivalMs, departureMs.
  destruct (getTime (arrivalTime r)) as [a|], (getTime (departureTime r)) as [d|];
    cbn [numLt numMin numAbs numSub].
  - rewrite Z.ltb_lt. split.
    + intros H. exists a, d. repeat split; exact H.
    + intros (a' & d' & [= <-] & [= <-] & H). exact H.
  - split; [discriminate | intros (a' & d' & _ & Hd & _); discriminate].
  - split; [discriminate | intros (a' & d' & Ha & _ & _); discriminate].
  - split; [discriminate | intros (a' & d' & Ha & _ & _); discriminate].
Qed.

Lemma sameStartDate_iff tu trip :
  sameStartDate (Some tu) trip = true
  <-> TripDescriptor.startDate (GtfsRt.trip tu) = Some (start_date trip).
Proof.
  unfold sameStartDate.
  destruct (TripDescriptor.startDate (GtfsRt.trip tu)) as [d|].
  - rewrite String.eqb_eq. split; congruence.
  - split; discriminate.
Qed.

(** C4.  For an occurrence matched by a trip update that is CANCELED, or
    whose matched stop update is SKIPPED: the cancellation block drops the
    occurrence exactly when the occurrence is feasibly active (its
    resolved arrival and departure are valid dates and
    min(|arrival - now|, |departure - now|) < 4 hours), or the update
    carries a start date equal to the service date of the occurrence; a
    cancellation without a start date drops nothing outside the four-hour
    window.  Dropped means that the callback leaves [tripStops] as it was;
    an occurrence that the block does not drop, and whose departure is
    not before now, is pushed. *)
Theorem cancellation_gate now tripUpdates tripStops trip tu n :
  findTripUpdate tripUpdates trip = Some tu ->
  let stu := findStopTimeUpdate (Some tu) trip in
  let r := fst (resolveTripTimes trip stu n) in
  TripDescriptor.scheduleRelationship (GtfsRt.trip tu) = Some TripDescriptor.CANCELED
  \/ (exists u, stu = Some u
       /\ StopTimeUpdate.scheduleRelationship u = Some StopTimeUpdate.SKIPPED) ->
  let feasiblyActive :=
    exists a d,
      arrivalMs r = Some a /\ departureMs r = Some d
      /\ Z.min (Z.abs (a - now)) (Z.abs (d - now)) < fourHours in
  let sameDate :=
    TripDescriptor.startDate (GtfsRt.trip tu) = Some (start_date trip) in
  (canceledOrSkipped now trip (Some tu) stu r = true <-> feasiblyActive \/ sameDate)
  /\ (TripDescriptor.startDate (GtfsRt.trip tu) = None -> ~ feasiblyActive ->
      canceledOrSkipped now trip (Some tu) stu r = false)
  /\ (feasiblyActive \/ sameDate ->
      fst (processTrip now tripUpdates tripStops trip n) = tripStops)
  /\ (~ (feasiblyActive \/ sameDate) ->
      (forall d, departureMs r = Some d -> now <= d) ->
      allocatedBelow n tripStops ->
      fst (processTrip now tripUpdates tripStops trip n)
      = app tripStops [toTripStop trip r]).
Proof.
  intros Hfind stu r Hstatus feasiblyActive sameDate.
  assert (Hgate : canceledOrSkipped now trip (Some tu) stu r = true
                  <-> feasiblyActive \/ sameDate).
  { unfold canceledOrSkipped.
    assert (Hcs : isCanceled (Some tu) = true \/ isSkipped stu = true).
    { destruct Hstatus as [Hc|Hs];
        [left; apply isCanceled_iff; exact Hc | right; apply isSkipped_iff; exact Hs]. }
    subst feasiblyActive sameDate.
    rewrite <- tripIsFeasiblyActive_iff, <- sameStartDate_iff.
    destruct Hcs as [Hc|Hs]; rewrite ?Hc, ?Hs;
      destruct (tripIsFeasiblyActive now r), (sameStartDate (Some tu) trip),
        (isCanceled (Some tu)); cbn; intuition congruence. }
  split; [exact Hgate|]. split; [|split].
  - intros Hnone Hna.
    destruct (canceledOrSkipped now trip (Some tu) stu r) eqn:Hc; [|reflexivity].
    destruct (proj1 Hgate eq_refl) as [H|H]; [contradiction|].
    subst sameDate. congruence.
  - intros Hg. rewrite processTrip_unfold. cbn [fst]. rewrite Hfind.
    fold stu. fold r. rewrite (proj2 Hgate Hg), orb_true_r. reflexivity.
  - intros Hng Hdep Hall. rewrite processTrip_unfold. cbn [fst]. rewrite Hfind.
    fold stu. fold r.
    replace (numLt (departureMs r) (Some now)) with false
      by (destruct (departureMs r) as [d|]; [|reflexivity]; cbn [numLt];
          symmetry; apply Z.ltb_ge; apply Hdep; reflexivity).
    destruct (canceledOrSkipped now trip (Some tu) stu r) eqn:Hc;
      [destruct Hng; apply Hgate; reflexivity|].
    subst r. rewrite (isDuplicate_fresh tripStops trip stu n Hall). reflexivity.
Qed.

Lemma cancellation_gate_witness :
  findTripUpdate {[ "STBA" := canceledStba ]} stbaTrip = Some canceledStba
  /\ fst (processTrip testNow {[ "STBA" := canceledStba ]} [] stbaTrip 0%nat) = []
  /\ fst (processTrip testNow {[ "STBA" := canceledStba ]} [] stbaTripNextDay 0%nat)
     = [toTripStop stbaTripNextDay
          (fst (resolveTripTimes stbaTripNextDay None 0%nat))].
Proof.
  assert (H1 : findTripUpdate {[ "STBA" := canceledStba ]} stbaTrip = Some canceledStba)
    by (vm_compute; reflexivity).
  assert (H2 : findTripUpdate {[ "STBA" := canceledStba ]} stbaTripNextDay
               = Some canceledStba)
    by (vm_compute; reflexivity).
  split; [exact H1|]. split.
  - refine (proj1 (proj2 (proj2
      (cancellation_gate testNow {[ "STBA" := canceledStba ]} [] stbaTrip
         canceledStba 0%nat H1 (or_introl eq_refl)))) _).
    left. exists 1199455200000, 1199455200000.
    split; [reflexivity|]. split; [reflexivity|]. reflexivity.
  - refine (proj2 (proj2 (proj2
      (cancellation_gate testNow {[ "STBA" := canceledStba ]} [] stbaTripNextDay
         canceledStba 0%nat H2 (or_introl eq_refl)))) _ _ _).
    + intros [(a & d & Ha & Hd & Hlt)|H].
      * injection Ha as <-. injection Hd as <-. revert Hlt. vm_compute. discriminate.
      * discriminate.
    + intros d Hd. injection Hd as <-. vm_compute. discriminate.
    + constructor.
Defined.

(** ** Failure of the real-time fetch *)


Lemma mapR_In {E A B} (f : A -> Result E B) xs ys x y :
  mapR f xs = Ok ys -> In x xs -> f x = Ok y -> In y ys.
Proof.
  revert ys. induction xs as [|a rest IH]; intros ys Hm Hin Hx; [destruct Hin|].
  cbn [mapR] in Hm.
  destruct (f a) as [b|e] eqn:Ha; cbn [bindR] in Hm; [|discriminate].
  destruct (mapR f rest) as [bs|e] eqn:Hrest; cbn [bindR] in Hm; [|discriminate].
  injection Hm as <-.
  destruct Hin as [->|Hin].
  - rewrite Hx in Ha. injection Ha as ->. left. reflexivity.
  - right. apply (IH bs eq_refl Hin Hx).
Qed.

Lemma mapR_throws {E A B} (f : A -> Result E B) xs x :
  In x xs -> isOk (f x) = false -> isOk (mapR f xs) = false.
Proof.
  induction xs as [|y rest IH]; intros Hin Hx; [destruct Hin|].
  cbn [mapR]. destruct Hin as [->|Hin].
  - destruct (f x); [discriminate | reflexivity].
  - destruct (f y); [|reflexivity]. cbn [bindR].
    specialize (IH Hin Hx). destruct (mapR f rest); [discriminate | reflexivity].
Qed.


















Section ScanFold.
Context {E : Type} (w : World E) (feedCode : string) (routes : list RouteAtStop)
  (now : Z).

Let step (config : GtfsConfig) :=
  fun (acc : Result E (list TripStop * nat)) (scheduleDate : Z) =>
    bindR acc (fun '(tripStops, n') =>
      scanDay w feedCode config routes now scheduleDate tripStops n').

Lemma scan_fold_throw config dates e :
  fold_left (step config) dates (Throw e) = Throw e.
Proof. induction dates as [|d rest IH]; [reflexivity | exact IH]. Qed.






End ScanFold.




(** ** Parsing of the route-stop pairs *)

Lemma checkPair_error pair e :
  Schedule.checkPair pair = Throw e -> exists msg, e = BadRequestException msg.
Proof.
  unfold Schedule.checkPair.
  destruct (truthyString (Schedule.raw_routeId pair)),
           (truthyString (Schedule.raw_stopId pair)),
           (isNaN (Schedule.raw_offset pair));
    intros H; try discriminate; injection H as <-; eexists; reflexivity.
Qed.

Lemma mapR_error {E A B} (f : A -> Result E B) (P : E -> Prop) xs e :
  (forall x e', f x = Throw e' -> P e') -> mapR f xs = Throw e -> P e.
Proof.
  intros Hf. induction xs as [|x rest IH]; cbn [mapR]; [discriminate|].
  destruct (f x) as [y|e'] eqn:Hx; cbn [bindR].
  - destruct (mapR f rest) as [ys|e'']; cbn [bindR]; [discriminate|].
    intros H. injection H as <-. apply IH. reflexivity.
  - intros H. injection H as <-. apply (Hf x). exact Hx.
Qed.

(** Every rejection is a client-side request error. *)
Lemma parseRouteStopPairs_error raw e :
  Schedule.parseRouteStopPairs raw = Throw e -> exists msg, e = BadRequestException msg.
Proof.
  unfold Schedule.parseRouteStopPairs.
  apply (mapR_error Schedule.checkPair (fun e => exists msg, e = BadRequestException msg)).
  intros x e'. apply checkPair_error.
Qed.

(** Every accepted pair has a route and a stop that are not empty. *)
Lemma checkPair_ok pair r :
  Schedule.checkPair pair = Ok r ->
  Schedule.r_routeId r <> "" /\ Schedule.r_stopId r <> "".
Proof.
  unfold Schedule.checkPair, truthyString.
  destruct (Schedule.raw_routeId pair) as [[|c1 s1]|]; cbn; try discriminate;
    destruct (Schedule.raw_stopId pair) as [[|c2 s2]|]; cbn; try discriminate;
    destruct (isNaN (Schedule.raw_offset pair)); try discriminate.
  intros H. injection H as <-. cbn. split; discriminate.
Qed.

Lemma parseRouteStopPairs_ok raw pairs :
  Schedule.parseRouteStopPairs raw = Ok pairs ->
  Forall (fun r => Schedule.r_routeId r <> "" /\ Schedule.r_stopId r <> "") pairs.
Proof.
  unfold Schedule.parseRouteStopPairs.
  generalize (map Schedule.toRawPair
                (map (fun pair => map trim (split "," pair)) (split ";" raw))).
  intros raws. revert pairs. induction raws as [|p rest IH]; intros pairs; cbn [mapR].
  - intros H. injection H as <-. constructor.
  - destruct (Schedule.checkPair p) as [r|e] eqn:Hp; cbn [bindR]; [|discriminate].
    destruct (mapR Schedule.checkPair rest) as [rs|e]; cbn [bindR]; [|discriminate].
    intros H. injection H as <-.
    constructor; [apply (checkPair_ok p); exact Hp | apply IH; reflexivity].
Qed.

(** A tuple with no offset gets the offset 0. *)
Example parseRouteStopPairs_default_offset :
  Schedule.parseRouteStopPairs "AAMV,BEATTY_AIRPORT; STBA , STAGECOACH,-30"
  = Ok [ {| Schedule.r_routeId := "AAMV"; Schedule.r_stopId := "BEATTY_AIRPORT";
            Schedule.offset := Finite 0 |};
         {| Schedule.r_routeId := "STBA"; Schedule.r_stopId := "STAGECOACH";
            Schedule.offset := Finite (-30) |} ].
Proof. reflexivity. Qed.

Example parseRouteStopPairs_missing_stop :
  Schedule.parseRouteStopPairs "AAMV,BEATTY_AIRPORT;STBA"
  = Throw (BadRequestException
      "Invalid route-stop pair; must be in the format routeId,stopId[,offset]").
Proof. reflexivity. Qed.

Example parseRouteStopPairs_no_digit :
  Schedule.parseRouteStopPairs "STBA,STAGECOACH,soon"
  = Throw (BadRequestException "Invalid offset; must be a number").
Proof. reflexivity. Qed.

(** C9, at a failing input.  The offset component ["5x"] is not a number;
    [parseInt] reads its leading digit and ignores the rest, the [isNaN]
    test passes, and the tuple is accepted with the offset 5 instead of
    being rejected.  In the same way ["7 days"] is accepted as 7. *)
Theorem parseRouteStopPairs_accepts_non_numeric_offset :
  Schedule.parseRouteStopPairs "STBA,STAGECOACH,5x"
  = Ok [ {| Schedule.r_routeId := "STBA"; Schedule.r_stopId := "STAGECOACH";
            Schedule.offset := Finite 5 |} ]
  /\ Schedule.parseRouteStopPairs "STBA,STAGECOACH,7 days"
     = Ok [ {| Schedule.r_routeId := "STBA"; Schedule.r_stopId := "STAGECOACH";
               Schedule.offset := Finite 7 |} ].
Proof. repeat split; reflexivity. Qed.

(** ** A failing pass of a subscription *)

(** C10.  When the aggregation of a pass throws, the observer is given
    the error first and the body of the pass goes on.  If
    [currentSchedule] holds [null] or a snapshot, it is overwritten with
    [undefined] and a further [next(undefined)] is attempted: the
    remembered snapshot is lost.  (If it already holds [undefined], the
    comparison finds no change and nothing more happens.) *)
Theorem failing_pass_not_atomic stringify provider now subscription current e :
  Schedule.getUpcomingTrips provider now subscription = Throw e ->
  fst (Schedule.updateSchedule stringify provider now subscription current)
  = Schedule.CUndefined
  /\ (current <> Schedule.CUndefined ->
      snd (Schedule.updateSchedule stringify provider now subscription current)
      = [Schedule.OError e; Schedule.ONext None])
  /\ (current = Schedule.CUndefined ->
      snd (Schedule.updateSchedule stringify provider now subscription current)
      = [Schedule.OError e]).
Proof.
  intros Hthrow. unfold Schedule.updateSchedule. rewrite Hthrow.
  destruct current as [| |s]; cbn; repeat split; congruence.
Qed.

Lemma failing_pass_not_atomic_witness :
  Schedule.updateSchedule (fun _ => "{}") failingProvider testNow stbaSubscription
    (Schedule.CSchedule emptySnapshot)
  = (Schedule.CUndefined,
     [Schedule.OError (Error "timetable store unreachable"); Schedule.ONext None]).
Proof.
  pose proof (failing_pass_not_atomic (fun _ => "{}") failingProvider testNow
                stbaSubscription (Schedule.CSchedule emptySnapshot)
                (Error "timetable store unreachable") eq_refl) as (H1 & H2 & _).
  specialize (H2 ltac:(discriminate)).
  destruct (Schedule.updateSchedule (λ _, "{}") failingProvider testNow
              stbaSubscription (Schedule.CSchedule emptySnapshot)) as [c calls].
  cbn [fst snd] in *. subst. reflexivity.
Defined.

(** ** The aggregation *)

(** *** Keeping the first trip of every pair *)

Lemma not_in_difference_self (k : string) (pairs : gset string) :
  k ∈ pairs ∖ {[k]} -> False.
Proof.
  intros H. apply elem_of_difference in H. destruct H as [_ H].
  apply H. apply elem_of_singleton. reflexivity.
Qed.

Lemma filterFirstSeen_In pairs l t :
  In t (Schedule.filterFirstSeen pairs l) -> In t l /\ Schedule.pairKey t ∈ pairs.
Proof.
  revert pairs. induction l as [|a rest IH]; intros pairs;
    cbn [Schedule.filterFirstSeen].
  - intros [].
  - case_bool_decide as Hin.
    + intros [<-|Ht]; [split; [left; reflexivity | exact Hin]|].
      destruct (IH _ Ht) as [H1 H2]. split; [right; exact H1|].
      apply elem_of_difference in H2. exact (proj1 H2).
    + intros Ht. destruct (IH _ Ht) as [H1 H2]. split; [right; exact H1 | exact H2].
Qed.

Lemma filterFirstSeen_NoDup pairs l :
  NoDup (map Schedule.pairKey (Schedule.filterFirstSeen pairs l)).
Proof.
  revert pairs. induction l as [|a rest IH]; intros pairs;
    cbn [Schedule.filterFirstSeen].
  - constructor.
  - case_bool_decide as Hin; [|apply IH].
    cbn [map]. apply NoDup_cons_2; [|apply IH].
    intros Hk. apply list_elem_of_In, in_map_iff in Hk. destruct Hk as [t [Hkey Ht]].
    apply filterFirstSeen_In in Ht. destruct Ht as [_ Ht].
    rewrite Hkey in Ht. exact (not_in_difference_self _ _ Ht).
Qed.

Section Aggregation.
Import Schedule.
Local Open Scope Q_scope.

Variable key : ScheduleTrip -> option Q.

Let cmp := fun a b : ScheduleTrip => compareKeys (key a) (key b).
Let le := fun a b : ScheduleTrip => keyLe (key a) (key b).
Let keyed := fun t : ScheduleTrip => key t <> None.

Lemma Qgtb_true a b : Qgtb a b = true <-> b < a.
Proof.
  unfold Qgtb. rewrite negb_true_iff. split.
  - intros H. apply Qnot_le_lt. intros Hle. apply Qle_bool_iff in Hle. congruence.
  - intros H. destruct (Qle_bool a b) eqn:Hb; [|reflexivity].
    apply Qle_bool_iff in Hb. lra.
Qed.

Lemma Qgtb_false a b : Qgtb a b = false <-> a <= b.
Proof.
  unfold Qgtb. rewrite negb_false_iff. apply Qle_bool_iff.
Qed.

Lemma after_true now k : after now k = true <-> keyLt (Some now) k.
Proof.
  unfold after, keyLt. destruct k as [x|]; [apply Qgtb_true|].
  split; [discriminate | intros []].
Qed.

Lemma insertBy_In x a l : In x (insertBy cmp a l) <-> x = a \/ In x l.
Proof.
  induction l as [|y rest IH]; cbn [insertBy].
  - cbn. intuition.
  - destruct (Qgtb (cmp a y) 0); cbn [In]; [rewrite IH|]; intuition.
Qed.

Lemma sortWith_In x l : In x (sortWith cmp l) <-> In x l.
Proof.
  induction l as [|a rest IH]; [reflexivity|].
  cbn [sortWith fold_right]. fold (sortWith cmp rest).
  rewrite insertBy_In, IH. cbn. intuition.
Qed.

Lemma insertBy_sorted a l :
  keyed a -> Forall keyed l ->
  StronglySorted le l -> StronglySorted le (insertBy cmp a l).
Proof.
  intros Ka Kl Hs. induction l as [|y rest IH]; cbn [insertBy].
  - constructor; constructor.
  - apply StronglySorted_inv in Hs. destruct Hs as [Hrest Hy].
    inversion Kl as [|? ? Ky Krest]; subst.
    unfold keyed in Ka, Ky.
    destruct (key a) as [ka|] eqn:Hka; [|congruence].
    destruct (key y) as [ky|] eqn:Hky; [|congruence].
    destruct (Qgtb (cmp a y) 0) eqn:Hc; unfold cmp in Hc;
      rewrite Hka, Hky in Hc; cbn [compareKeys] in Hc.
    + apply Qgtb_true in Hc.
      constructor; [apply IH; assumption|].
      apply List.Forall_forall. intros x Hx. apply insertBy_In in Hx.
      destruct Hx as [->|Hx].
      * unfold le, keyLe. rewrite Hky, Hka. lra.
      * rewrite List.Forall_forall in Hy. apply Hy. exact Hx.
    + apply Qgtb_false in Hc.
      constructor; [constructor; assumption|].
      constructor; [unfold le, keyLe; rewrite Hka, Hky; lra|].
      rewrite List.Forall_forall in Hy |- *. intros x Hx.
      specialize (Hy x Hx). unfold le, keyLe in *. rewrite Hky in Hy.
      rewrite Hka. destruct (key x) as [kx|]; [lra | exact Hy].
Qed.

Lemma sortWith_sorted l : Forall keyed l -> StronglySorted le (sortWith cmp l).
Proof.
  induction l as [|a rest IH]; intros Kl; [constructor|].
  inversion Kl as [|? ? Ka Krest]; subst.
  cbn [sortWith fold_right]. fold (sortWith cmp rest).
  apply insertBy_sorted; [exact Ka | | apply IH; exact Krest].
  apply List.Forall_forall. intros x Hx.
  apply (proj1 (sortWith_In x rest)) in Hx.
  rewrite List.Forall_forall in Krest. apply Krest. exact Hx.
Qed.

Lemma filterFirstSeen_sorted pairs l :
  StronglySorted le l -> StronglySorted le (filterFirstSeen pairs l).
Proof.
  revert pairs. induction l as [|a rest IH]; intros pairs Hs; cbn [filterFirstSeen].
  - constructor.
  - apply StronglySorted_inv in Hs. destruct Hs as [Hrest Ha].
    case_bool_decide as Hin; [|apply IH; exact Hrest].
    constructor; [apply IH; exact Hrest|].
    rewrite List.Forall_forall in Ha |- *. intros x Hx.
    apply Ha. apply filterFirstSeen_In in Hx. tauto.
Qed.

(** A kept trip is no later than any trip of the list with its pair key. *)
Lemma filterFirstSeen_earliest pairs l t u :
  Forall keyed l -> StronglySorted le l ->
  In t (filterFirstSeen pairs l) -> In u l -> pairKey u = pairKey t ->
  le t u.
Proof.
  revert pairs. induction l as [|a rest IH]; intros pairs Kl Hs;
    cbn [filterFirstSeen].
  - intros [].
  - apply StronglySorted_inv in Hs. destruct Hs as [Hrest Ha].
    inversion Kl as [|? ? Ka Krest]; subst.
    rewrite List.Forall_forall in Ha.
    assert (Hrefl : le a a).
    { unfold le, keyLe. unfold keyed in Ka.
      destruct (key a); [lra | congruence]. }
    case_bool_decide as Hin.
    + intros [<-|Ht] Hu Hkey.
      * destruct Hu as [<-|Hu]; [exact Hrefl | apply (Ha u Hu)].
      * destruct Hu as [<-|Hu]; [|apply (IH _ Krest Hrest Ht Hu Hkey)].
        apply filterFirstSeen_In in Ht. destruct Ht as [_ Ht].
        rewrite <- Hkey in Ht. destruct (not_in_difference_self _ _ Ht).
    + intros Ht Hu Hkey.
      destruct Hu as [<-|Hu]; [|apply (IH _ Krest Hrest Ht Hu Hkey)].
      apply filterFirstSeen_In in Ht. destruct Ht as [_ Ht].
      rewrite <- Hkey in Ht. contradiction.
Qed.

End Aggregation.

Lemma firstn_In {A} k (l : list A) x : In x (firstn k l) -> In x l.
Proof.
  revert k. induction l as [|a rest IH]; intros k Hx.
  - rewrite firstn_nil in Hx. destruct Hx.
  - destruct k as [|k]; [destruct Hx|]. cbn [firstn] in Hx.
    destruct Hx as [->|Hx]; [left; reflexivity | right; apply (IH k); exact Hx].
Qed.

Lemma StronglySorted_firstn {A} (R : A -> A -> Prop) k l :
  StronglySorted R l -> StronglySorted R (firstn k l).
Proof.
  revert k. induction l as [|a rest IH]; intros k Hs.
  - rewrite firstn_nil. constructor.
  - destruct k as [|k]; [constructor|]. cbn [firstn].
    apply StronglySorted_inv in Hs. destruct Hs as [Hrest Ha].
    constructor; [apply IH; exact Hrest|].
    rewrite List.Forall_forall in Ha |- *. intros x Hx.
    apply Ha. apply (firstn_In k). exact Hx.
Qed.

Lemma NoDup_map_firstn {A B} (f : A -> B) k l :
  NoDup (map f l) -> NoDup (map f (firstn k l)).
Proof.
  revert k. induction l as [|a rest IH]; intros k Hn.
  - rewrite firstn_nil. constructor.
  - destruct k as [|k]; [constructor|]. cbn [firstn map] in *.
    apply NoDup_cons in Hn. destruct Hn as [Ha Hrest].
    apply NoDup_cons_2; [|apply IH; exact Hrest].
    intros Hin. apply Ha.
    apply list_elem_of_In in Hin. apply list_elem_of_In.
    apply in_map_iff in Hin. destruct Hin as [x [Hx Hxin]].
    apply in_map_iff. exists x. split; [exact Hx | apply (firstn_In k); exact Hxin].
Qed.

Lemma NoDup_map_factor {A B C} (f : A -> B) (g : A -> C) l :
  (forall x y, f x = f y -> g x = g y) -> NoDup (map g l) -> NoDup (map f l).
Proof.
  intros Hfg. induction l as [|a rest IH]; intros Hn; cbn [map] in *.
  - constructor.
  - apply NoDup_cons in Hn. destruct Hn as [Ha Hrest].
    apply NoDup_cons_2; [|apply IH; exact Hrest].
    intros Hin. apply Ha.
    apply list_elem_of_In in Hin. apply list_elem_of_In.
    apply in_map_iff in Hin. destruct Hin as [x [Hx Hxin]].
    apply in_map_iff. exists x. split; [apply Hfg; exact Hx | exact Hxin].
Qed.

Lemma sliceTo_firstn {A} limit (xs : list A) :
  exists k, Schedule.sliceTo limit xs = firstn k xs.
Proof. unfold Schedule.sliceTo. destruct (limit <? 0); eexists; reflexivity. Qed.

Lemma sliceTo_length {A} limit (xs : list A) :
  0 <= limit -> Z.of_nat (length (Schedule.sliceTo limit xs)) <= limit.
Proof.
  intros Hl. unfold Schedule.sliceTo.
  destruct (Z.ltb_spec limit 0); [lia|].
  pose proof (firstn_le_length (Z.to_nat limit) xs). lia.
Qed.

(** C7.  For every result of the aggregation: the trips are sorted
    ascending by the sort key ([departureTime] when [sortByDeparture],
    else [arrivalTime]); the sort key of every trip is a number strictly
    after now; there are at most [limit] trips (for a [limit] that is not
    negative); and in the mode [nextPerRoute] no two trips have the same
    (routeId, stopId), and every trip is the earliest, by the sort key, of
    the upcoming trips of its (routeId, stopId). *)
Theorem getUpcomingTrips_result provider now options upcoming res :
  provider (map Schedule.toRouteAtStop (Schedule.routes options)) = Ok upcoming ->
  Schedule.getUpcomingTrips provider now options = Ok res ->
  let key := Schedule.sortKeyOf (Schedule.sortByDeparture options) in
  StronglySorted (fun a b => keyLe (key a) (key b)) (Schedule.trips res)
  /\ Forall (fun t => keyLt (Some (Schedule.seconds now)) (key t))
       (Schedule.trips res)
  /\ (0 <= Schedule.limit options ->
      Z.of_nat (length (Schedule.trips res)) <= Schedule.limit options)
  /\ (Schedule.listMode options = Some Schedule.nextPerRoute ->
      NoDup (map (fun t => (Schedule.routeId t, Schedule.stopId t))
               (Schedule.trips res))
      /\ forall t, In t (Schedule.trips res) ->
         forall raw u,
           In raw upcoming ->
           Schedule.applyOffset (Schedule.routes options) raw = Ok u ->
           keyLt (Some (Schedule.seconds now)) (key u) ->
           Schedule.routeId u = Schedule.routeId t ->
           Schedule.stopId u = Schedule.stopId t ->
           keyLe (key t) (key u)).
Proof.
  intros Hprov Hres key.
  unfold Schedule.getUpcomingTrips in Hres. rewrite Hprov in Hres.
  cbn [bindR] in Hres.
  destruct (mapR (Schedule.applyOffset (Schedule.routes options)) upcoming)
    as [mapped|e] eqn:Hmap; [|discriminate].
  cbn [bindR] in Hres. injection Hres as <-. cbn [Schedule.trips].
  fold key.
  set (cands := List.filter
                  (fun trip => Schedule.after (Schedule.seconds now) (key trip))
                  mapped).
  set (trips0 := Schedule.sortWith
                   (fun a b => Schedule.compareKeys (key a) (key b)) cands).
  assert (F0 : forall t, In t cands ->
                 In t mapped /\ keyLt (Some (Schedule.seconds now)) (key t)).
  { intros t Ht. apply filter_In in Ht. destruct Ht as [Hm Hk].
    split; [exact Hm | apply after_true; exact Hk]. }
  assert (K0 : Forall (fun t => key t <> None) cands).
  { apply List.Forall_forall. intros t Ht. destruct (F0 t Ht) as [_ Hk].
    destruct (key t); [discriminate | destruct Hk]. }
  assert (S0 : StronglySorted (fun a b => keyLe (key a) (key b)) trips0)
    by (apply (sortWith_sorted key); exact K0).
  assert (I0 : forall t, In t trips0 <-> In t cands)
    by (intros t; apply (sortWith_In key)).
  assert (K1 : Forall (fun t => key t <> None) trips0).
  { rewrite List.Forall_forall in K0 |- *. intros t Ht. apply K0, I0, Ht. }
  set (trips1 := match Schedule.listMode options with
                 | Some Schedule.nextPerRoute =>
                     Schedule.filterFirstSeen (Schedule.addAll trips0) trips0
                 | _ => trips0
                 end).
  assert (I1 : forall t, In t trips1 -> In t trips0).
  { intros t. subst trips1.
    destruct (Schedule.listMode options) as [[|]|]; try tauto.
    intros Ht. apply filterFirstSeen_In in Ht. tauto. }
  assert (S1 : StronglySorted (fun a b => keyLe (key a) (key b)) trips1).
  { subst trips1. destruct (Schedule.listMode options) as [[|]|]; try exact S0.
    apply (filterFirstSeen_sorted key). exact S0. }
  destruct (sliceTo_firstn (Schedule.limit options) trips1) as [k Hk].
  split; [rewrite Hk; apply StronglySorted_firstn; exact S1|].
  split.
  { apply List.Forall_forall. intros t Ht. rewrite Hk in Ht.
    apply firstn_In, I1, I0, F0 in Ht. tauto. }
  split; [apply sliceTo_length|].
  intros Hmode. subst trips1. rewrite Hmode in *. split.
  - rewrite Hk. apply NoDup_map_firstn.
    apply (NoDup_map_factor _ Schedule.pairKey).
    + intros x y Hxy. injection Hxy as Hr Hs. unfold Schedule.pairKey. congruence.
    + apply filterFirstSeen_NoDup.
  - intros t Ht raw u Hraw Hu Hfuture Hr Hs.
    rewrite Hk in Ht. apply firstn_In in Ht.
    apply (filterFirstSeen_earliest key (Schedule.addAll trips0) trips0 t u K1 S0 Ht).
    + apply I0. apply filter_In. split.
      * apply (mapR_In _ _ _ _ _ Hmap Hraw Hu).
      * apply after_true. exact Hfuture.
    + unfold Schedule.pairKey. congruence.
Qed.

Lemma getUpcomingTrips_result_witness :
  Z.of_nat (length (Schedule.trips
     (snapshotOf (Schedule.getUpcomingTrips twoDaysProvider testNow nextStbaOptions))))
  <= 10
  /\ NoDup (map (fun t => (Schedule.routeId t, Schedule.stopId t))
       (Schedule.trips
          (snapshotOf (Schedule.getUpcomingTrips twoDaysProvider testNow
                         nextStbaOptions)))).
Proof.
  assert (Hres : Schedule.getUpcomingTrips twoDaysProvider testNow nextStbaOptions
                 = Ok (snapshotOf (Schedule.getUpcomingTrips twoDaysProvider testNow
                                     nextStbaOptions)))
    by (vm_compute; reflexivity).
  destruct (getUpcomingTrips_result twoDaysProvider testNow nextStbaOptions
              _ _ eq_refl Hres) as (_ & _ & Hlen & Hnext).
  split.
  - apply Hlen. discriminate.
  - apply (proj1 (Hnext eq_refl)).
Defined.

(** * Further properties of the code *)

(** ** [resolveTripTimes] *)

(** X1.  A result that is marked real-time comes from a matched stop
    update.  When its two dates are valid, they lie within ninety minutes
    of the schedule on both sides and the arrival is not after the
    departure.  A date of the result is invalid only when the effective
    time of its side (the time of the update when it gives one, the
    schedule moved by the delay otherwise) is outside the range of
    [Date]. *)
Theorem realtime_within_ninety_minutes trip stu n :
  let r := fst (resolveTripTimes trip stu n) in
  isRealtime r = true ->
  (exists u, stu = Some u)
  /\ (forall a d, arrivalMs r = Some a -> departureMs r = Some d ->
        Z.abs (a - arrival_time trip) <= ninetyMinutes
        /\ Z.abs (d - departure_time trip) <= ninetyMinutes
        /\ a <= d)
  /\ (arrivalMs r = None -> inRange (effectiveTimeMs trip stu KArrival) = false)
  /\ (departureMs r = None ->
      inRange (effectiveTimeMs trip stu KDeparture) = false).
Proof.
  cbv zeta. intros Hrt.
  pose proof (resolveTripTimes_values trip stu n) as H. cbv zeta in H.
  destruct (inRange (effectiveTimeMs trip stu KArrival)) eqn:Hia;
    destruct (inRange (effectiveTimeMs trip stu KDeparture)) eqn:Hid;
    cbn [andb] in H.
  - destruct (Z.gtb_spec (deviationMs trip stu) ninetyMinutes) as [Hgt|Hle].
    + destruct H as (_ & _ & Hr). congruence.
    + destruct H as (Ha & Hd & Hr). rewrite Ha, Hd.
      split; [destruct stu; [eauto | rewrite Hr in Hrt; discriminate]|].
      split; [|split; discriminate].
      intros a d [= <-] [= <-]. unfold deviationMs in Hle.
      split; [lia|]. split; [lia|].
      unfold adjustedArrivalMs, adjustedDepartureMs.
      destruct (Z.gtb_spec (effectiveTimeMs trip stu KArrival)
                  (effectiveTimeMs trip stu KDeparture)); lia.
  - destruct H as (Ha & Hd & Hr). rewrite Ha, Hd, (timeClip_outside _ Hid).
    split; [destruct stu; [eauto | rewrite Hr in Hrt; discriminate]|].
    split; [intros a d _ Hnone; discriminate|]. split; [|reflexivity].
    rewrite (timeClip_inRange _ Hia). discriminate.
  - destruct H as (Ha & Hd & Hr). rewrite Ha, Hd, (timeClip_outside _ Hia).
    split; [destruct stu; [eauto | rewrite Hr in Hrt; discriminate]|].
    split; [intros a d Hnone; discriminate|]. split; [reflexivity|].
    rewrite (timeClip_inRange _ Hid). discriminate.
  - destruct H as (Ha & Hd & Hr). rewrite Ha, Hd, (timeClip_outside _ Hia).
    split; [destruct stu; [eauto | rewrite Hr in Hrt; discriminate]|].
    split; [intros a d Hnone; discriminate|]. split; reflexivity.
Qed.

Lemma realtime_within_ninety_minutes_witness :
  isRealtime (fst (resolveTripTimes stbaTrip (Some lateArrival) 0%nat)) = true
  /\ (forall a d,
        arrivalMs (fst (resolveTripTimes stbaTrip (Some lateArrival) 0%nat)) = Some a ->
        departureMs (fst (resolveTripTimes stbaTrip (Some lateArrival) 0%nat)) = Some d ->
        Z.abs (a - arrival_time stbaTrip) <= ninetyMinutes
        /\ Z.abs (d - departure_time stbaTrip) <= ninetyMinutes
        /\ a <= d).
Proof.
  assert (H : isRealtime (fst (resolveTripTimes stbaTrip (Some lateArrival) 0%nat))
              = true) by reflexivity.
  split; [exact H|].
  exact (proj1 (proj2 (realtime_within_ninety_minutes stbaTrip (Some lateArrival)
                         0%nat H))).
Defined.

Lemma effectiveTimeMs_unmatched trip key :
  effectiveTimeMs trip None key = scheduledOf trip key.
Proof. unfold effectiveTimeMs. cbn. lia. Qed.

(** X2.  Without a matched stop update the result is never real-time, the
    arrival is the scheduled arrival, and the departure is the scheduled
    departure, except for a row scheduled to arrive after it departs by
    at most ninety minutes, whose departure is moved to the arrival. *)
Theorem unmatched_is_schedule trip n :
  let r := fst (resolveTripTimes trip None n) in
  isRealtime r = false
  /\ arrivalMs r = Some (arrival_time trip)
  /\ departureMs r =
     Some (if (departure_time trip <? arrival_time trip)
              && (arrival_time trip - departure_time trip <=? ninetyMinutes)
           then arrival_time trip else departure_time trip).
Proof.
  cbv zeta.
  pose proof (resolveTripTimes_values trip None n) as H. cbv zeta in H.
  unfold deviationMs, adjustedDepartureMs, adjustedArrivalMs in H.
  rewrite !effectiveTimeMs_unmatched in H. cbn [scheduledOf] in H.
  rewrite (arrival_time_valid trip), (departure_time_valid trip) in H.
  cbn [andb] in H.
  unfold ninetyMinutes in *.
  destruct (Z.gtb_spec (arrival_time trip) (departure_time trip)) as [Hgt|Hle];
    match type of H with
    | if ?c then _ else _ => destruct c eqn:Hc
    end;
    rewrite Z.gtb_ltb in Hc;
    [apply Z.ltb_lt in Hc | apply Z.ltb_ge in Hc
    |apply Z.ltb_lt in Hc | apply Z.ltb_ge in Hc];
    destruct H as (Ha & Hd & Hr); rewrite Ha, Hd, Hr;
    (split; [reflexivity|]); (split; [reflexivity|]); f_equal;
    destruct (Z.ltb_spec (departure_time trip) (arrival_time trip));
    destruct (Z.leb_spec (arrival_time trip - departure_time trip) 5400000);
    cbn [andb]; lia.
Qed.




(** ** [getUpcomingTripsForRoutesAtStops] *)

Lemma mapR_In_inv {E A B} (f : A -> Result E B) xs ys y :
  mapR f xs = Ok ys -> In y ys -> exists x, In x xs /\ f x = Ok y.
Proof.
  revert ys. induction xs as [|a rest IH]; intros ys Hm Hin; cbn [mapR] in Hm.
  - injection Hm as <-. destruct Hin.
  - destruct (f a) as [b|e] eqn:Ha; cbn [bindR] in Hm; [|discriminate].
    destruct (mapR f rest) as [bs|e] eqn:Hrest; cbn [bindR] in Hm; [|discriminate].
    injection Hm as <-. destruct Hin as [<-|Hin].
    + exists a. split; [left; reflexivity | exact Ha].
    + destruct (IH bs eq_refl Hin) as [x [Hx Hfx]].
      exists x. split; [right; exact Hx | exact Hfx].
Qed.

Lemma processTrip_entries now tripUpdates tripStops trip n ts :
  In ts (fst (processTrip now tripUpdates tripStops trip n)) ->
  In ts tripStops
  \/ (entryOf trip ts /\ notPast now ts).
Proof.
  rewrite processTrip_unfold. cbn [fst].
  set (r := fst (resolveTripTimes trip
                   (findStopTimeUpdate (findTripUpdate tripUpdates trip) trip) n)).
  destruct (numLt (departureMs r) (Some now)) eqn:Hpast; cbn [orb];
    [tauto|].
  destruct (canceledOrSkipped now trip _ _ r); cbn [orb]; [tauto|].
  destruct (isDuplicate tripStops trip r); [tauto|].
  intros Hin. apply in_app_or in Hin. destruct Hin as [Hin|[<-|[]]]; [tauto|].
  right. split; [eexists _, _; reflexivity|].
  intros d Hd. unfold toTripStop in Hd. cbn [ts_departureTime] in Hd.
  unfold departureMs in Hpast. rewrite Hd in Hpast. cbn [numLt] in Hpast.
  apply Z.ltb_ge. exact Hpast.
Qed.

Lemma forEachTrip_entries now tripUpdates trips tripStops n ts :
  In ts (fst (forEachTrip now tripUpdates trips tripStops n)) ->
  In ts tripStops
  \/ exists trip, In trip trips /\ entryOf trip ts /\ notPast now ts.
Proof.
  revert tripStops n. induction trips as [|trip rest IH]; intros tripStops n.
  - cbn. tauto.
  - cbn [forEachTrip]. unfold bindA.
    pose proof (processTrip_entries now tripUpdates tripStops trip n ts) as Hp.
    destruct (processTrip now tripUpdates tripStops trip n) as [ts' n'].
    cbn [fst] in Hp. intros Hin.
    destruct (IH ts' n' Hin) as [Hold|[trip' [Ht' He]]].
    + destruct (Hp Hold) as [H|[He Hf]]; [left; exact H|].
      right. exists trip. split; [left; reflexivity | tauto].
    + right. exists trip'. split; [right; exact Ht' | exact He].
Qed.

Lemma scanDay_entries {E} (w : World E) feedCode config routes now d
    tripStops n res n' ts :
  In d scheduleDates ->
  scanDay w feedCode config routes now d tripStops n = Ok (res, n') ->
  In ts res ->
  In ts tripStops
  \/ exists trip, scheduledRow w routes trip /\ entryOf trip ts
                  /\ notPast now ts.
Proof.
  intros Hd. unfold scanDay, promiseAll.
  destruct (mapR _ routes) as [rowss|e] eqn:Hrows; cbn [bindR]; [|discriminate].
  intros Hres Hin. injection Hres as Hres.
  pose proof (forEachTrip_entries now
    (tripUpdatesOrEmpty
       (getTripUpdates feedCode config (cacheGet w d) (fetch w d)
          (map trip_id (concat rowss))))
    (concat rowss) tripStops n ts) as Hentries.
  rewrite Hres in Hentries. cbn [fst] in Hentries.
  destruct (Hentries Hin) as [Hold|[trip [Htrip He]]]; [left; exact Hold|].
  right. exists trip. split; [|exact He].
  apply in_concat in Htrip. destruct Htrip as [rows [Hrowsin Hintrip]].
  destruct (mapR_In_inv _ _ _ _ Hrows Hrowsin) as [r [Hr Hfr]].
  exists d, r, rows. tauto.
Qed.

Lemma scan_entries {E} (w : World E) feedCode config routes now n res n' ts :
  getUpcomingTripsForRoutesAtStops w feedCode config routes now n = Ok (res, n') ->
  In ts res ->
  exists trip, scheduledRow w routes trip /\ entryOf trip ts
               /\ notPast now ts.
Proof.
  unfold getUpcomingTripsForRoutesAtStops.
  assert (Hgen : forall dates acc,
    (forall d, In d dates -> In d scheduleDates) ->
    (forall ts0 m, acc = Ok (ts0, m) -> In ts ts0 ->
       exists trip, scheduledRow w routes trip /\ entryOf trip ts
                    /\ notPast now ts) ->
    fold_left
      (fun acc scheduleDate =>
         bindR acc (fun '(tripStops, n') =>
           scanDay w feedCode config routes now scheduleDate tripStops n'))
      dates acc = Ok (res, n') ->
    In ts res ->
    exists trip, scheduledRow w routes trip /\ entryOf trip ts
                 /\ notPast now ts).
  { induction dates as [|d rest IH]; intros acc Hdates Hacc Hres Hin.
    - cbn in Hres. exact (Hacc res n' Hres Hin).
    - cbn [fold_left] in Hres.
      refine (IH _ (fun d' Hd' => Hdates d' (or_intror Hd')) _ Hres Hin).
      intros ts0 m Hstep Hin0.
      destruct acc as [[ts1 n1]|e]; cbn [bindR] in Hstep; [|discriminate].
      destruct (scanDay_entries w feedCode config routes now d ts1 n1 ts0 m ts
                  (Hdates d (or_introl eq_refl)) Hstep Hin0) as [Hold|Hnew].
      + exact (Hacc ts1 n1 eq_refl Hold).
      + exact Hnew. }
  intros Hres Hin.
  apply (Hgen scheduleDates (Ok ([], n))); auto.
  intros ts0 m Heq Hin0. injection Heq as <- _. destruct Hin0.
Qed.

(** X4.  The scan invents nothing: every returned entry was built from a
    row that the static schedule answered for one of the asked pairs at
    one of the day offsets -1, 0, +1, and carries the trip, route and stop
    of that row.  A trip known to the real-time feed only never appears. *)
Theorem scan_entries_come_from_schedule {E} (w : World E) feedCode config routes
    now n res n' ts :
  getUpcomingTripsForRoutesAtStops w feedCode config routes now n = Ok (res, n') ->
  In ts res ->
  exists trip,
    scheduledRow w routes trip
    /\ entryOf trip ts
    /\ ts_tripId ts = trip_id trip
    /\ ts_routeId ts = route_id trip
    /\ ts_stopId ts = stop_id trip
    /\ ts_stopName ts = stop_name trip
    /\ ts_routeName ts = route_name trip.
Proof.
  intros Hres Hin.
  destruct (scan_entries w feedCode config routes now n res n' ts Hres Hin)
    as [trip [Hrow [He _]]].
  exists trip. split; [exact Hrow|]. split; [exact He|].
  destruct He as [stu [m ->]]. repeat split; reflexivity.
Qed.

(** X5.  The scan never returns a departure that lies before now: the
    departure of every entry is a date at or after now, or an invalid
    date. *)
Theorem scan_departures_not_past {E} (w : World E) feedCode config routes
    now n res n' :
  getUpcomingTripsForRoutesAtStops w feedCode config routes now n = Ok (res, n') ->
  Forall (fun ts => forall d, getTime (ts_departureTime ts) = Some d -> now <= d)
    res.
Proof.
  intros Hres. apply List.Forall_forall. intros ts Hin.
  destruct (scan_entries w feedCode config routes now n res n' ts Hres Hin)
    as [trip [_ [_ Hfut]]]. exact Hfut.
Qed.

(** X6.  An entry of the scan that is marked real-time was built from a
    row of the static schedule for the same trip; when its two dates are
    valid, they lie within ninety minutes, on arrival and on departure,
    of the scheduled times of that row, and the arrival is not after the
    departure. *)
Theorem scan_realtime_entries_near_schedule {E} (w : World E) feedCode config
    routes now n res n' ts :
  getUpcomingTripsForRoutesAtStops w feedCode config routes now n = Ok (res, n') ->
  In ts res ->
  ts_isRealtime ts = true ->
  exists trip,
    scheduledRow w routes trip
    /\ entryOf trip ts
    /\ ts_tripId ts = trip_id trip
    /\ forall a d,
         getTime (ts_arrivalTime ts) = Some a ->
         getTime (ts_departureTime ts) = Some d ->
         Z.abs (a - arrival_time trip) <= ninetyMinutes
         /\ Z.abs (d - departure_time trip) <= ninetyMinutes
         /\ a <= d.
Proof.
  intros Hres Hin Hrt.
  destruct (scan_entries w feedCode config routes now n res n' ts Hres Hin)
    as [trip [Hrow [He _]]].
  exists trip. split; [exact Hrow|]. split; [exact He|].
  destruct He as [stu [m ->]]. split; [reflexivity|].
  cbn [toTripStop ts_isRealtime ts_arrivalTime ts_departureTime] in *.
  intros a d Ha Hd.
  pose proof (resolveTripTimes_values trip stu m) as H. cbv zeta in H.
  unfold arrivalMs, departureMs in H.
  destruct (inRange (effectiveTimeMs trip stu KArrival)) eqn:Hia;
    destruct (inRange (effectiveTimeMs trip stu KDeparture)) eqn:Hid;
    cbn [andb] in H.
  - destruct (Z.gtb_spec (deviationMs trip stu) ninetyMinutes) as [Hgt|Hle].
    + destruct H as (_ & _ & Hr). congruence.
    + destruct H as (Ha' & Hd' & _). rewrite Ha' in Ha. rewrite Hd' in Hd.
      injection Ha as <-. injection Hd as <-.
      unfold deviationMs in Hle.
      unfold adjustedArrivalMs, adjustedDepartureMs in *.
      destruct (Z.gtb_spec (effectiveTimeMs trip stu KArrival)
                  (effectiveTimeMs trip stu KDeparture)); lia.
  - destruct H as (_ & Hd' & _). rewrite Hd', (timeClip_outside _ Hid) in Hd.
    discriminate.
  - destruct H as (Ha' & _ & _). rewrite Ha', (timeClip_outside _ Hia) in Ha.
    discriminate.
  - destruct H as (Ha' & _ & _). rewrite Ha', (timeClip_outside _ Hia) in Ha.
    discriminate.
Qed.

Lemma liveWorld_scan :
  getUpcomingTripsForRoutesAtStops liveWorld "testfeed" realtimeConfig
    [stbaAtStagecoach] testNow 0%nat
  = Ok ([stbaLateEntry], 4%nat).
Proof. vm_compute. reflexivity. Qed.

Lemma scan_entries_come_from_schedule_witness :
  exists trip,
    scheduledRow liveWorld [stbaAtStagecoach] trip
    /\ ts_tripId stbaLateEntry = trip_id trip.
Proof.
  destruct (scan_entries_come_from_schedule liveWorld "testfeed" realtimeConfig
              [stbaAtStagecoach] testNow 0%nat [stbaLateEntry] 4%nat stbaLateEntry
              liveWorld_scan (or_introl eq_refl))
    as [trip (Hrow & _ & Hid & _)].
  exists trip. split; [exact Hrow | exact Hid].
Defined.

Lemma scan_departures_not_past_witness :
  Forall (fun ts => forall d, getTime (ts_departureTime ts) = Some d -> testNow <= d)
    [stbaLateEntry].
Proof.
  exact (scan_departures_not_past liveWorld "testfeed" realtimeConfig
           [stbaAtStagecoach] testNow 0%nat [stbaLateEntry] 4%nat liveWorld_scan).
Defined.

Lemma scan_realtime_entries_near_schedule_witness :
  exists trip,
    scheduledRow liveWorld [stbaAtStagecoach] trip
    /\ Z.abs (1199455230000 - arrival_time trip) <= ninetyMinutes.
Proof.
  destruct (scan_realtime_entries_near_schedule liveWorld "testfeed" realtimeConfig
              [stbaAtStagecoach] testNow 0%nat [stbaLateEntry] 4%nat stbaLateEntry
              liveWorld_scan (or_introl eq_refl) eq_refl)
    as [trip (Hrow & _ & _ & Hnear)].
  exists trip. split; [exact Hrow|].
  exact (proj1 (Hnear 1199455230000 1199455230000 eq_refl eq_refl)).
Defined.

Lemma scan_fold_throws {E} (w : World E) feedCode config routes now dates acc d r :
  In d dates -> In r routes ->
  isOk (getScheduleForRouteAtStop w (routeId r) (stopId r) d) = false ->
  isOk (fold_left
          (fun acc scheduleDate =>
             bindR acc (fun '(tripStops, n') =>
               scanDay w feedCode config routes now scheduleDate tripStops n'))
          dates acc) = false.
Proof.
  intros Hd Hr Hthrow. revert acc.
  induction dates as [|d' rest IH]; intros acc; [destruct Hd|].
  cbn [fold_left].
  destruct acc as [[ts n]|e]; cbn [bindR].
  - destruct Hd as [->|Hd]; [|apply IH; exact Hd].
    unfold scanDay, promiseAll.
    pose proof (mapR_throws
      (fun r0 => getScheduleForRouteAtStop w (routeId r0) (stopId r0) d)
      routes r Hr Hthrow) as Hall.
    destruct (mapR _ routes); [discriminate|]. cbn [bindR].
    rewrite (scan_fold_throw w feedCode routes now config rest). reflexivity.
  - rewrite (scan_fold_throw w feedCode routes now config rest). reflexivity.
Qed.

(** X7.  A failure of the static schedule is not recovered: when the
    query fails for one asked pair at one of the three day offsets, the
    scan fails, whatever the real-time feed answers. *)
Theorem static_failure_fails_scan {E} (w : World E) feedCode config routes now n d r :
  In d scheduleDates -> In r routes ->
  isOk (getScheduleForRouteAtStop w (routeId r) (stopId r) d) = false ->
  isOk (getUpcomingTripsForRoutesAtStops w feedCode config routes now n) = false.
Proof.
  intros Hd Hr Hthrow. unfold getUpcomingTripsForRoutesAtStops.
  apply (scan_fold_throws w feedCode config routes now scheduleDates _ d r);
    assumption.
Qed.

Lemma static_failure_fails_scan_witness :
  isOk (getUpcomingTripsForRoutesAtStops storeDownWorld "testfeed" realtimeConfig
          [stbaAtStagecoach] testNow 0%nat) = false.
Proof.
  apply (static_failure_fails_scan storeDownWorld "testfeed" realtimeConfig
           [stbaAtStagecoach] testNow 0%nat 0 stbaAtStagecoach).
  - right. left. reflexivity.
  - left. reflexivity.
  - reflexivity.
Defined.

(** ** [getTripUpdates] *)

Lemma includes_In x xs : includes x xs = true <-> In x xs.
Proof.
  unfold includes. rewrite existsb_exists. split.
  - intros [y [Hy Heq]]. apply String.eqb_eq in Heq. subst. exact Hy.
  - intros Hin. exists x. split; [exact Hin | apply String.eqb_refl].
Qed.

(** One turn of the loop over the feed entities: the entity is stored
    under its key when it carries an update of a trip that was asked for,
    and skipped otherwise. *)
Lemma addEntity_cases tripIds m e :
  (exists tu id, tripUpdate e = Some tu /\ requested tripIds tu id
                 /\ addEntity tripIds m e = <[keyFor tu id := tu]> m)
  \/ ((forall tu id, tripUpdate e = Some tu -> ~ requested tripIds tu id)
      /\ addEntity tripIds m e = m).
Proof.
  unfold addEntity, requested, keyFor.
  destruct (tripUpdate e) as [tu|]; [|right; split; [discriminate | reflexivity]].
  destruct (TripDescriptor.tripId (GtfsRt.trip tu)) as [[|c id]|] eqn:Hid; cbn.
  - right. split; [|reflexivity]. intros tu' id' Htu [H1 [H2 _]].
    injection Htu as <-. congruence.
  - destruct (includes (String c id) tripIds) eqn:Hinc.
    + left. exists tu, (String c id). apply includes_In in Hinc.
      split; [reflexivity|]. split; [repeat split; [exact Hid | discriminate | exact Hinc]|].
      destruct (TripDescriptor.startDate (GtfsRt.trip tu)) as [[|c' d]|]; reflexivity.
    + right. split; [|reflexivity]. intros tu' id' Htu [H1 [_ H3]].
      injection Htu as <-. rewrite Hid in H1. injection H1 as <-.
      apply includes_In in H3. congruence.
  - right. split; [|reflexivity]. intros tu' id' Htu [H1 _].
    injection Htu as <-. congruence.
Qed.

Lemma buildMap_sound tripIds es (m0 : gmap string TripUpdate) k tu :
  fold_left (addEntity tripIds) es m0 !! k = Some tu ->
  m0 !! k = Some tu
  \/ exists e id, In e es /\ tripUpdate e = Some tu /\ requested tripIds tu id
                  /\ k = keyFor tu id.
Proof.
  revert m0. induction es as [|e rest IH]; intros m0; cbn [fold_left].
  - intros H. left. exact H.
  - intros H. destruct (IH _ H) as [Hm|[e' [id (Hin & Htu & Hreq & Hk)]]].
    + destruct (addEntity_cases tripIds m0 e)
        as [(tu' & id & Htu & Hreq & Heq)|[_ Heq]]; rewrite Heq in Hm.
      * destruct (decide (keyFor tu' id = k)) as [Hk|Hk].
        -- subst k. rewrite lookup_insert_eq in Hm. injection Hm as <-.
           right. exists e, id. split; [left; reflexivity|]. tauto.
        -- rewrite lookup_insert_ne in Hm by exact Hk. left. exact Hm.
      * left. exact Hm.
    + right. exists e', id. split; [right; exact Hin|]. tauto.
Qed.

Lemma buildMap_keeps tripIds es (m0 : gmap string TripUpdate) k :
  is_Some (m0 !! k) -> is_Some (fold_left (addEntity tripIds) es m0 !! k).
Proof.
  revert m0. induction es as [|e rest IH]; intros m0 Hk; cbn [fold_left];
    [exact Hk|].
  apply IH.
  destruct (addEntity_cases tripIds m0 e)
    as [(tu' & id & _ & _ & Heq)|[_ Heq]]; rewrite Heq; [|exact Hk].
  destruct (decide (keyFor tu' id = k)) as [<-|Hne].
  - rewrite lookup_insert_eq. eauto.
  - rewrite lookup_insert_ne by exact Hne. exact Hk.
Qed.

Lemma buildMap_complete tripIds es (m0 : gmap string TripUpdate) e tu id :
  In e es -> tripUpdate e = Some tu -> requested tripIds tu id ->
  is_Some (fold_left (addEntity tripIds) es m0 !! keyFor tu id).
Proof.
  revert m0. induction es as [|e' rest IH]; intros m0 Hin Htu Hreq; [destruct Hin|].
  cbn [fold_left]. destruct Hin as [->|Hin]; [|apply IH; assumption].
  apply buildMap_keeps.
  destruct (addEntity_cases tripIds m0 e)
    as [(tu' & id' & Htu' & Hreq' & Heq)|[Hno _]].
  - rewrite Htu in Htu'. injection Htu' as <-.
    destruct Hreq as [H1 _], Hreq' as [H1' _]. rewrite H1 in H1'.
    injection H1' as <-. rewrite Heq, lookup_insert_eq. eauto.
  - destruct (Hno tu id Htu Hreq).
Qed.

(** X8.  Every trip update in the map that [getTripUpdates] returns is an
    update of a trip whose id was asked for, stored under [id_startDate]
    when it carries a start date and under the bare [id] otherwise. *)
Theorem getTripUpdates_sound {E} feedCode config lookup
    (fetch : FetchConfig -> Result E Response) tripIds m sets k tu :
  getTripUpdates feedCode config lookup fetch tripIds = Ok (m, sets) ->
  m !! k = Some tu ->
  exists id, requested tripIds tu id /\ k = keyFor tu id.
Proof.
  unfold getTripUpdates.
  destruct (rtTripUpdates config) as [rt|].
  - destruct (cached feedCode "tripUpdates" lookup _ None) as [[es sets']|e];
      cbn [bindR]; [|discriminate].
    intros H Hk. injection H as <- _.
    destruct (buildMap_sound tripIds es ∅ k tu Hk)
      as [Hempty|[e [id (_ & _ & Hreq & Hkey)]]].
    + rewrite lookup_empty in Hempty. discriminate.
    + exists id. split; assumption.
  - intros H Hk. injection H as <- _. rewrite lookup_empty in Hk. discriminate.
Qed.

Lemma startsWith_key a rest : startsWith (a +:+ "_" +:+ rest) (a +:+ "_") = true.
Proof.
  induction a as [|c a IH]; [destruct rest; reflexivity|].
  change (Ascii.eqb c c && startsWith (a +:+ "_" +:+ rest) (a +:+ "_") = true).
  rewrite Ascii.eqb_refl, IH. reflexivity.
Qed.

(** Two keys [id_date] meet only when the ids are the same, or when one
    id is the other followed by an underscore. *)
Lemma key_clash a a' s s' :
  a +:+ "_" +:+ s = a' +:+ "_" +:+ s' ->
  (a = a' /\ s = s')
  \/ startsWith a' (a +:+ "_") = true
  \/ startsWith a (a' +:+ "_") = true.
Proof.
  revert a'. induction a as [|c a IH]; intros [|c' a'] Heq.
  - change (String "_" s = String "_" s') in Heq.
    injection Heq as ->. left. split; reflexivity.
  - change (String "_" s = String c' (a' +:+ "_" +:+ s')) in Heq.
    injection Heq as <- _. right. left. destruct a'; reflexivity.
  - change (String c (a +:+ "_" +:+ s) = String "_" s') in Heq.
    injection Heq as -> _. right. right. destruct a; reflexivity.
  - change (String c (a +:+ "_" +:+ s) = String c' (a' +:+ "_" +:+ s')) in Heq.
    injection Heq as -> Heq.
    destruct (IH a' Heq) as [[-> ->]|[H|H]].
    + left. split; reflexivity.
    + right. left.
      change (Ascii.eqb c' c' && startsWith a' (a +:+ "_") = true).
      rewrite Ascii.eqb_refl, H. reflexivity.
    + right. right.
      change (Ascii.eqb c' c' && startsWith a (a' +:+ "_") = true).
      rewrite Ascii.eqb_refl, H. reflexivity.
Qed.

(** The update that the lookup finds for a row is an update of the trip
    of the row, when no trip id asked for is another one followed by an
    underscore. *)
Lemma findTripUpdate_own tripIds es trip tu :
  unambiguous tripIds -> In (trip_id trip) tripIds ->
  findTripUpdate (fold_left (addEntity tripIds) es ∅) trip = Some tu ->
  requested tripIds tu (trip_id trip)
  /\ (TripDescriptor.startDate (GtfsRt.trip tu) = None
      \/ TripDescriptor.startDate (GtfsRt.trip tu) = Some ""
      \/ TripDescriptor.startDate (GtfsRt.trip tu) = Some (start_date trip))
  /\ exists e, In e es /\ tripUpdate e = Some tu.
Proof.
  intros Hun Hid Hfound.
  assert (Hkey : exists k,
             fold_left (addEntity tripIds) es ∅ !! k = Some tu
             /\ (k = trip_id trip +:+ "_" +:+ start_date trip \/ k = trip_id trip)).
  { unfold findTripUpdate, nullish in Hfound.
    destruct (fold_left (addEntity tripIds) es ∅
                !! (trip_id trip +:+ "_" +:+ start_date trip)) as [x|] eqn:Hexact.
    - injection Hfound as ->. eauto.
    - eauto. }
  destruct Hkey as [k [Hk Hshape]].
  destruct (buildMap_sound tripIds es ∅ k tu Hk)
    as [Hempty|[e [id (Hin & Htu & Hreq & Hkid)]]];
    [rewrite lookup_empty in Hempty; discriminate|].
  assert (Hin' : In id tripIds) by (destruct Hreq as (_ & _ & H); exact H).
  assert (Hsame : id = trip_id trip
                  /\ (TripDescriptor.startDate (GtfsRt.trip tu) = None
                      \/ TripDescriptor.startDate (GtfsRt.trip tu) = Some ""
                      \/ TripDescriptor.startDate (GtfsRt.trip tu)
                         = Some (start_date trip))).
  { unfold keyFor in Hkid.
    destruct (TripDescriptor.startDate (GtfsRt.trip tu)) as [[|c d]|] eqn:Hdate.
    - destruct Hshape as [Hs|Hs]; rewrite Hs in Hkid.
      + pose proof (startsWith_key (trip_id trip) (start_date trip)) as Hp.
        rewrite Hkid in Hp. rewrite (Hun _ _ Hid Hin') in Hp. discriminate.
      + split; [congruence | tauto].
    - destruct Hshape as [Hs|Hs]; rewrite Hs in Hkid.
      + destruct (key_clash _ _ _ _ Hkid) as [[Hi Hd]|[H|H]].
        * split; [congruence|]. right. right. congruence.
        * rewrite (Hun _ _ Hid Hin') in H. discriminate.
        * rewrite (Hun _ _ Hin' Hid) in H. discriminate.
      + pose proof (startsWith_key id (String c d)) as Hp.
        rewrite <- Hkid in Hp. rewrite (Hun _ _ Hin' Hid) in Hp. discriminate.
    - destruct Hshape as [Hs|Hs]; rewrite Hs in Hkid.
      + pose proof (startsWith_key (trip_id trip) (start_date trip)) as Hp.
        rewrite Hkid in Hp. rewrite (Hun _ _ Hid Hin') in Hp. discriminate.
      + split; [congruence | tauto]. }
  destruct Hsame as [-> Hdate]. split; [exact Hreq|]. split; [exact Hdate|].
  exists e. split; assumption.
Qed.

(** X9.  An update of the feed is never missed by the trip it is about,
    and no other trip's update is taken for it: when no trip id asked
    for is another one followed by an underscore, and the feed entities
    hold an update of the trip of a row that carries no start date or
    the service date of the row, the lookup for the row finds an update
    of the feed that is about the trip of the row and carries no start
    date or the service date of the row. *)
Theorem matching_update_is_found {E} feedCode config rt lookup
    (fetch : FetchConfig -> Result E Response) tripIds es sets trip e tu :
  rtTripUpdates config = Some rt ->
  cached feedCode "tripUpdates" lookup (fun _ => fetchTripUpdates rt fetch) None
  = Ok (es, sets) ->
  unambiguous tripIds ->
  In e es -> tripUpdate e = Some tu ->
  requested tripIds tu (trip_id trip) ->
  TripDescriptor.startDate (GtfsRt.trip tu) = None
  \/ TripDescriptor.startDate (GtfsRt.trip tu) = Some ""
  \/ TripDescriptor.startDate (GtfsRt.trip tu) = Some (start_date trip) ->
  exists m tu',
    getTripUpdates feedCode config lookup fetch tripIds = Ok (m, sets)
    /\ findTripUpdate m trip = Some tu'
    /\ requested tripIds tu' (trip_id trip)
    /\ (TripDescriptor.startDate (GtfsRt.trip tu') = None
        \/ TripDescriptor.startDate (GtfsRt.trip tu') = Some ""
        \/ TripDescriptor.startDate (GtfsRt.trip tu') = Some (start_date trip))
    /\ exists e', In e' es /\ tripUpdate e' = Some tu'.
Proof.
  intros Hrt Hcached Hun Hin Htu Hreq Hdate.
  unfold getTripUpdates. rewrite Hrt, Hcached. cbn [bindR].
  set (m := fold_left (addEntity tripIds) es ∅).
  pose proof (buildMap_complete tripIds es ∅ e tu (trip_id trip) Hin Htu Hreq)
    as Hsome. fold m in Hsome.
  assert (Hfound : is_Some (findTripUpdate m trip)).
  { unfold findTripUpdate, nullish.
    assert (Hkey : keyFor tu (trip_id trip) = trip_id trip
                   \/ keyFor tu (trip_id trip)
                      = trip_id trip +:+ "_" +:+ start_date trip).
    { unfold keyFor. destruct Hdate as [->|[->| ->]]; [left; reflexivity ..|].
      destruct (start_date trip); [left | right]; reflexivity. }
    destruct (m !! (trip_id trip +:+ "_" +:+ start_date trip)) eqn:Hexact; [eauto|].
    destruct Hkey as [Hk|Hk]; rewrite Hk in Hsome; [exact Hsome|].
    rewrite Hexact in Hsome. destruct Hsome as [? ?]. discriminate. }
  destruct Hfound as [tu' Hfound]. exists m, tu'.
  split; [reflexivity|]. split; [exact Hfound|].
  apply (findTripUpdate_own tripIds es trip tu' Hun); [|exact Hfound].
  destruct Hreq as (_ & _ & H). exact H.
Qed.

Lemma matching_update_is_found_witness :
  exists m tu',
    getTripUpdates "testfeed" realtimeConfig (cacheGet liveWorld 0)
      (fetch liveWorld 0) ["STBA"]
    = Ok (m, [ {| set_key := "testfeed-tripUpdates";
                  set_value := [ {| tripUpdate := Some stbaLate |} ];
                  set_ttl := Some 15000 |} ])
    /\ findTripUpdate m stbaTrip = Some tu'
    /\ requested ["STBA"] tu' "STBA".
Proof.
  destruct (matching_update_is_found "testfeed" realtimeConfig
              (One {| url := "https://feed.example/tripupdates"; headers := [] |})
              (cacheGet liveWorld 0) (fetch liveWorld 0) ["STBA"]
              [ {| tripUpdate := Some stbaLate |} ]
              [ {| set_key := "testfeed-tripUpdates";
                   set_value := [ {| tripUpdate := Some stbaLate |} ];
                   set_ttl := Some 15000 |} ]
              stbaTrip {| tripUpdate := Some stbaLate |} stbaLate
              eq_refl eq_refl)
    as [m [tu' (Hm & Hf & Hr & _)]].
  - intros a b [<-|[]] [<-|[]]. reflexivity.
  - left. reflexivity.
  - reflexivity.
  - repeat split; [discriminate | left; reflexivity].
  - right. right. reflexivity.
  - exists m, tu'. split; [exact Hm|]. split; [exact Hf | exact Hr].
Defined.

(** With the trip ids [A] and [A_20080104] the key [A_20080104] is
    shared: the row of trip [A] on 2008-01-04 is given the update of the
    other trip. *)
Example ambiguous_ids_share_a_key :
  let other :=
    {| GtfsRt.trip :=
         {| TripDescriptor.tripId := Some "A_20080104";
            TripDescriptor.startDate := None;
            TripDescriptor.scheduleRelationship := Some TripDescriptor.SCHEDULED |};
       stopTimeUpdate := [] |} in
  let m :=
    fold_left (addEntity ["A"; "A_20080104"]) [ {| tripUpdate := Some other |} ]
      (∅ : gmap string TripUpdate) in
  m !! ("A" +:+ "_" +:+ "20080104") = Some other.
Proof. reflexivity. Qed.

Lemma getTripUpdates_sound_witness :
  exists id, requested ["STBA"] stbaLate id
             /\ "STBA_20080104" = keyFor stbaLate id.
Proof.
  refine (getTripUpdates_sound "testfeed" realtimeConfig (cacheGet liveWorld 0)
            (fetch liveWorld 0) ["STBA"]
            {[ "STBA_20080104" := stbaLate ]}
            [ {| set_key := "testfeed-tripUpdates";
                 set_value := [ {| tripUpdate := Some stbaLate |} ];
                 set_ttl := Some 15000 |} ]
            "STBA_20080104" stbaLate _ _).
  - vm_compute. reflexivity.
  - vm_compute. reflexivity.
Defined.

(** ** [getUpcomingTrips] *)

Lemma applyOffset_Ok routes raw t :
  Schedule.applyOffset routes raw = Ok t ->
  exists r,
    In r routes
    /\ Schedule.r_routeId r = ts_routeId raw
    /\ Schedule.r_stopId r = ts_stopId raw
    /\ t = {| Schedule.tripId := ts_tripId raw;
              Schedule.routeId := ts_routeId raw;
              Schedule.routeName := ts_routeName raw;
              Schedule.routeColor := ts_routeColor raw;
              Schedule.stopId := ts_stopId raw;
              Schedule.stopName := ts_stopName raw;
              Schedule.headsign := ts_headsign raw;
              Schedule.arrivalTime :=
                Schedule.shiftedSeconds (ts_arrivalTime raw) (Schedule.offset r);
              Schedule.departureTime :=
                Schedule.shiftedSeconds (ts_departureTime raw) (Schedule.offset r);
              Schedule.isRealtime := ts_isRealtime raw |}.
Proof.
  unfold Schedule.applyOffset.
  destruct (List.find _ routes) as [r|] eqn:Hfind; [|discriminate].
  intros H. injection H as <-.
  apply find_some in Hfind. destruct Hfind as [Hin Hmatch].
  apply andb_true_iff in Hmatch. destruct Hmatch as [Hr Hs].
  apply String.eqb_eq in Hr, Hs.
  exists r. repeat split; assumption.
Qed.

Lemma getUpcomingTrips_members provider now options upcoming res t :
  provider (map Schedule.toRouteAtStop (Schedule.routes options)) = Ok upcoming ->
  Schedule.getUpcomingTrips provider now options = Ok res ->
  In t (Schedule.trips res) ->
  exists raw, In raw upcoming
              /\ Schedule.applyOffset (Schedule.routes options) raw = Ok t.
Proof.
  intros Hprov Hres Hin.
  unfold Schedule.getUpcomingTrips in Hres. rewrite Hprov in Hres.
  cbn [bindR] in Hres.
  destruct (mapR (Schedule.applyOffset (Schedule.routes options)) upcoming)
    as [mapped|e] eqn:Hmap; [|discriminate].
  cbn [bindR] in Hres. injection Hres as <-. cbn [Schedule.trips] in Hin.
  set (key := Schedule.sortKeyOf (Schedule.sortByDeparture options)) in *.
  set (trips0 := Schedule.sortWith
                   (fun a b => Schedule.compareKeys (key a) (key b))
                   (List.filter
                      (fun trip => Schedule.after (Schedule.seconds now) (key trip))
                      mapped)) in *.
  set (trips1 := match Schedule.listMode options with
                 | Some Schedule.nextPerRoute =>
                     Schedule.filterFirstSeen (Schedule.addAll trips0) trips0
                 | _ => trips0
                 end) in *.
  destruct (sliceTo_firstn (Schedule.limit options) trips1) as [k Hk].
  rewrite Hk in Hin. apply firstn_In in Hin.
  assert (Hsorted : In t trips0).
  { subst trips1. destruct (Schedule.listMode options) as [[|]|]; try exact Hin.
    apply filterFirstSeen_In in Hin. tauto. }
  apply (proj1 (sortWith_In key t _)) in Hsorted.
  apply filter_In in Hsorted. destruct Hsorted as [Hmapped _].
  apply (mapR_In_inv _ _ _ _ Hmap Hmapped).
Qed.

(** X10.  Every trip of a snapshot is a trip the provider returned, with
    its fields copied, its times turned into seconds, and the offset of
    the first asked route with its route and stop added to arrival and
    departure alike; the time of an invalid date is [NaN]. *)
Theorem snapshot_trips_are_provider_trips provider now options upcoming res t :
  provider (map Schedule.toRouteAtStop (Schedule.routes options)) = Ok upcoming ->
  Schedule.getUpcomingTrips provider now options = Ok res ->
  In t (Schedule.trips res) ->
  exists raw r,
    In raw upcoming /\ In r (Schedule.routes options)
    /\ Schedule.r_routeId r = ts_routeId raw
    /\ Schedule.r_stopId r = ts_stopId raw
    /\ Schedule.tripId t = ts_tripId raw
    /\ Schedule.routeId t = ts_routeId raw
    /\ Schedule.stopId t = ts_stopId raw
    /\ Schedule.headsign t = ts_headsign raw
    /\ Schedule.isRealtime t = ts_isRealtime raw
    /\ Schedule.arrivalTime t
       = option_map
           (fun ms => (Schedule.seconds ms + inject_Z (Schedule.offset r))%Q)
           (getTime (ts_arrivalTime raw))
    /\ Schedule.departureTime t
       = option_map
           (fun ms => (Schedule.seconds ms + inject_Z (Schedule.offset r))%Q)
           (getTime (ts_departureTime raw)).
Proof.
  intros Hprov Hres Hin.
  destruct (getUpcomingTrips_members provider now options upcoming res t
              Hprov Hres Hin) as [raw [Hraw Hok]].
  destruct (applyOffset_Ok _ _ _ Hok) as [r (Hr & Hrid & Hsid & ->)].
  exists raw, r. cbn [Schedule.tripId Schedule.routeId Schedule.stopId
    Schedule.headsign Schedule.isRealtime Schedule.arrivalTime
    Schedule.departureTime]. unfold Schedule.shiftedSeconds.
  repeat split; try assumption;
    match goal with |- context [getTime ?d] => destruct (getTime d) end;
    reflexivity.
Qed.

Lemma snapshot_trips_are_provider_trips_witness :
  Forall
    (fun t => exists raw r,
       In raw [stbaEntry 1199541600000 0; stbaEntry 1199455200000 2]
       /\ In r (Schedule.routes nextStbaOptions)
       /\ Schedule.tripId t = ts_tripId raw)
    (Schedule.trips
       (snapshotOf (Schedule.getUpcomingTrips twoDaysProvider testNow
                      nextStbaOptions))).
Proof.
  assert (Hres : Schedule.getUpcomingTrips twoDaysProvider testNow nextStbaOptions
                 = Ok (snapshotOf (Schedule.getUpcomingTrips twoDaysProvider testNow
                                     nextStbaOptions)))
    by (vm_compute; reflexivity).
  apply List.Forall_forall. intros t Hin.
  destruct (snapshot_trips_are_provider_trips twoDaysProvider testNow
              nextStbaOptions _ _ t eq_refl Hres Hin)
    as [raw [r (Hraw & Hr & _ & _ & Hid & _)]].
  exists raw, r. repeat split; assumption.
Defined.

Lemma insertBy_Permutation {A} (cmp : A -> A -> Q) a l :
  Permutation (Schedule.insertBy cmp a l) (a :: l).
Proof.
  induction l as [|y rest IH]; cbn [Schedule.insertBy]; [reflexivity|].
  destruct (Schedule.Qgtb (cmp a y) 0); [|reflexivity].
  rewrite IH. apply perm_swap.
Qed.

Lemma sortWith_Permutation {A} (cmp : A -> A -> Q) l :
  Permutation (Schedule.sortWith cmp l) l.
Proof.
  induction l as [|a rest IH]; [reflexivity|].
  cbn [Schedule.sortWith fold_right]. fold (Schedule.sortWith cmp rest).
  rewrite insertBy_Permutation, IH. reflexivity.
Qed.

Lemma sliceTo_all {A} limit (xs : list A) :
  Z.of_nat (length xs) <= limit -> Schedule.sliceTo limit xs = xs.
Proof.
  intros H. unfold Schedule.sliceTo.
  destruct (Z.ltb_spec limit 0); [lia|].
  apply firstn_all2. lia.
Qed.

(** X11.  In the sequential mode no future trip is lost but to the limit:
    the snapshot holds min(limit, number of future trips) trips, and when
    the limit is not below that number the snapshot is a rearrangement of
    all the trips whose sort key is after now. *)
Theorem sequential_snapshot_is_complete provider now options upcoming mapped res :
  provider (map Schedule.toRouteAtStop (Schedule.routes options)) = Ok upcoming ->
  mapR (Schedule.applyOffset (Schedule.routes options)) upcoming = Ok mapped ->
  Schedule.listMode options <> Some Schedule.nextPerRoute ->
  0 <= Schedule.limit options ->
  Schedule.getUpcomingTrips provider now options = Ok res ->
  let future :=
    List.filter
      (fun trip =>
         Schedule.after (Schedule.seconds now)
           (Schedule.sortKeyOf (Schedule.sortByDeparture options) trip)) mapped in
  length (Schedule.trips res)
  = Nat.min (Z.to_nat (Schedule.limit options)) (length future)
  /\ (Z.of_nat (length future) <= Schedule.limit options ->
      Permutation (Schedule.trips res) future).
Proof.
  intros Hprov Hmap Hmode Hlimit Hres future.
  unfold Schedule.getUpcomingTrips in Hres. rewrite Hprov in Hres.
  cbn [bindR] in Hres. rewrite Hmap in Hres. cbn [bindR] in Hres.
  injection Hres as <-. cbn [Schedule.trips]. fold future.
  set (sorted := Schedule.sortWith _ future).
  assert (Hperm : Permutation sorted future) by apply sortWith_Permutation.
  assert (Hmodeq : match Schedule.listMode options with
                   | Some Schedule.nextPerRoute =>
                       Schedule.filterFirstSeen (Schedule.addAll sorted) sorted
                   | _ => sorted
                   end = sorted).
  { destruct (Schedule.listMode options) as [[|]|]; congruence. }
  rewrite Hmodeq. split.
  - unfold Schedule.sliceTo. destruct (Z.ltb_spec (Schedule.limit options) 0); [lia|].
    rewrite length_firstn, (Permutation_length Hperm). reflexivity.
  - intros Hfit. rewrite sliceTo_all; [exact Hperm|].
    rewrite (Permutation_length Hperm). exact Hfit.
Qed.

Lemma mapR_first_throw {E A B} (f : A -> Result E B) xs x e0 :
  In x xs -> f x = Throw e0 ->
  (forall y e, f y = Throw e -> e = e0) ->
  mapR f xs = Throw e0.
Proof.
  intros Hin Hx Hall. induction xs as [|a rest IH]; [destruct Hin|].
  cbn [mapR]. destruct (f a) as [b|e] eqn:Ha; cbn [bindR].
  - destruct Hin as [->|Hin]; [congruence|].
    rewrite (IH Hin). reflexivity.
  - rewrite (Hall a e Ha). reflexivity.
Qed.

(** X12.  When the provider returns a trip whose route and stop match
    none of the asked pairs, the pass throws a [TypeError] (the offset of
    an undefined route is read): no snapshot is produced, not even of the
    other trips. *)
Theorem stray_trip_fails_pass provider now options upcoming raw :
  provider (map Schedule.toRouteAtStop (Schedule.routes options)) = Ok upcoming ->
  In raw upcoming ->
  (forall r, In r (Schedule.routes options) ->
     ~ (Schedule.r_routeId r = ts_routeId raw
        /\ Schedule.r_stopId r = ts_stopId raw)) ->
  Schedule.getUpcomingTrips provider now options
  = Throw (TypeError "Cannot read properties of undefined (reading 'offset')").
Proof.
  intros Hprov Hraw Hnone.
  unfold Schedule.getUpcomingTrips. rewrite Hprov. cbn [bindR].
  rewrite (mapR_first_throw (Schedule.applyOffset (Schedule.routes options))
             upcoming raw
             (TypeError "Cannot read properties of undefined (reading 'offset')")).
  - reflexivity.
  - exact Hraw.
  - unfold Schedule.applyOffset.
    destruct (List.find _ (Schedule.routes options)) as [r|] eqn:Hfind;
      [|reflexivity].
    apply find_some in Hfind. destruct Hfind as [Hin Hmatch].
    apply andb_true_iff in Hmatch. destruct Hmatch as [Hr Hs].
    apply String.eqb_eq in Hr, Hs. destruct (Hnone r Hin). tauto.
  - intros y e. unfold Schedule.applyOffset.
    destruct (List.find _ (Schedule.routes options)); [discriminate|].
    intros H. injection H as <-. reflexivity.
Qed.

Lemma sequential_snapshot_is_complete_witness :
  length (Schedule.trips
            (snapshotOf (Schedule.getUpcomingTrips twoDaysProvider testNow
                           stbaSubscription)))
  = 2%nat.
Proof.
  assert (Hres : Schedule.getUpcomingTrips twoDaysProvider testNow stbaSubscription
                 = Ok (snapshotOf (Schedule.getUpcomingTrips twoDaysProvider testNow
                                     stbaSubscription)))
    by (vm_compute; reflexivity).
  assert (Hmap : mapR (Schedule.applyOffset (Schedule.routes stbaSubscription))
                   [stbaEntry 1199541600000 0; stbaEntry 1199455200000 2]
                 = Ok (okOr [] (mapR (Schedule.applyOffset
                                        (Schedule.routes stbaSubscription))
                                  [stbaEntry 1199541600000 0;
                                   stbaEntry 1199455200000 2])))
    by (vm_compute; reflexivity).
  destruct (sequential_snapshot_is_complete twoDaysProvider testNow stbaSubscription
              _ _ _ eq_refl Hmap ltac:(discriminate) ltac:(discriminate) Hres)
    as [Hlen _].
  rewrite Hlen. vm_compute. reflexivity.
Defined.

Lemma stray_trip_fails_pass_witness :
  Schedule.getUpcomingTrips strayProvider testNow nextStbaOptions
  = Throw (TypeError "Cannot read properties of undefined (reading 'offset')").
Proof.
  apply (stray_trip_fails_pass strayProvider testNow nextStbaOptions _
           {| ts_tripId := "CITY1"; ts_stopId := "NADAV"; ts_routeId := "CITY";
              ts_routeName := "CITY"; ts_routeColor := None;
              ts_stopName := "North Ave / D Ave N"; ts_headsign := "City";
              ts_arrivalTime := mkDate 2 (Some 1199455200000);
              ts_departureTime := mkDate 3 (Some 1199455200000);
              ts_isRealtime := false |} eq_refl).
  - right. left. reflexivity.
  - intros r [<-|[]] [H _]. discriminate.
Defined.

(** *** The mode [nextPerRoute] *)

Lemma append_dash_inj a a' b b' :
  noDash a = true -> noDash a' = true ->
  a +:+ "-" +:+ b = a' +:+ "-" +:+ b' -> a = a' /\ b = b'.
Proof.
  revert a'. induction a as [|c a IH]; intros [|c' a'] Ha Ha' Heq; cbn in *.
  - injection Heq as Heq. change (b = b') in Heq. subst. split; reflexivity.
  - injection Heq as Hc _. subst c'. cbn in Ha'. discriminate.
  - injection Heq as Hc _. subst c. cbn in Ha. discriminate.
  - injection Heq as Hc Heq. subst c'.
    apply andb_true_iff in Ha, Ha'. destruct Ha as [_ Ha], Ha' as [_ Ha'].
    destruct (IH a' Ha Ha' Heq) as [Ha0 Hb0]. subst. split; reflexivity.
Qed.

Lemma addAll_acc trips (acc : gset string) k :
  k ∈ acc ->
  k ∈ fold_left (fun pairs trip => {[Schedule.pairKey trip]} ∪ pairs) trips acc.
Proof.
  revert acc. induction trips as [|t rest IH]; intros acc Hk; cbn [fold_left];
    [exact Hk|].
  apply IH. apply elem_of_union. right. exact Hk.
Qed.

Lemma addAll_In trips u :
  In u trips -> Schedule.pairKey u ∈ Schedule.addAll trips.
Proof.
  unfold Schedule.addAll. generalize (∅ : gset string).
  induction trips as [|t rest IH]; intros acc Hin; [destruct Hin|].
  cbn [fold_left]. destruct Hin as [->|Hin]; [|apply IH; exact Hin].
  apply addAll_acc. apply elem_of_union. left. apply elem_of_singleton. reflexivity.
Qed.

(** Every pair key that is still in the set is kept once. *)
Lemma filterFirstSeen_represents pairs l u :
  In u l -> Schedule.pairKey u ∈ pairs ->
  exists t, In t (Schedule.filterFirstSeen pairs l)
            /\ Schedule.pairKey t = Schedule.pairKey u.
Proof.
  revert pairs. induction l as [|a rest IH]; intros pairs Hin Hk; [destruct Hin|].
  cbn [Schedule.filterFirstSeen]. case_bool_decide as Ha.
  - destruct (decide (Schedule.pairKey u = Schedule.pairKey a)) as [Heq|Hne].
    + exists a. split; [left; reflexivity | symmetry; exact Heq].
    + destruct Hin as [->|Hin]; [congruence|].
      destruct (IH (pairs ∖ {[Schedule.pairKey a]}) Hin) as [t [Ht Hkt]].
      * apply elem_of_difference. split; [exact Hk|].
        intros Hs. apply elem_of_singleton in Hs. congruence.
      * exists t. split; [right; exact Ht | exact Hkt].
  - destruct Hin as [->|Hin]; [contradiction|]. apply IH; assumption.
Qed.

(** X13.  In the mode [nextPerRoute], when no asked route id holds a dash
    and the limit is at least the number of asked pairs, every asked pair
    that has a future trip is represented in the snapshot, by a trip that
    is no later than any future trip of the pair. *)
Theorem every_pair_is_represented provider now options upcoming res raw u :
  provider (map Schedule.toRouteAtStop (Schedule.routes options)) = Ok upcoming ->
  Schedule.getUpcomingTrips provider now options = Ok res ->
  Schedule.listMode options = Some Schedule.nextPerRoute ->
  Forall (fun r => noDash (Schedule.r_routeId r) = true) (Schedule.routes options) ->
  Z.of_nat (length (Schedule.routes options)) <= Schedule.limit options ->
  In raw upcoming ->
  Schedule.applyOffset (Schedule.routes options) raw = Ok u ->
  keyLt (Some (Schedule.seconds now))
    (Schedule.sortKeyOf (Schedule.sortByDeparture options) u) ->
  exists t,
    In t (Schedule.trips res)
    /\ Schedule.routeId t = Schedule.routeId u
    /\ Schedule.stopId t = Schedule.stopId u
    /\ keyLe (Schedule.sortKeyOf (Schedule.sortByDeparture options) t)
         (Schedule.sortKeyOf (Schedule.sortByDeparture options) u).
Proof.
  intros Hprov Hres Hmode Hdash Hlimit Hraw Hu Hfuture.
  pose proof Hres as Hres0.
  unfold Schedule.getUpcomingTrips in Hres. rewrite Hprov in Hres.
  cbn [bindR] in Hres.
  destruct (mapR (Schedule.applyOffset (Schedule.routes options)) upcoming)
    as [mapped|e] eqn:Hmap; [|discriminate].
  cbn [bindR] in Hres. rewrite Hmode in Hres.
  set (key := Schedule.sortKeyOf (Schedule.sortByDeparture options)) in *.
  set (trips0 := Schedule.sortWith
                   (fun a b => Schedule.compareKeys (key a) (key b))
                   (List.filter
                      (fun trip => Schedule.after (Schedule.seconds now) (key trip))
                      mapped)) in *.
  set (kept := Schedule.filterFirstSeen (Schedule.addAll trips0) trips0) in *.
  (* every kept trip belongs to an asked route without a dash *)
  assert (Hroute : forall t, In t kept ->
            exists r, In r (Schedule.routes options)
                      /\ Schedule.routeId t = Schedule.r_routeId r
                      /\ Schedule.stopId t = Schedule.r_stopId r).
  { intros t Ht. apply filterFirstSeen_In in Ht. destruct Ht as [Ht _].
    apply (proj1 (sortWith_In key t _)) in Ht.
    apply filter_In in Ht. destruct Ht as [Ht _].
    destruct (mapR_In_inv _ _ _ _ Hmap Ht) as [raw' [_ Hok]].
    destruct (applyOffset_Ok _ _ _ Hok) as [r (Hr & Hrid & Hsid & ->)].
    exists r. cbn. repeat split; [exact Hr | congruence | congruence]. }
  (* so there are no more kept trips than asked pairs *)
  assert (Hcount : (length kept <= length (Schedule.routes options))%nat).
  { rewrite <- (length_map Schedule.pairKey kept).
    rewrite <- (length_map
                  (fun r => Schedule.r_routeId r +:+ "-" +:+ Schedule.r_stopId r)
                  (Schedule.routes options)).
    apply NoDup_incl_length.
    - apply NoDup_ListNoDup. apply filterFirstSeen_NoDup.
    - intros k Hk. apply in_map_iff in Hk. destruct Hk as [t [<- Ht]].
      destruct (Hroute t Ht) as [r (Hr & Hrid & Hsid)].
      apply in_map_iff. exists r. split; [|exact Hr].
      unfold Schedule.pairKey. rewrite Hrid, Hsid. reflexivity. }
  injection Hres as <-. cbn [Schedule.trips]. fold kept.
  rewrite sliceTo_all by lia.
  (* the candidate is in the sorted list, and its key is represented *)
  assert (Hu0 : In u trips0).
  { apply (sortWith_In key). apply filter_In. split.
    - apply (mapR_In _ _ _ _ _ Hmap Hraw Hu).
    - apply after_true. exact Hfuture. }
  destruct (filterFirstSeen_represents (Schedule.addAll trips0) trips0 u Hu0
              (addAll_In trips0 u Hu0)) as [t [Ht Hkt]].
  exists t. split; [exact Ht|].
  assert (Hpair : Schedule.routeId t = Schedule.routeId u
                  /\ Schedule.stopId t = Schedule.stopId u).
  { destruct (Hroute t Ht) as [r (Hr & Hrid & _)].
    destruct (applyOffset_Ok _ _ _ Hu) as [r' (Hr' & Hrid' & _ & Hueq)].
    rewrite List.Forall_forall in Hdash.
    apply (append_dash_inj _ _ _ _).
    - rewrite Hrid. apply Hdash. exact Hr.
    - rewrite Hueq. cbn. rewrite <- Hrid'. apply Hdash. exact Hr'.
    - exact Hkt. }
  split; [exact (proj1 Hpair)|]. split; [exact (proj2 Hpair)|].
  assert (K0 : Forall (fun t => key t <> None)
                 (List.filter
                    (fun trip => Schedule.after (Schedule.seconds now) (key trip))
                    mapped)).
  { apply List.Forall_forall. intros x Hx. apply filter_In in Hx.
    destruct Hx as [_ Hx]. destruct (key x); [discriminate | discriminate Hx]. }
  assert (K1 : Forall (fun t => key t <> None) trips0).
  { rewrite List.Forall_forall in K0 |- *. intros x Hx.
    apply K0. apply (sortWith_In key). exact Hx. }
  apply (filterFirstSeen_earliest key (Schedule.addAll trips0) trips0 t u).
  - exact K1.
  - apply (sortWith_sorted key). exact K0.
  - exact Ht.
  - exact Hu0.
  - symmetry. exact Hkt.
Qed.

Lemma every_pair_is_represented_witness :
  exists t,
    In t (Schedule.trips
            (snapshotOf (Schedule.getUpcomingTrips twoDaysProvider testNow
                           nextStbaOptions)))
    /\ Schedule.routeId t = "STBA" /\ Schedule.stopId t = "STAGECOACH".
Proof.
  assert (Hres : Schedule.getUpcomingTrips twoDaysProvider testNow nextStbaOptions
                 = Ok (snapshotOf (Schedule.getUpcomingTrips twoDaysProvider testNow
                                     nextStbaOptions)))
    by (vm_compute; reflexivity).
  destruct (every_pair_is_represented twoDaysProvider testNow nextStbaOptions
              _ _ (stbaEntry 1199541600000 0) stbaNextDaySnapshotTrip
              eq_refl Hres eq_refl)
    as [t (Ht & Hr & Hs & _)].
  - constructor; [reflexivity | constructor].
  - vm_compute. discriminate.
  - left. reflexivity.
  - reflexivity.
  - vm_compute. reflexivity.
  - exists t. split; [exact Ht|]. split; [exact Hr | exact Hs].
Defined.


(** ** White space *)

Lemma ws1_code a : isWhiteSpace a = true -> (nat_of_ascii a <= 32)%nat.
Proof.
  unfold isWhiteSpace. intros H. apply orb_true_iff in H.
  destruct H as [H|H].
  - apply andb_true_iff in H. destruct H as [_ H]. apply Nat.leb_le in H. lia.
  - apply Nat.eqb_eq in H. lia.
Qed.

Lemma ws2_code a b :
  isWhiteSpace2 a b = true -> nat_of_ascii a = 194%nat /\ nat_of_ascii b = 160%nat.
Proof.
  unfold isWhiteSpace2. intros H. apply andb_true_iff in H.
  destruct H as [Ha Hb]. apply Nat.eqb_eq in Ha, Hb. split; assumption.
Qed.

Lemma ws3_code a b c :
  isWhiteSpace3 a b c = true ->
  (225 <= nat_of_ascii a)%nat
  /\ (128 <= nat_of_ascii b <= 191)%nat
  /\ (128 <= nat_of_ascii c <= 191)%nat.
Proof.
  unfold isWhiteSpace3. cbv zeta. intros H.
  repeat match type of H with
         | (_ || _) = true => apply orb_true_iff in H; destruct H as [H|H]
         end;
    repeat match goal with
           | H : (_ && _) = true |- _ =>
               apply andb_true_iff in H; destruct H
           | H : (_ || _) = true |- _ =>
               apply orb_true_iff in H; destruct H
           | H : Nat.eqb _ _ = true |- _ => apply Nat.eqb_eq in H
           | H : Nat.leb _ _ = true |- _ => apply Nat.leb_le in H
           end; lia.
Qed.

Ltac ws_codes :=
  repeat match goal with
         | H : isWhiteSpace _ = true |- _ => apply ws1_code in H
         | H : isWhiteSpace2 _ _ = true |- _ => apply ws2_code in H
         | H : isWhiteSpace3 _ _ _ = true |- _ => apply ws3_code in H
         end.

Ltac ws_false :=
  match goal with
  | |- ?b = false =>
      let E := fresh "E" in
      destruct b eqn:E; [exfalso; ws_codes; lia | reflexivity]
  end.

Lemma trimEnd_cons c rest :
  trimEnd (String c rest)
  = if isWhiteSpaceChar (String c (trimEnd rest)) then ""
    else String c (trimEnd rest).
Proof. reflexivity. Qed.

Lemma Blank_char t w : isWhiteSpaceChar t = true -> Blank w -> Blank (t +:+ w).
Proof.
  intros Ht Hw. destruct t as [|a [|b [|c [|d t]]]]; cbn in Ht; try discriminate.
  - apply Blank_1; assumption.
  - apply Blank_2; assumption.
  - apply Blank_3; assumption.
Qed.

Lemma trimEnd_Blank w : Blank w -> trimEnd w = "".
Proof.
  induction 1 as [|a w Ha Hw IH|a b w Hab Hw IH|a b c w Habc Hw IH].
  - reflexivity.
  - rewrite trimEnd_cons, IH. cbn [isWhiteSpaceChar]. rewrite Ha. reflexivity.
  - rewrite !trimEnd_cons, IH. cbn [isWhiteSpaceChar].
    assert (Hb : isWhiteSpace b = false) by ws_false.
    rewrite Hb. cbn [isWhiteSpaceChar]. rewrite Hab. reflexivity.
  - rewrite !trimEnd_cons, IH. cbn [isWhiteSpaceChar].
    assert (Hc : isWhiteSpace c = false) by ws_false.
    rewrite Hc. cbn [isWhiteSpaceChar].
    assert (Hbc : isWhiteSpace2 b c = false) by ws_false.
    rewrite Hbc. cbn [isWhiteSpaceChar]. rewrite Habc. reflexivity.
Qed.

Lemma trimEnd_app_ws p w : Blank w -> trimEnd (p +:+ w) = trimEnd p.
Proof.
  intros Hw. induction p as [|c p IH].
  - change ("" +:+ w) with w. apply trimEnd_Blank. exact Hw.
  - change (String c p +:+ w) with (String c (p +:+ w)).
    rewrite !trimEnd_cons, IH. reflexivity.
Qed.

(** [trimEnd] cuts a blank end off. *)
Lemma trimEnd_split s : exists w, s = trimEnd s +:+ w /\ Blank w.
Proof.
  induction s as [|c s [w [Hs Hw]]]; [exists ""; split; [reflexivity | constructor]|].
  rewrite trimEnd_cons.
  destruct (isWhiteSpaceChar (String c (trimEnd s))) eqn:Hk.
  - exists (String c (trimEnd s) +:+ w). split.
    + change (String c (trimEnd s) +:+ w) with (String c (trimEnd s +:+ w)).
      rewrite <- Hs. reflexivity.
    + apply Blank_char; assumption.
  - exists w. split; [|exact Hw].
    change (String c (trimEnd s) +:+ w) with (String c (trimEnd s +:+ w)).
    rewrite <- Hs. reflexivity.
Qed.

Lemma trimEnd_idem s : trimEnd (trimEnd s) = trimEnd s.
Proof.
  induction s as [|c s IH]; [reflexivity|]. rewrite trimEnd_cons.
  destruct (isWhiteSpaceChar (String c (trimEnd s))) eqn:Hk; [reflexivity|].
  rewrite trimEnd_cons, IH, Hk. reflexivity.
Qed.

Lemma trimEnd_length s : (String.length (trimEnd s) <= String.length s)%nat.
Proof.
  induction s as [|c s IH]; [reflexivity|]. rewrite trimEnd_cons.
  destruct (isWhiteSpaceChar _); cbn in *; lia.
Qed.

Lemma app_length_string a b :
  String.length (a +:+ b) = (String.length a + String.length b)%nat.
Proof.
  induction a as [|c a IH]; [reflexivity|].
  change (String c a +:+ b) with (String c (a +:+ b)). cbn. rewrite IH. reflexivity.
Qed.

Lemma app_assoc_string a b c : (a +:+ b) +:+ c = a +:+ (b +:+ c).
Proof.
  induction a as [|x a IH]; [reflexivity|].
  change ((String x a +:+ b) +:+ c) with (String x ((a +:+ b) +:+ c)).
  rewrite IH. reflexivity.
Qed.

Lemma app_cons_string c a b : String c a +:+ b = String c (a +:+ b).
Proof. reflexivity. Qed.

Lemma app_nil_string b : "" +:+ b = b.
Proof. reflexivity. Qed.

Lemma app_nil_r_string a : a +:+ "" = a.
Proof.
  induction a as [|c a IH]; [reflexivity|]. rewrite app_cons_string, IH. reflexivity.
Qed.

Lemma Blank_app w1 w2 : Blank w1 -> Blank w2 -> Blank (w1 +:+ w2).
Proof.
  induction 1; intros H2; rewrite ?app_cons_string, ?app_nil_string;
    [exact H2 | apply Blank_1 | apply Blank_2 | apply Blank_3]; auto.
Qed.

Lemma trimStart_Blank w : Blank w -> trimStart w = "".
Proof.
  induction 1 as [|a w Ha Hw IH|a b w Hab Hw IH|a b c w Habc Hw IH].
  - reflexivity.
  - cbn [trimStart]. rewrite Ha. exact IH.
  - cbn [trimStart].
    assert (Ha : isWhiteSpace a = false) by ws_false.
    rewrite Ha, Hab. exact IH.
  - cbn [trimStart].
    assert (Ha : isWhiteSpace a = false) by ws_false.
    assert (Hab : isWhiteSpace2 a b = false) by ws_false.
    rewrite Ha, Hab, Habc. exact IH.
Qed.

Lemma trimStart_app_ws w s : Blank w -> trimStart (w +:+ s) = trimStart s.
Proof.
  induction 1 as [|a w Ha Hw IH|a b w Hab Hw IH|a b c w Habc Hw IH].
  - reflexivity.
  - rewrite app_cons_string. cbn [trimStart]. rewrite Ha. exact IH.
  - rewrite !app_cons_string. cbn [trimStart].
    assert (Ha : isWhiteSpace a = false) by ws_false.
    rewrite Ha, Hab. exact IH.
  - rewrite !app_cons_string. cbn [trimStart].
    assert (Ha : isWhiteSpace a = false) by ws_false.
    assert (Hab : isWhiteSpace2 a b = false) by ws_false.
    rewrite Ha, Hab, Habc. exact IH.
Qed.

Lemma trimStart_fixed s : startsWithWhiteSpace s = false -> trimStart s = s.
Proof.
  destruct s as [|a [|b [|c s]]]; cbn [startsWithWhiteSpace trimStart];
    intros H; try reflexivity;
    repeat match type of H with
           | (_ || _) = false => apply orb_false_iff in H; destruct H as [? H]
           end;
    repeat match goal with
           | E : ?x = false |- context [if ?x then _ else _] => rewrite E
           end; try reflexivity; try (rewrite H; reflexivity).
Qed.

(** Statements about [trimStart] go by induction on the length. *)
Lemma trimStart_ind (P : string -> Prop) :
  (forall s, (forall t, (String.length t < String.length s)%nat -> P t) -> P s) ->
  forall s, P s.
Proof.
  intros H s.
  assert (Hn : forall n t, (String.length t < n)%nat -> P t).
  { induction n as [|n IH]; intros t Ht; [lia|].
    apply H. intros u Hu. apply IH. lia. }
  apply (Hn (S (String.length s))). lia.
Qed.

(** [trimStart] cuts a blank start off, and what is left does not start
    with white space. *)
Lemma trimStart_split s :
  exists w, s = w +:+ trimStart s /\ Blank w
            /\ startsWithWhiteSpace (trimStart s) = false.
Proof.
  induction s as [s IH] using trimStart_ind.
  destruct s as [|a rest1]; [exists ""; repeat split; constructor|].
  cbn [trimStart].
  destruct (isWhiteSpace a) eqn:Ha.
  { destruct (IH rest1) as [w (Hs & Hw & Hn)]; [cbn; lia|].
    exists (String a w). rewrite app_cons_string, <- Hs.
    repeat split; [constructor; assumption | exact Hn]. }
  destruct rest1 as [|b rest2].
  { exists "". repeat split; [constructor|].
    cbn [startsWithWhiteSpace]. rewrite Ha. reflexivity. }
  destruct (isWhiteSpace2 a b) eqn:Hab.
  { destruct (IH rest2) as [w (Hs & Hw & Hn)]; [cbn; lia|].
    exists (String a (String b w)). rewrite !app_cons_string, <- Hs.
    repeat split; [constructor; assumption | exact Hn]. }
  destruct rest2 as [|c rest3].
  { exists "". repeat split; [constructor|].
    cbn [startsWithWhiteSpace]. rewrite Ha, Hab. reflexivity. }
  destruct (isWhiteSpace3 a b c) eqn:Habc.
  { destruct (IH rest3) as [w (Hs & Hw & Hn)]; [cbn; lia|].
    exists (String a (String b (String c w))). rewrite !app_cons_string, <- Hs.
    repeat split; [constructor; assumption | exact Hn]. }
  exists "". repeat split; [constructor|].
  cbn [startsWithWhiteSpace]. rewrite Ha, Hab, Habc. reflexivity.
Qed.

Lemma startsWithWhiteSpace_prefix p w :
  startsWithWhiteSpace (p +:+ w) = false -> startsWithWhiteSpace p = false.
Proof.
  destruct p as [|a [|b [|c p]]]; rewrite ?app_cons_string, ?app_nil_string;
    cbn [startsWithWhiteSpace]; intros H; try reflexivity.
  - apply orb_false_iff in H. destruct H as [-> _]. reflexivity.
  - apply orb_false_iff in H. destruct H as [-> H]. cbn [orb].
    destruct w as [|x w]; [exact H|].
    apply orb_false_iff in H. destruct H as [-> _]. reflexivity.
  - exact H.
Qed.

Lemma Blank_starts w : Blank w -> w = "" \/ startsWithWhiteSpace w = true.
Proof.
  destruct 1 as [|a w Ha Hw|a b w Hab Hw|a b c w Habc Hw]; [left; reflexivity|..];
    right; cbn [startsWithWhiteSpace].
  - rewrite Ha. reflexivity.
  - rewrite Hab, orb_true_r. reflexivity.
  - rewrite Habc, !orb_true_r. reflexivity.
Qed.

Lemma trim_idem s : trim (trim s) = trim s.
Proof.
  unfold trim.
  destruct (trimStart_split s) as [w (_ & _ & Hn)].
  destruct (trimEnd_split (trimStart s)) as [w' [Hs' _]].
  rewrite Hs' in Hn. apply startsWithWhiteSpace_prefix in Hn.
  rewrite (trimStart_fixed _ Hn). apply trimEnd_idem.
Qed.

Lemma trimEnd_of_trimmed s : trim s = s -> trimEnd s = s.
Proof. intros H. rewrite <- H at 1. unfold trim. rewrite trimEnd_idem. exact H. Qed.

Lemma trimStart_of_trimmed s : trim s = s -> trimStart s = s.
Proof.
  intros H. rewrite <- H. unfold trim.
  destruct (trimStart_split s) as [w (_ & _ & Hn)].
  destruct (trimEnd_split (trimStart s)) as [w' [Hs' _]].
  rewrite Hs' in Hn. apply startsWithWhiteSpace_prefix in Hn.
  apply trimStart_fixed. exact Hn.
Qed.

Lemma allWs_Blank s : allWs s = true <-> Blank s.
Proof.
  split.
  - induction s as [s IH] using trimStart_ind.
    destruct s as [|a rest1]; [constructor|]. cbn [allWs].
    destruct (isWhiteSpace a) eqn:Ha.
    { intros H. apply Blank_1; [exact Ha | apply IH; [cbn; lia | exact H]]. }
    destruct rest1 as [|b rest2]; [discriminate|].
    destruct (isWhiteSpace2 a b) eqn:Hab.
    { intros H. apply Blank_2; [exact Hab | apply IH; [cbn; lia | exact H]]. }
    destruct rest2 as [|c rest3]; [discriminate|].
    intros H. apply andb_true_iff in H. destruct H as [Habc H].
    apply Blank_3; [exact Habc | apply IH; [cbn; lia | exact H]].
  - induction 1 as [|a w Ha Hw IH|a b w Hab Hw IH|a b c w Habc Hw IH].
    + reflexivity.
    + cbn [allWs]. rewrite Ha. exact IH.
    + cbn [allWs].
      assert (Ha : isWhiteSpace a = false) by ws_false.
      rewrite Ha, Hab. exact IH.
    + cbn [allWs].
      assert (Ha : isWhiteSpace a = false) by ws_false.
      assert (Hab : isWhiteSpace2 a b = false) by ws_false.
      rewrite Ha, Hab, Habc, IH. reflexivity.
Qed.

Lemma trim_Blank s : Blank s -> trim s = "".
Proof. intros H. unfold trim. rewrite (trimStart_Blank s H). reflexivity. Qed.

Lemma trim_empty_Blank s : trim s = "" -> Blank s.
Proof.
  unfold trim. intros H.
  destruct (trimStart_split s) as [w (Hs & Hw & Hn)].
  destruct (trimEnd_split (trimStart s)) as [w' [Hs' Hw']].
  rewrite H in Hs'. rewrite app_nil_string in Hs'.
  destruct (Blank_starts w' Hw') as [->|Hst].
  - rewrite Hs' in Hs. rewrite app_nil_r_string in Hs. rewrite Hs. exact Hw.
  - rewrite Hs' in Hn. congruence.
Qed.

Lemma trim_allWs s : allWs s = true -> trim s = "".
Proof. intros H. apply trim_Blank, allWs_Blank, H. Qed.

Lemma trim_of_ink s : allWs s = false -> trim s <> "".
Proof.
  intros Hs Ht. apply trim_empty_Blank, allWs_Blank in Ht. congruence.
Qed.

(** A character below U+0080 that is not white space starts no white
    space character. *)
Lemma trimEnd_cons_ink c rest :
  (nat_of_ascii c < 128)%nat -> isWhiteSpace c = false ->
  trimEnd (String c rest) = String c (trimEnd rest).
Proof.
  intros Hc Hw. rewrite trimEnd_cons.
  assert (Hk : isWhiteSpaceChar (String c (trimEnd rest)) = false).
  { destruct (trimEnd rest) as [|b [|d [|x t]]]; cbn [isWhiteSpaceChar];
      [exact Hw | ws_false | ws_false | reflexivity]. }
  rewrite Hk. reflexivity.
Qed.

Lemma startsWithWhiteSpace_ink c rest :
  (nat_of_ascii c < 128)%nat -> isWhiteSpace c = false ->
  startsWithWhiteSpace (String c rest) = false.
Proof.
  intros Hc Hw. cbn [startsWithWhiteSpace]. rewrite Hw. cbn [orb].
  destruct rest as [|b [|d t]]; [reflexivity | |].
  - rewrite orb_false_r. ws_false.
  - apply orb_false_iff. split; ws_false.
Qed.

Lemma inked_trimEnd s : inked s = true -> trimEnd s = s.
Proof.
  induction s as [|c s IH]; [reflexivity|]. cbn [inked]. intros H.
  apply andb_true_iff in H. destruct H as [H Hs].
  apply andb_true_iff in H. destruct H as [Hc Hw].
  apply Nat.ltb_lt in Hc. apply negb_true_iff in Hw.
  rewrite (trimEnd_cons_ink c s Hc Hw), (IH Hs). reflexivity.
Qed.

Lemma inked_trim s : inked s = true -> trim s = s.
Proof.
  intros H. unfold trim.
  assert (Hstart : trimStart s = s).
  { destruct s as [|c s]; [reflexivity|]. cbn [inked] in H.
    apply andb_true_iff in H. destruct H as [H _].
    apply andb_true_iff in H. destruct H as [Hc Hw].
    apply Nat.ltb_lt in Hc. apply negb_true_iff in Hw.
    apply trimStart_fixed, startsWithWhiteSpace_ink; assumption. }
  rewrite Hstart. apply inked_trimEnd. exact H.
Qed.

(** ** Cutting and joining *)

Lemma occursIn_app c a b : occursIn c (a +:+ b) = occursIn c a || occursIn c b.
Proof.
  induction a as [|d a IH]; [reflexivity|].
  rewrite app_cons_string. cbn [occursIn]. rewrite IH, orb_assoc. reflexivity.
Qed.

Lemma split_none sep s : occursIn sep s = false -> split sep s = [s].
Proof.
  induction s as [|c s IH]; [reflexivity|]. cbn [occursIn split].
  intros H. apply orb_false_iff in H. destruct H as [Hc Hs].
  rewrite Hc, (IH Hs). reflexivity.
Qed.

Lemma split_app sep a b :
  occursIn sep a = false ->
  split sep (a +:+ String sep b) = a :: split sep b.
Proof.
  induction a as [|c a IH]; intros H.
  - rewrite app_nil_string. cbn [split]. rewrite Ascii.eqb_refl. reflexivity.
  - cbn [occursIn] in H. apply orb_false_iff in H. destruct H as [Hc Ha].
    rewrite app_cons_string. cbn [split]. rewrite Hc, (IH Ha). reflexivity.
Qed.

(** Cutting what was joined gives the parts back. *)
Lemma split_join sep parts :
  parts <> [] -> Forall (fun part => occursIn sep part = false) parts ->
  split sep (join sep parts) = parts.
Proof.
  intros Hne Hall. induction Hall as [|p rest Hp Hrest IH]; [congruence|].
  destruct rest as [|q rest].
  - cbn [join]. apply split_none. exact Hp.
  - change (join sep (p :: q :: rest)) with (p +:+ String sep (join sep (q :: rest))).
    rewrite (split_app sep p _ Hp), IH by discriminate. reflexivity.
Qed.

(** Every string is its parts joined; no part holds the separator. *)
Lemma join_split sep s :
  join sep (split sep s) = s
  /\ split sep s <> []
  /\ Forall (fun part => occursIn sep part = false) (split sep s).
Proof.
  induction s as [|c s (Hj & Hne & Hall)].
  - cbn. repeat split; [discriminate | repeat constructor].
  - cbn [split]. destruct (Ascii.eqb c sep) eqn:Hc.
    + apply Ascii.eqb_eq in Hc. subst c. repeat split; [|discriminate|].
      * destruct (split sep s) as [|p ps]; [congruence|].
        change (join sep ("" :: p :: ps)) with (String sep (join sep (p :: ps))).
        rewrite Hj. reflexivity.
      * constructor; [reflexivity | exact Hall].
    + destruct (split sep s) as [|p ps]; [congruence|].
      repeat split; [|discriminate|].
      * destruct ps as [|q ps].
        -- cbn [join] in *. rewrite Hj. reflexivity.
        -- change (join sep (String c p :: q :: ps))
             with (String c (p +:+ String sep (join sep (q :: ps)))).
           change (join sep (p :: q :: ps))
             with (p +:+ String sep (join sep (q :: ps))) in Hj.
           rewrite Hj. reflexivity.
      * inversion Hall as [|? ? Hp Hps]; subst.
        constructor; [|exact Hps]. cbn [occursIn]. rewrite Hc, Hp. reflexivity.
Qed.

(** ** Reading an offset *)

Lemma readDigits_Some radix a s : readDigits radix (Some a) s <> None.
Proof.
  revert a. induction s as [|c s IH]; intros a; cbn [readDigits]; [discriminate|].
  destruct (digitIn radix c); [apply IH | discriminate].
Qed.

Lemma toNumber_notNaN negative m : isNaN (toNumber negative m) = false.
Proof. unfold toNumber. destruct (_ <=? _)%Z; reflexivity. Qed.

Ltac digit_cases :=
  repeat match goal with
         | |- context [(?a <=? ?b)%Z] =>
             destruct (Z.leb_spec a b); try lia; cbn [andb orb]
         | |- context [(?a <? ?b)%Z] =>
             destruct (Z.ltb_spec a b); try lia; cbn [is_Some_b]
         end;
  try reflexivity; try lia.

Lemma digitIn_decimal c : is_Some_b (digitIn 10 c) = isDecimalDigit c.
Proof.
  unfold digitIn, digitValue, isDecimalDigit. cbv zeta.
  generalize (nat_of_ascii c). intros n.
  destruct (Nat.leb_spec 48 n); destruct (Nat.leb_spec n 57); cbn [andb];
    digit_cases.
Qed.

Lemma digitIn_hex c : is_Some_b (digitIn 16 c) = isHexDigit c.
Proof.
  unfold digitIn, digitValue, isHexDigit, isDecimalDigit. cbv zeta.
  generalize (nat_of_ascii c). intros n.
  destruct (Nat.leb_spec 48 n); destruct (Nat.leb_spec n 57);
    destruct (Nat.leb_spec 97 n); destruct (Nat.leb_spec n 102);
    destruct (Nat.leb_spec 65 n); destruct (Nat.leb_spec n 70);
    cbn [andb orb]; try lia; digit_cases.
Qed.

(** [parseInt] gives [NaN] exactly when, after white space and one sign,
    no number starts. *)
Lemma parseInt_isNaN x :
  isNaN (parseInt x) = negb (startsWithDigits (snd (stripSign (trimStart x)))).
Proof.
  unfold parseInt.
  destruct (stripSign (trimStart x)) as [negative s1]. cbn [snd].
  assert (Hread : forall radix s2,
    isNaN match readDigits radix None s2 with
          | Some v => toNumber negative v
          | None => NaN
          end
    = negb match s2 with
           | String c _ => is_Some_b (digitIn radix c)
           | EmptyString => false
           end).
  { intros radix [|c s2]; [reflexivity|]. cbn [readDigits].
    destruct (digitIn radix c) as [d|]; [|reflexivity]. cbn [is_Some_b negb].
    destruct (readDigits radix (Some d) s2) as [v|] eqn:Hv;
      [apply toNumber_notNaN | destruct (readDigits_Some _ _ _ Hv)]. }
  assert (Hdec : forall s, stripHexPrefix s = (10, s) ->
                 isNaN (let (radix, s2) := stripHexPrefix s in
                        match readDigits radix None s2 with
                        | Some v => toNumber negative v
                        | None => NaN
                        end)
                 = negb match s with
                        | String d _ => isDecimalDigit d
                        | EmptyString => false
                        end).
  { intros s Hs. rewrite Hs, Hread. destruct s as [|d s]; [reflexivity|].
    rewrite digitIn_decimal. reflexivity. }
  destruct s1 as [|a [|b rest]]; try (apply Hdec; reflexivity).
  - rewrite Hdec by (destruct a as [[] [] [] [] [] [] [] []]; reflexivity).
    destruct a as [[] [] [] [] [] [] [] []]; reflexivity.
  - destruct (Ascii.eqb a "0") eqn:Ha.
    + apply Ascii.eqb_eq in Ha. subst a.
      destruct (Ascii.eqb b "x") eqn:Hx.
      * apply Ascii.eqb_eq in Hx. subst b.
        cbn [stripHexPrefix startsWithDigits]. rewrite Hread.
        destruct rest as [|h rest]; [reflexivity|]. rewrite digitIn_hex. reflexivity.
      * destruct (Ascii.eqb b "X") eqn:HX.
        -- apply Ascii.eqb_eq in HX. subst b.
           cbn [stripHexPrefix startsWithDigits]. rewrite Hread.
           destruct rest as [|h rest]; [reflexivity|]. rewrite digitIn_hex.
           reflexivity.
        -- assert (Hs : stripHexPrefix (String "0" (String b rest))
                        = (10, String "0" (String b rest))).
           { apply Ascii.eqb_neq in Hx, HX.
             destruct b as [[] [] [] [] [] [] [] []]; try reflexivity; congruence. }
           rewrite (Hdec _ Hs).
           apply Ascii.eqb_neq in Hx, HX.
           destruct b as [[] [] [] [] [] [] [] []]; try reflexivity; congruence.
    + assert (Hs : stripHexPrefix (String a (String b rest))
                   = (10, String a (String b rest))).
      { apply Ascii.eqb_neq in Ha.
        destruct a as [[] [] [] [] [] [] [] []]; try reflexivity; congruence. }
      rewrite (Hdec _ Hs).
      apply Ascii.eqb_neq in Ha.
      destruct a as [[] [] [] [] [] [] [] []]; try reflexivity; congruence.
Qed.

Lemma startsWithDigits_one d : startsWithDigits (String d "") = isDecimalDigit d.
Proof. destruct d as [[] [] [] [] [] [] [] []]; reflexivity. Qed.

Lemma startsWithDigits_two d b rest :
  startsWithDigits (String d (String b rest))
  = if isHexPrefix d b
    then match rest with
         | String h _ => isHexDigit h
         | EmptyString => false
         end
    else isDecimalDigit d.
Proof.
  unfold isHexPrefix.
  destruct (Ascii.eqb d "0") eqn:Hd; cbn [andb].
  - apply Ascii.eqb_eq in Hd. subst d.
    destruct (Ascii.eqb b "x") eqn:Hx; cbn [orb].
    + apply Ascii.eqb_eq in Hx. subst b. reflexivity.
    + destruct (Ascii.eqb b "X") eqn:HX.
      * apply Ascii.eqb_eq in HX. subst b. reflexivity.
      * apply Ascii.eqb_neq in Hx, HX.
        destruct b as [[] [] [] [] [] [] [] []]; try reflexivity; congruence.
  - apply Ascii.eqb_neq in Hd.
    destruct d as [[] [] [] [] [] [] [] []]; try reflexivity; congruence.
Qed.

Lemma decimal_ink d :
  isDecimalDigit d = true -> (nat_of_ascii d < 128)%nat /\ isWhiteSpace d = false.
Proof.
  unfold isDecimalDigit, isWhiteSpace. cbv zeta. generalize (nat_of_ascii d).
  intros n H. apply andb_true_iff in H. destruct H as [H1 H2].
  apply Nat.leb_le in H1, H2. split; [lia|].
  apply orb_false_iff. split.
  - apply andb_false_iff. right. apply Nat.leb_gt. lia.
  - apply Nat.eqb_neq. lia.
Qed.

Lemma hex_ink h :
  isHexDigit h = true -> (nat_of_ascii h < 128)%nat /\ isWhiteSpace h = false.
Proof.
  unfold isHexDigit, isDecimalDigit, isWhiteSpace. cbv zeta.
  generalize (nat_of_ascii h). intros n H.
  assert (Hn : (48 <= n <= 102)%nat).
  { repeat match goal with
           | H : (_ || _) = true |- _ => apply orb_true_iff in H; destruct H as [H|H]
           | H : (_ && _) = true |- _ => apply andb_true_iff in H; destruct H
           | H : Nat.leb _ _ = true |- _ => apply Nat.leb_le in H
           end; lia. }
  split; [lia|]. apply orb_false_iff. split.
  - apply andb_false_iff. right. apply Nat.leb_gt. lia.
  - apply Nat.eqb_neq. lia.
Qed.

Lemma hexPrefix_ink d b :
  isHexPrefix d b = true ->
  ((nat_of_ascii d < 128)%nat /\ isWhiteSpace d = false)
  /\ ((nat_of_ascii b < 128)%nat /\ isWhiteSpace b = false).
Proof.
  unfold isHexPrefix. intros H. apply andb_true_iff in H. destruct H as [Hd Hb].
  apply Ascii.eqb_eq in Hd. subst d.
  apply orb_true_iff in Hb. destruct Hb as [Hb|Hb]; apply Ascii.eqb_eq in Hb;
    subst b; repeat split; try reflexivity; vm_compute; lia.
Qed.

Lemma trimEnd_first b s :
  trimEnd (String b s) = "" \/ exists s', trimEnd (String b s) = String b s'.
Proof. rewrite trimEnd_cons. destruct (isWhiteSpaceChar _); eauto. Qed.

(** White space behind a number, or its removal, leaves the number. *)
Lemma startsWithDigits_trimEnd body :
  startsWithDigits body = true -> startsWithDigits (trimEnd body) = true.
Proof.
  destruct body as [|d [|b rest]]; [discriminate | |].
  - rewrite startsWithDigits_one. intros Hd.
    destruct (decimal_ink d Hd) as [Hc Hw].
    rewrite (trimEnd_cons_ink d "" Hc Hw). cbn [trimEnd].
    rewrite startsWithDigits_one. exact Hd.
  - rewrite startsWithDigits_two.
    destruct (isHexPrefix d b) eqn:Hp.
    + destruct rest as [|h rest]; [discriminate|]. intros Hh.
      destruct (hexPrefix_ink d b Hp) as [[Hdc Hdw] [Hbc Hbw]].
      destruct (hex_ink h Hh) as [Hhc Hhw].
      rewrite (trimEnd_cons_ink d _ Hdc Hdw), (trimEnd_cons_ink b _ Hbc Hbw),
        (trimEnd_cons_ink h _ Hhc Hhw).
      rewrite startsWithDigits_two, Hp. exact Hh.
    + intros Hd. destruct (decimal_ink d Hd) as [Hc Hw].
      rewrite (trimEnd_cons_ink d _ Hc Hw).
      destruct (trimEnd_first b rest) as [->|[s' ->]].
      * rewrite startsWithDigits_one. exact Hd.
      * rewrite startsWithDigits_two, Hp. exact Hd.
Qed.

Lemma Blank_first_byte a w :
  Blank (String a w) -> isWhiteSpace a = true \/ (194 <= nat_of_ascii a)%nat.
Proof.
  intros H. inversion H as [|? ? Ha|? ? ? Hab|? ? ? ? Habc]; subst.
  - left. exact Ha.
  - right. apply ws2_code in Hab. lia.
  - right. apply ws3_code in Habc. lia.
Qed.

Lemma startsWithDigits_app_blank body w :
  startsWithDigits body = true -> Blank w ->
  startsWithDigits (body +:+ w) = true.
Proof.
  intros Hb Hw. destruct body as [|d [|b rest]]; [discriminate | |].
  - rewrite startsWithDigits_one in Hb. rewrite app_cons_string, app_nil_string.
    destruct w as [|a w]; [rewrite startsWithDigits_one; exact Hb|].
    rewrite startsWithDigits_two.
    assert (Hp : isHexPrefix d a = false).
    { unfold isHexPrefix. apply andb_false_iff. right.
      destruct (Blank_first_byte a w Hw) as [Ha|Ha].
      - apply ws1_code in Ha. apply orb_false_iff.
        split; apply Ascii.eqb_neq; intros ->; vm_compute in Ha; lia.
      - apply orb_false_iff.
        split; apply Ascii.eqb_neq; intros ->; vm_compute in Ha; lia. }
    rewrite Hp. exact Hb.
  - rewrite startsWithDigits_two in Hb. rewrite !app_cons_string.
    rewrite startsWithDigits_two.
    destruct (isHexPrefix d b); [|exact Hb].
    destruct rest as [|h rest]; [discriminate|]. exact Hb.
Qed.

Lemma sign_cases x :
  exists sign,
    x = sign +:+ snd (stripSign x)
    /\ (sign = "" \/ sign = "+" \/ sign = "-").
Proof.
  destruct x as [|c x]; [exists ""; split; [reflexivity | tauto]|].
  destruct (Ascii.eqb c "-") eqn:Hm.
  { apply Ascii.eqb_eq in Hm. subst c. exists "-". split; [reflexivity | tauto]. }
  destruct (Ascii.eqb c "+") eqn:Hp.
  { apply Ascii.eqb_eq in Hp. subst c. exists "+". split; [reflexivity | tauto]. }
  exists "". split; [|tauto].
  apply Ascii.eqb_neq in Hm, Hp.
  destruct c as [[] [] [] [] [] [] [] []]; try reflexivity; congruence.
Qed.

Lemma digits_not_sign body :
  startsWithDigits body = true -> snd (stripSign body) = body.
Proof.
  destruct body as [|d rest]; [discriminate|].
  destruct (Ascii.eqb d "-") eqn:Hm.
  { apply Ascii.eqb_eq in Hm. subst d. destruct rest; discriminate. }
  destruct (Ascii.eqb d "+") eqn:Hp.
  { apply Ascii.eqb_eq in Hp. subst d. destruct rest; discriminate. }
  intros _. apply Ascii.eqb_neq in Hm, Hp.
  destruct d as [[] [] [] [] [] [] [] []]; try reflexivity; congruence.
Qed.

Lemma digits_first body :
  startsWithDigits body = true ->
  exists d rest, body = String d rest
                 /\ (nat_of_ascii d < 128)%nat /\ isWhiteSpace d = false.
Proof.
  destruct body as [|d [|b rest]]; [discriminate | |].
  - rewrite startsWithDigits_one. intros Hd. exists d, "".
    split; [reflexivity | apply decimal_ink; exact Hd].
  - rewrite startsWithDigits_two. destruct (isHexPrefix d b) eqn:Hp.
    + intros _. exists d, (String b rest). split; [reflexivity|].
      apply (hexPrefix_ink d b Hp).
    + intros Hd. exists d, (String b rest).
      split; [reflexivity | apply decimal_ink; exact Hd].
Qed.

(** The offset of a tuple is read exactly when it can be read. *)
Lemma parseInt_trim_readable part :
  isNaN (parseInt (trim part)) = false <-> readableOffset part.
Proof.
  rewrite parseInt_isNaN, (trimStart_of_trimmed _ (trim_idem part)),
    negb_false_iff.
  split.
  - intros Hdigits. unfold trim in Hdigits.
    destruct (trimStart_split part) as [w (Hpart & Hw & _)].
    destruct (trimEnd_split (trimStart part)) as [w2 [Ht Hw2]].
    destruct (sign_cases (trimEnd (trimStart part))) as [sign [Hx Hsign]].
    exists w, sign, (snd (stripSign (trimEnd (trimStart part))) +:+ w2).
    split; [|split; [exact (proj2 (allWs_Blank w) Hw)|split; [exact Hsign|]]].
    + rewrite <- (app_assoc_string sign), <- Hx, <- Ht. exact Hpart.
    + apply startsWithDigits_app_blank; assumption.
  - intros (w & sign & body & -> & Hw & Hsign & Hbody).
    unfold trim. rewrite (trimStart_app_ws w _ (proj1 (allWs_Blank w) Hw)).
    destruct (digits_first body Hbody) as [d [rest (-> & Hdc & Hdw)]].
    destruct Hsign as [->|[->| ->]].
    + rewrite app_nil_string.
      rewrite (trimStart_fixed _ (startsWithWhiteSpace_ink d rest Hdc Hdw)).
      rewrite (digits_not_sign _ (startsWithDigits_trimEnd _ Hbody)).
      apply startsWithDigits_trimEnd. exact Hbody.
    + change ("+" +:+ String d rest) with (String "+" (String d rest)).
      rewrite trimStart_fixed
        by (apply startsWithWhiteSpace_ink; [vm_compute; lia | reflexivity]).
      rewrite trimEnd_cons_ink by (first [reflexivity | vm_compute; lia]).
      cbn [stripSign snd]. apply startsWithDigits_trimEnd. exact Hbody.
    + change ("-" +:+ String d rest) with (String "-" (String d rest)).
      rewrite trimStart_fixed
        by (apply startsWithWhiteSpace_ink; [vm_compute; lia | reflexivity]).
      rewrite trimEnd_cons_ink by (first [reflexivity | vm_compute; lia]).
      cbn [stripSign snd]. apply startsWithDigits_trimEnd. exact Hbody.
Qed.

(** ** [parseRouteStopPairs] *)

Lemma mapR_Ok_iff {E A B} (f : A -> Result E B) xs :
  (exists ys, mapR f xs = Ok ys) <-> Forall (fun x => exists y, f x = Ok y) xs.
Proof.
  induction xs as [|x rest IH]; cbn [mapR].
  - split; [constructor | eexists; reflexivity].
  - split.
    + intros [ys Hys]. destruct (f x) as [y|e] eqn:Hx; cbn [bindR] in Hys;
        [|discriminate].
      destruct (mapR f rest) as [ys'|e] eqn:Hrest; cbn [bindR] in Hys;
        [|discriminate].
      constructor; [eauto | apply IH; eauto].
    + intros H. apply Forall_cons in H. destruct H as [[y Hy] Hrest].
      apply IH in Hrest. destruct Hrest as [ys Hys].
      rewrite Hy, Hys. eexists; reflexivity.
Qed.

Lemma mapR_Forall2 {E A B C} (f : B -> Result E C) (g : A -> B) xs ys :
  mapR f (map g xs) = Ok ys -> Forall2 (fun x y => f (g x) = Ok y) xs ys.
Proof.
  revert ys. induction xs as [|x rest IH]; intros ys; cbn [map mapR].
  - intros H. injection H as <-. constructor.
  - destruct (f (g x)) as [y|e] eqn:Hx; cbn [bindR]; [|discriminate].
    destruct (mapR f (map g rest)) as [ys'|e]; cbn [bindR]; [|discriminate].
    intros H. injection H as <-. constructor; [exact Hx | apply IH; reflexivity].
Qed.

Lemma truthyString_Some o s :
  truthyString o = Some s <-> o = Some s /\ s <> "".
Proof.
  unfold truthyString. destruct o as [[|c t]|]; cbn; split; intros H;
    try discriminate;
    try (destruct H; congruence);
    try (injection H as <-; split; [reflexivity | discriminate]).
Qed.

Lemma truthyString_trim part :
  truthyString (Some (trim part))
  = if allWs part then None else Some (trim part).
Proof.
  destruct (allWs part) eqn:Hp.
  - rewrite (trim_allWs _ Hp). reflexivity.
  - pose proof (trim_of_ink _ Hp) as Hne.
    destruct (trim part); [congruence | reflexivity].
Qed.

(** What [checkPair] makes of the trimmed parts of one tuple. *)
Lemma checkPair_parts parts p :
  Schedule.checkPair (Schedule.toRawPair (map trim parts)) = Ok p
  <-> exists route stop more,
        parts = route :: stop :: more
        /\ allWs route = false /\ allWs stop = false
        /\ isNaN (Schedule.offset p) = false
        /\ Schedule.r_routeId p = trim route
        /\ Schedule.r_stopId p = trim stop
        /\ Schedule.offset p
           = parseInt (match more with o :: _ => trim o | [] => "0" end).
Proof.
  unfold Schedule.checkPair, Schedule.toRawPair.
  cbn [Schedule.raw_routeId Schedule.raw_stopId Schedule.raw_offset].
  destruct parts as [|route [|stop more]].
  - cbn. split; [discriminate | intros (? & ? & ? & ? & _); discriminate].
  - cbn [map nth_error]. destruct (truthyString (Some (trim route))); cbn;
      (split; [discriminate | intros (? & ? & ? & ? & _); discriminate]).
  - assert (Hoff : match nth_error (map trim (route :: stop :: more)) 2 with
                   | Some o => o
                   | None => "0"
                   end = match more with o :: _ => trim o | [] => "0" end)
      by (destruct more; reflexivity).
    rewrite Hoff. clear Hoff. cbn [map nth_error].
    rewrite !truthyString_trim.
    set (o := parseInt _).
    destruct (allWs route) eqn:Hr.
    { split; [discriminate|]. intros (r & s & m & Heq & Hr' & _).
      injection Heq as <- <- <-. congruence. }
    destruct (allWs stop) eqn:Hs.
    { split; [discriminate|]. intros (r & s & m & Heq & _ & Hs' & _).
      injection Heq as <- <- <-. congruence. }
    destruct (isNaN o) eqn:Ho.
    { split; [discriminate|]. intros (r & s & m & Heq & _ & _ & Hn & _ & _ & Hp).
      injection Heq as <- <- <-. fold o in Hp. congruence. }
    split.
    + intros H. injection H as <-. exists route, stop, more.
      cbn [Schedule.offset Schedule.r_routeId Schedule.r_stopId]. tauto.
    + intros (r & s & m & Heq & _ & _ & _ & Hpr & Hps & Hpo).
      injection Heq as <- <- <-. fold o in Hpo.
      destruct p as [pr ps po]. cbn in Hpr, Hps, Hpo. subst. reflexivity.
Qed.

Lemma checkPair_accepts_parts parts :
  (exists p, Schedule.checkPair (Schedule.toRawPair (map trim parts)) = Ok p)
  <-> acceptedParts parts.
Proof.
  split.
  - intros [p Hp]. apply checkPair_parts in Hp.
    destruct Hp as (route & stop & more & -> & Hr & Hs & Hn & _ & _ & Ho).
    cbn [acceptedParts]. split; [exact Hr|]. split; [exact Hs|].
    destruct more as [|o more]; [exact I|].
    apply parseInt_trim_readable. rewrite <- Ho. exact Hn.
  - destruct parts as [|route [|stop more]]; cbn [acceptedParts]; try tauto.
    intros (Hr & Hs & Ho).
    exists {| Schedule.r_routeId := trim route; Schedule.r_stopId := trim stop;
              Schedule.offset :=
                parseInt (match more with o :: _ => trim o | [] => "0" end) |}.
    apply checkPair_parts. exists route, stop, more.
    cbn [Schedule.offset Schedule.r_routeId Schedule.r_stopId].
    repeat split; try assumption.
    destruct more as [|o more]; [reflexivity|].
    apply parseInt_trim_readable. exact Ho.
Qed.

Lemma acceptedParts_nonempty parts : acceptedParts parts -> parts <> [].
Proof. destruct parts; [intros [] | discriminate]. Qed.

Lemma checkPair_accepts tuple :
  (exists p,
     Schedule.checkPair (Schedule.toRawPair (map trim (split "," tuple))) = Ok p)
  <-> acceptedTuple tuple.
Proof.
  rewrite checkPair_accepts_parts. unfold acceptedTuple. split.
  - intros H. exists (split "," tuple).
    destruct (join_split "," tuple) as (Hj & _ & Hall). auto.
  - intros (parts & -> & Hall & Hparts).
    rewrite (split_join "," parts (acceptedParts_nonempty _ Hparts) Hall).
    exact Hparts.
Qed.

(** X14.  The parser accepts a string exactly when it is a non-empty
    list of accepted tuples with semicolons between them; a tuple is
    accepted when it is made of parts with commas between them, the
    first two holding more than white space and the third, when there is
    one, an optional sign and the digits of a number behind optional
    white space.  The answer then has one pair per tuple, in order: the
    trimmed route and stop, and the number read from the third part, 0
    when there is none; parts after the third are ignored. *)
Theorem parseRouteStopPairs_accepts raw :
  ((exists pairs, Schedule.parseRouteStopPairs raw = Ok pairs)
   <-> exists tuples,
         tuples <> [] /\ raw = join ";" tuples
         /\ Forall (fun tuple => occursIn ";" tuple = false) tuples
         /\ Forall acceptedTuple tuples)
  /\ (forall tuples pairs,
        tuples <> [] -> raw = join ";" tuples ->
        Forall (fun tuple => occursIn ";" tuple = false) tuples ->
        Schedule.parseRouteStopPairs raw = Ok pairs ->
        Forall2
          (fun tuple p =>
             exists route stop more,
               tuple = join "," (route :: stop :: more)
               /\ Forall (fun part => occursIn "," part = false)
                    (route :: stop :: more)
               /\ Schedule.r_routeId p = trim route
               /\ Schedule.r_routeId p <> ""
               /\ Schedule.r_stopId p = trim stop
               /\ Schedule.r_stopId p <> ""
               /\ Schedule.offset p
                  = parseInt (match more with o :: _ => trim o | [] => "0" end)
               /\ isNaN (Schedule.offset p) = false)
          tuples pairs).
Proof.
  unfold Schedule.parseRouteStopPairs. split.
  - rewrite mapR_Ok_iff, !List.Forall_map. split.
    + intros H. exists (split ";" raw).
      destruct (join_split ";" raw) as (Hj & Hne & Hall).
      split; [exact Hne|]. split; [symmetry; exact Hj|]. split; [exact Hall|].
      revert H. apply List.Forall_impl. intros tuple. apply checkPair_accepts.
    + intros (tuples & Hne & -> & Hall & Hacc).
      rewrite (split_join ";" tuples Hne Hall).
      revert Hacc. apply List.Forall_impl. intros tuple. apply checkPair_accepts.
  - intros tuples pairs Hne -> Hall H.
    rewrite (split_join ";" tuples Hne Hall), map_map in H.
    apply mapR_Forall2 in H.
    eapply Forall2_impl; [exact H|]. clear H. intros tuple p Hp.
    cbn beta in Hp.
    apply checkPair_parts in Hp.
    destruct Hp as (route & stop & more & Hparts & Hr & Hs & Hn & Hpr & Hps & Hpo).
    destruct (join_split "," tuple) as (Hj & _ & Hcommas).
    rewrite Hparts in Hj, Hcommas.
    exists route, stop, more.
    split; [symmetry; exact Hj|]. split; [exact Hcommas|].
    split; [exact Hpr|]. split; [rewrite Hpr; apply trim_of_ink; exact Hr|].
    split; [exact Hps|]. split; [rewrite Hps; apply trim_of_ink; exact Hs|].
    split; assumption.
Qed.

Lemma parseRouteStopPairs_accepts_witness :
  exists pairs,
    Schedule.parseRouteStopPairs
      " STBA,STAGECOACH, -30s,extra;AAMV,BEATTY_AIRPORT" = Ok pairs.
Proof.
  apply (proj2 (proj1 (parseRouteStopPairs_accepts
                         " STBA,STAGECOACH, -30s,extra;AAMV,BEATTY_AIRPORT"))).
  exists [" STBA,STAGECOACH, -30s,extra"; "AAMV,BEATTY_AIRPORT"].
  split; [discriminate|]. split; [reflexivity|].
  split; [repeat constructor|].
  constructor; [|constructor; [|constructor]].
  - exists [" STBA"; "STAGECOACH"; " -30s"; "extra"].
    split; [reflexivity|]. split; [repeat constructor|].
    cbn [acceptedParts]. split; [reflexivity|]. split; [reflexivity|].
    exists " ", "-", "30s".
    split; [reflexivity|]. split; [reflexivity|].
    split; [right; right; reflexivity | reflexivity].
  - exists ["AAMV"; "BEATTY_AIRPORT"].
    split; [reflexivity|]. split; [repeat constructor|].
    cbn [acceptedParts]. split; [reflexivity|]. split; [reflexivity | exact I].
Defined.

(** A route that is one no-break space (U+00A0) is refused, as is an
    offset without a digit; the digits of an offset may be followed by
    anything. *)
Example parseRouteStopPairs_samples :
  let nbsp := String (ascii_of_nat 194) (String (ascii_of_nat 160) "") in
  Schedule.parseRouteStopPairs (nbsp +:+ ",STAGECOACH")
  = Throw (BadRequestException
      "Invalid route-stop pair; must be in the format routeId,stopId[,offset]")
  /\ Schedule.parseRouteStopPairs "STBA,STAGECOACH,soon"
     = Throw (BadRequestException "Invalid offset; must be a number")
  /\ Schedule.parseRouteStopPairs ""
     = Throw (BadRequestException
         "Invalid route-stop pair; must be in the format routeId,stopId[,offset]")
  /\ Schedule.parseRouteStopPairs " STBA,STAGECOACH, -30s,extra"
     = Ok [ {| Schedule.r_routeId := "STBA"; Schedule.r_stopId := "STAGECOACH";
               Schedule.offset := Finite (-30) |} ].
Proof. repeat split; reflexivity. Qed.

(** ** Successive passes of a subscription *)

Lemma last_cons_default {A} (a d : A) l : List.last (a :: l) d = List.last l a.
Proof.
  revert a d. induction l as [|b l IH]; intros a d; [reflexivity|].
  change (List.last (a :: b :: l) d) with (List.last (b :: l) d).
  rewrite (IH b d), (IH b a). reflexivity.
Qed.

Lemma last_same_json {A} (f : A -> string) l a b :
  f a = f b -> f (List.last l a) = f (List.last l b).
Proof.
  intros H. destruct l as [|c l]; [exact H|].
  rewrite !last_cons_default. reflexivity.
Qed.

Section Passes.
Variable stringify : Schedule.ScheduleUpdate -> string.
Variable subscription : Schedule.ScheduleOptions.

Let succeeds (p : Pass) : Prop := exists s, resultOf subscription p = Ok s.
Let results (passes : list Pass) : list Schedule.ScheduleUpdate :=
  map (fun p => snapshotOf (resultOf subscription p)) passes.

(** A run of successful passes from a remembered snapshot. *)
Lemma runPasses_from_snapshot passes s0 :
  Forall succeeds passes ->
  let run := runPasses stringify subscription passes (Schedule.CSchedule s0) in
  snd run = map (fun s => Schedule.ONext (Some s)) (emitted (snd run))
  /\ fst run = Schedule.CSchedule (List.last (emitted (snd run)) s0)
  /\ adjacentDistinct (stringify s0 :: map stringify (emitted (snd run)))
  /\ stringify (List.last (emitted (snd run)) s0)
     = stringify (List.last (results passes) s0).
Proof.
  revert s0. induction passes as [|p rest IH]; intros s0 Hall; cbv zeta.
  - cbn. repeat split.
  - apply Forall_cons in Hall. destruct Hall as [[r Hr] Hrest].
    cbn [runPasses fst snd]. unfold Schedule.updateSchedule.
    unfold resultOf in Hr. rewrite Hr.
    cbn [Schedule.isNull Schedule.jsonOfCurrent Schedule.jsonOfTrips option_map
         Schedule.strictEq orb Schedule.currentOf].
    unfold results. cbn [map]. fold (results rest).
    unfold resultOf at 1. rewrite Hr. cbn [snapshotOf].
    rewrite last_cons_default.
    destruct (String.eqb_spec (stringify s0) (stringify r)) as [Heq|Hne];
      cbn [negb fst snd app].
    + specialize (IH s0 Hrest). cbv zeta in IH.
      destruct IH as (H1 & H2 & H3 & H4).
      split; [exact H1|]. split; [exact H2|]. split; [exact H3|].
      rewrite H4. apply last_same_json. exact Heq.
    + specialize (IH r Hrest). cbv zeta in IH.
      destruct IH as (H1 & H2 & H3 & H4).
      cbn [emitted flat_map app map].
      fold (emitted (snd (runPasses stringify subscription rest
                            (Schedule.CSchedule r)))).
      rewrite !last_cons_default.
      split; [f_equal; exact H1|]. split; [exact H2|].
      split; [split; [exact Hne | exact H3] | exact H4].
Qed.

(** X15.  A subscription whose passes all succeed: the first pass emits
    its result at once; every call on the observer is a [next] with a
    snapshot; two snapshots emitted one after the other never have the
    same JSON; and what the subscriber received last has the JSON of the
    result of the latest pass. *)
Theorem subscription_emits_on_change p passes :
  Forall succeeds (p :: passes) ->
  let run := runPasses stringify subscription (p :: passes) Schedule.CNull in
  let first := snapshotOf (resultOf subscription p) in
  snd run = map (fun s => Schedule.ONext (Some s)) (emitted (snd run))
  /\ hd_error (emitted (snd run)) = Some first
  /\ adjacentDistinct (map stringify (emitted (snd run)))
  /\ fst run = Schedule.CSchedule (List.last (emitted (snd run)) first)
  /\ stringify (List.last (emitted (snd run)) first)
     = stringify (List.last (results (p :: passes)) first).
Proof.
  intros Hall. apply Forall_cons in Hall. destruct Hall as [[r Hr] Hrest].
  cbv zeta. cbn [runPasses fst snd]. unfold Schedule.updateSchedule.
  unfold results. cbn [map]. fold (results passes).
  unfold resultOf in Hr |- *. rewrite Hr.
  cbn [Schedule.isNull orb Schedule.currentOf fst snd app snapshotOf].
  pose proof (runPasses_from_snapshot passes r Hrest) as IH. cbv zeta in IH.
  destruct IH as (H1 & H2 & H3 & H4).
  cbn [emitted flat_map app map hd_error].
  fold (emitted (snd (runPasses stringify subscription passes
                        (Schedule.CSchedule r)))).
  rewrite !last_cons_default.
  split; [f_equal; exact H1|]. split; [reflexivity|].
  split; [exact H3|]. split; [exact H2 | exact H4].
Qed.

End Passes.

Lemma subscription_emits_on_change_witness :
  hd_error
    (emitted (snd (runPasses (fun _ => "{}") stbaSubscription
                     [(twoDaysProvider, testNow); (twoDaysProvider, testNow)]
                     Schedule.CNull)))
  = Some (snapshotOf (resultOf stbaSubscription (twoDaysProvider, testNow))).
Proof.
  refine (proj1 (proj2
    (subscription_emits_on_change (fun _ => "{}") stbaSubscription
       (twoDaysProvider, testNow) [(twoDaysProvider, testNow)] _))).
  repeat constructor; eexists; vm_compute; reflexivity.
Defined.

(** ** The timers *)

Lemma Qfloor_scaled random (k : Z) :
  0 < k -> (0 <= random)%Q -> (random < 1)%Q ->
  0 <= Qfloor (random * inject_Z k) <= k - 1.
Proof.
  intros Hk H0 H1. split.
  - change 0 with (Qfloor (inject_Z 0)). apply Qfloor_resp_le.
    assert (0 <= inject_Z k)%Q by (change 0%Q with (inject_Z 0);
      rewrite <- Zle_Qle; lia).
    change (inject_Z 0) with 0%Q. nra.
  - assert (Hlt : (random * inject_Z k < inject_Z k)%Q).
    { assert (0 < inject_Z k)%Q by (change 0%Q with (inject_Z 0);
        rewrite <- Zlt_Qlt; lia). nra. }
    pose proof (Qfloor_le (random * inject_Z k)) as Hfl.
    assert (Hz : (inject_Z (Qfloor (random * inject_Z k)) < inject_Z k)%Q) by lra.
    rewrite <- Zlt_Qlt in Hz. lia.
Qed.

(** X16.  For every value of [Math.random()], a number from 0 up to but
    not including 1: the interval timer is started after 0 to 9999 ms,
    and its period lies between 30000 and 30999 ms. *)
Theorem timers_are_bounded random :
  (0 <= random)%Q -> (random < 1)%Q ->
  0 <= startupDelay random <= 9999
  /\ 30000 <= pollingPeriod random <= 30999.
Proof.
  intros H0 H1. unfold startupDelay, pollingPeriod.
  pose proof (Qfloor_scaled random 10000 ltac:(lia) H0 H1) as Ha.
  pose proof (Qfloor_scaled random 1000 ltac:(lia) H0 H1) as Hb.
  change (inject_Z 10000) with 10000%Q in Ha.
  change (inject_Z 1000) with 1000%Q in Hb. lia.
Qed.

Lemma timers_are_bounded_witness :
  0 <= startupDelay (1 # 3) <= 9999
  /\ 30000 <= pollingPeriod (1 # 3) <= 30999.
Proof.
  apply timers_are_bounded; vm_compute; [discriminate | reflexivity].
Defined.

(** ** Headsigns *)

Lemma startsWith_slice T p :
  startsWith T p = true -> T = p +:+ slice (String.length p) T.
Proof.
  revert T. induction p as [|c p IH]; intros T H; [reflexivity|].
  destruct T as [|d T]; cbn [startsWith] in H; [discriminate|].
  apply andb_true_iff in H. destruct H as [Hc Hp].
  apply Ascii.eqb_eq in Hc. subst d.
  change (String c p +:+ slice (String.length (String c p)) (String c T))
    with (String c (p +:+ slice (String.length p) T)).
  rewrite <- (IH T Hp). reflexivity.
Qed.

(** What is left of a trimmed string after a prefix that ends with a
    white space holds a character that is not white space. *)
Lemma rest_after_prefix_has_ink T q c :
  trim T = T -> isWhiteSpace c = true ->
  startsWith T (q +:+ String c "") = true ->
  trim (slice (String.length (q +:+ String c "")) T) <> "".
Proof.
  intros Htrim Hc Hstart. apply trim_of_ink.
  destruct (allWs (slice (String.length (q +:+ String c "")) T)) eqn:Hws;
    [|reflexivity].
  exfalso.
  pose proof (startsWith_slice T _ Hstart) as Heq.
  set (rest := slice (String.length (q +:+ String c "")) T) in *.
  rewrite app_assoc_string in Heq.
  assert (Hend : trimEnd T = trimEnd q).
  { rewrite Heq at 1. apply trimEnd_app_ws.
    change (String c "" +:+ rest) with (String c rest).
    apply Blank_1; [exact Hc | apply allWs_Blank; exact Hws]. }
  rewrite (trimEnd_of_trimmed T Htrim) in Hend.
  pose proof (trimEnd_length q) as Hlen. rewrite <- Hend in Hlen.
  rewrite Heq, app_length_string in Hlen.
  change (String c "" +:+ rest) with (String c rest) in Hlen. cbn in Hlen. lia.
Qed.

Lemma removeFromStart_trimmed T ps :
  trim T = T -> trim (removeFromStart T ps) = removeFromStart T ps.
Proof.
  intros HT. induction ps as [|p ps IH]; cbn [removeFromStart]; [exact HT|].
  destruct (startsWith T p); [apply trim_idem | exact IH].
Qed.

Lemma removeFromStart_nonempty T ps :
  trim T = T -> T <> "" ->
  Forall (fun p => exists q c, p = q +:+ String c "" /\ isWhiteSpace c = true) ps ->
  removeFromStart T ps <> "".
Proof.
  intros HT Hne Hps. induction Hps as [|p ps [q [c [-> Hc]]] _ IH];
    cbn [removeFromStart]; [exact Hne|].
  destruct (startsWith T (q +:+ String c "")) eqn:Hstart; [|exact IH].
  apply rest_after_prefix_has_ink; assumption.
Qed.

Lemma route_prefixes_end_with_space r :
  Forall (fun p => exists q c, p = q +:+ String c "" /\ isWhiteSpace c = true)
    [r +:+ " "; r +:+ " - "; r +:+ ": "].
Proof.
  repeat constructor.
  - exists r, " "%char. split; reflexivity.
  - exists (r +:+ " -"), " "%char. split; [|reflexivity].
    rewrite app_assoc_string. reflexivity.
  - exists (r +:+ ":"), " "%char. split; [|reflexivity].
    rewrite app_assoc_string. reflexivity.
Qed.

(** A headsign with its route name removed has no white space at either
    end; and it is not empty when the headsign given holds a character
    that is not white space. *)
Lemma headsign_shape routeShortName headsign :
  trim (removeRouteNameFromHeadsign routeShortName headsign)
  = removeRouteNameFromHeadsign routeShortName headsign
  /\ (allWs headsign = false ->
      removeRouteNameFromHeadsign routeShortName headsign <> "").
Proof.
  unfold removeRouteNameFromHeadsign.
  destruct routeShortName as [r|]; [|split; [apply trim_idem | apply trim_of_ink]].
  destruct (nonEmpty r); [|split; [apply trim_idem | apply trim_of_ink]].
  destruct (nonEmpty headsign) eqn:Hh.
  - split; [apply removeFromStart_trimmed, trim_idem|].
    intros Hink. apply removeFromStart_nonempty.
    + apply trim_idem.
    + apply trim_of_ink. exact Hink.
    + apply route_prefixes_end_with_space.
  - split; [reflexivity|]. destruct headsign; [discriminate | discriminate].
Qed.

Lemma removeAll_absent c s : occursIn c (removeAll c s) = false.
Proof.
  induction s as [|d s IH]; [reflexivity|]. cbn [removeAll].
  destruct (Ascii.eqb d c) eqn:Hd; [exact IH|].
  cbn [occursIn]. rewrite Hd, IH. reflexivity.
Qed.

(** X18.  [getRoutesForStop] answers one route per row of the query; the
    headsigns of every route are not empty and carry no white space at
    either end, and its colour holds no [#]. *)
Theorem getRoutesForStop_shape rows :
  length (getRoutesForStop rows) = length rows
  /\ Forall
       (fun route =>
          Forall (fun h => h <> "" /\ trim h = h) (sr_headsigns route)
          /\ (forall colour, sr_color route = Some colour ->
                occursIn "#" colour = false))
       (getRoutesForStop rows).
Proof.
  unfold getRoutesForStop. split; [apply length_map|].
  apply List.Forall_map. apply List.Forall_forall. intros row _.
  unfold toStopRoute. cbn [sr_headsigns sr_color]. split.
  - apply List.Forall_map. apply List.Forall_forall. intros h Hh.
    apply in_flat_map in Hh. destruct Hh as [[h'|] [_ Hin]]; [|destruct Hin].
    destruct (blank (Some h')) eqn:Hb; cbn [negb] in Hin; [destruct Hin|].
    destruct Hin as [->|[]].
    pose proof (headsign_shape (row_route_short_name row) h) as [Htrim Hne].
    split; [|exact Htrim]. apply Hne.
    destruct (allWs h) eqn:Hws; [|reflexivity].
    unfold blank in Hb. rewrite (trim_allWs h Hws) in Hb.
    cbn in Hb. rewrite orb_true_r in Hb. discriminate.
  - intros colour Hc. destruct (row_route_color row) as [col|]; [|discriminate].
    injection Hc as <-. apply removeAll_absent.
Qed.

Lemma startsWith_dash_implies_space T r :
  startsWith T (r +:+ " - ") = true -> startsWith T (r +:+ " ") = true.
Proof.
  revert T. induction r as [|c r IH]; intros T.
  - change ("" +:+ " - ") with " - ". change ("" +:+ " ") with " ".
    destruct T as [|d T]; [discriminate|]. cbn [startsWith].
    intros H. apply andb_true_iff in H. destruct H as [H _].
    rewrite H. destruct T; reflexivity.
  - destruct T as [|d T]; [discriminate|].
    change (startsWith (String d T) (String c r +:+ " - "))
      with (Ascii.eqb c d && startsWith T (r +:+ " - ")).
    change (startsWith (String d T) (String c r +:+ " "))
      with (Ascii.eqb c d && startsWith T (r +:+ " ")).
    intros H. apply andb_true_iff in H. destruct H as [-> H].
    rewrite (IH T H). reflexivity.
Qed.

(** X19.  The separator [" - "] is never removed with the route name:
    whenever a headsign starts with the route name and [" - "], it starts
    with the route name and a space, and that shorter prefix is taken
    first.  The result is the one of the two prefixes [name + " "] and
    [name + ": "] alone. *)
Theorem dash_separator_is_never_removed r headsign :
  r <> "" -> headsign <> "" ->
  removeRouteNameFromHeadsign (Some r) headsign
  = removeFromStart (trim headsign) [r +:+ " "; r +:+ ": "].
Proof.
  intros Hr Hh. unfold removeRouteNameFromHeadsign.
  destruct r as [|c r]; [congruence|]. destruct headsign as [|d h]; [congruence|].
  cbn [nonEmpty removeFromStart].
  destruct (startsWith (trim (String d h)) (String c r +:+ " ")) eqn:Hsp;
    [reflexivity|].
  destruct (startsWith (trim (String d h)) (String c r +:+ " - ")) eqn:Hdash;
    [|reflexivity].
  apply startsWith_dash_implies_space in Hdash. congruence.
Qed.

Lemma dash_separator_is_never_removed_witness :
  removeRouteNameFromHeadsign (Some "12") "12 - Downtown" = "- Downtown".
Proof.
  rewrite (dash_separator_is_never_removed "12" "12 - Downtown");
    [reflexivity | discriminate | discriminate].
Defined.

(** X17.  Every entry of the scan was built from a row of the static
    schedule; its headsign has no white space at either end and is not
    empty when the headsign of that row holds a character that is not
    white space; its route colour holds no [#]. *)
Theorem scan_entries_are_clean {E} (w : World E) feedCode config routes now n
    res n' ts :
  getUpcomingTripsForRoutesAtStops w feedCode config routes now n = Ok (res, n') ->
  In ts res ->
  trim (ts_headsign ts) = ts_headsign ts
  /\ (forall colour, ts_routeColor ts = Some colour -> occursIn "#" colour = false)
  /\ exists trip,
       scheduledRow w routes trip
       /\ entryOf trip ts
       /\ (allWs (stop_headsign trip) = false -> ts_headsign ts <> "").
Proof.
  intros Hres Hin.
  destruct (scan_entries w feedCode config routes now n res n' ts Hres Hin)
    as [trip [Hrow [Hentry _]]].
  pose proof Hentry as [stu [m ->]].
  cbn [toTripStop ts_headsign ts_routeColor].
  pose proof (headsign_shape (Some (route_name trip)) (stop_headsign trip))
    as [Htrim Hne].
  split; [exact Htrim|]. split.
  - intros colour Hc. destruct (route_color trip) as [col|]; [|discriminate].
    injection Hc as <-. apply removeAll_absent.
  - exists trip. split; [exact Hrow|]. split; [exact Hentry | exact Hne].
Qed.

Lemma scan_entries_are_clean_witness :
  trim (ts_headsign stbaLateEntry) = ts_headsign stbaLateEntry.
Proof.
  exact (proj1 (scan_entries_are_clean liveWorld "testfeed" realtimeConfig
                  [stbaAtStagecoach] testNow 0%nat [stbaLateEntry] 4%nat
                  stbaLateEntry liveWorld_scan (or_introl eq_refl))).
Defined.

(** ** Writing and reading route-stop pairs *)

Lemma readDigits_decimal d a :
  0 <= a ->
  readDigits 10 (Some a) (NilEmpty.string_of_uint d)
  = Some (Z.of_nat (Nat.of_uint_acc d (Z.to_nat a))).
Proof.
  revert a. induction d as [|d IH|d IH|d IH|d IH|d IH|d IH|d IH|d IH|d IH|d IH];
    intros a Ha;
    [cbn; rewrite Z2Nat.id by exact Ha; reflexivity | ..];
    cbn [NilEmpty.string_of_uint readDigits Nat.of_uint_acc];
    match goal with
    | |- context [digitIn 10 ?c] =>
        let v := eval vm_compute in (digitIn 10 c) in
        change (digitIn 10 c) with v
    end; cbv iota beta;
    rewrite IH by lia; rewrite Nat.tail_mul_spec; do 3 f_equal; lia.
Qed.

Lemma readDigits_first c rest :
  readDigits 10 None (String c rest)
  = match digitIn 10 c with
    | Some d => readDigits 10 (Some d) rest
    | None => None
    end.
Proof. reflexivity. Qed.

Lemma to_uint_not_nil n : Nat.to_uint n <> Nil.
Proof.
  rewrite Unsigned.to_uint_alt. intros H. apply rev_nil_inv in H.
  destruct n as [|n]; [discriminate|].
  rewrite Unsigned.to_lu_succ in H.
  destruct (Unsigned.to_lu n); discriminate.
Qed.

(** An integer up to [2^53 - 1] is a double. *)
Lemma toNumber_safe negative v :
  0 <= v <= maxSafeInteger ->
  toNumber negative v = Finite (if negative then - v else v).
Proof.
  intros [H0 Hv]. unfold maxSafeInteger in Hv. unfold toNumber, nearestDouble.
  cbv zeta.
  assert (Hbits : Z.log2 v + 1 <= 53).
  { destruct (Z.eq_dec v 0) as [->|Hne]; [cbn; lia|].
    assert (Z.log2 v < 53); [|lia].
    apply Z.log2_lt_pow2; [lia|]. change (2 ^ 53) with 9007199254740992. lia. }
  destruct (Z.leb_spec (Z.log2 v + 1) 53) as [_|Hgt]; [|lia].
  assert (Hbig : 9007199254740992 <= Z.shiftl 1 1024)
    by (vm_compute; discriminate).
  destruct (Z.leb_spec (Z.shiftl 1 1024) v) as [Hle|_]; [lia | reflexivity].
Qed.

Lemma decimal_inked d : inked (NilEmpty.string_of_uint d) = true.
Proof.
  induction d; cbn [NilEmpty.string_of_uint inked]; [reflexivity | ..];
    rewrite IHd; reflexivity.
Qed.

Lemma decimal_no_separator c d :
  isDecimalDigit c = false -> occursIn c (NilEmpty.string_of_uint d) = false.
Proof.
  intros Hc.
  induction d; cbn [NilEmpty.string_of_uint occursIn]; [reflexivity | ..];
    rewrite IHd, orb_false_r; apply Ascii.eqb_neq; intros <-; discriminate.
Qed.

Lemma showZ_inked z : inked (showZ z) = true.
Proof.
  unfold showZ, showNat. destruct (z <? 0); [cbn [inked]|];
    rewrite decimal_inked; reflexivity.
Qed.

Lemma showZ_no_separator c z :
  isDecimalDigit c = false -> c <> "-"%char -> occursIn c (showZ z) = false.
Proof.
  intros Hc Hm. unfold showZ, showNat. destruct (z <? 0); [cbn [occursIn]|].
  - rewrite (decimal_no_separator c _ Hc), orb_false_r.
    apply Ascii.eqb_neq. congruence.
  - apply decimal_no_separator. exact Hc.
Qed.

Lemma inked_trimStart s : inked s = true -> trimStart s = s.
Proof.
  intros H. destruct s as [|c s]; [reflexivity|]. cbn [inked] in H.
  apply andb_true_iff in H. destruct H as [H _].
  apply andb_true_iff in H. destruct H as [Hc Hw].
  apply Nat.ltb_lt in Hc. apply negb_true_iff in Hw.
  apply trimStart_fixed, startsWithWhiteSpace_ink; assumption.
Qed.

Lemma parseInt_decimal d :
  d <> Nil -> Z.of_nat (Nat.of_uint d) <= maxSafeInteger ->
  parseInt (NilEmpty.string_of_uint d) = Finite (Z.of_nat (Nat.of_uint d))
  /\ parseInt (String "-" (NilEmpty.string_of_uint d))
     = Finite (- Z.of_nat (Nat.of_uint d)).
Proof.
  intros Hd Hsafe.
  assert (Hread : readDigits 10 None (NilEmpty.string_of_uint d)
                  = Some (Z.of_nat (Nat.of_uint d))).
  { unfold Nat.of_uint.
    destruct d; [congruence | ..];
      cbn [NilEmpty.string_of_uint]; rewrite readDigits_first;
      match goal with
      | |- context [digitIn 10 ?c] =>
          let v := eval vm_compute in (digitIn 10 c) in
          change (digitIn 10 c) with v
      end; cbv iota beta;
      rewrite readDigits_decimal by lia;
      cbn [Nat.of_uint_acc]; rewrite !Nat.tail_mul_spec; reflexivity. }
  assert (Hhex : stripHexPrefix (NilEmpty.string_of_uint d)
                 = (10, NilEmpty.string_of_uint d)).
  { destruct d as [|d|d|d|d|d|d|d|d|d|d]; try reflexivity; destruct d; reflexivity. }
  assert (Hsign : stripSign (NilEmpty.string_of_uint d)
                  = (false, NilEmpty.string_of_uint d)).
  { destruct d; [congruence | ..]; reflexivity. }
  split; unfold parseInt.
  - rewrite (inked_trimStart _ (decimal_inked d)), Hsign, Hhex, Hread.
    apply toNumber_safe. lia.
  - rewrite trimStart_fixed
      by (apply startsWithWhiteSpace_ink; [vm_compute; lia | reflexivity]).
    cbn [stripSign]. rewrite Hhex, Hread. apply toNumber_safe. lia.
Qed.

Lemma parseInt_showZ z :
  Z.abs z <= maxSafeInteger -> parseInt (showZ z) = Finite z.
Proof.
  intros Hz. unfold showZ, showNat. destruct (Z.ltb_spec z 0).
  - rewrite (proj2 (parseInt_decimal _ (to_uint_not_nil (Z.to_nat (- z)))
                      ltac:(rewrite Unsigned.of_to; lia))).
    rewrite Unsigned.of_to. f_equal. lia.
  - rewrite (proj1 (parseInt_decimal _ (to_uint_not_nil (Z.to_nat z))
                      ltac:(rewrite Unsigned.of_to; lia))).
    rewrite Unsigned.of_to. f_equal. lia.
Qed.

Lemma writable_ink s : writable s -> allWs s = false.
Proof.
  intros (Hne & Htrim & _). destruct (allWs s) eqn:Hs; [|reflexivity].
  rewrite (trim_allWs _ Hs) in Htrim. congruence.
Qed.

Lemma formatPair_one_tuple p :
  writable (Schedule.r_routeId p) -> writable (Schedule.r_stopId p) ->
  occursIn ";" (formatPair p) = false.
Proof.
  intros (_ & _ & _ & Hr) (_ & _ & _ & Hs). unfold formatPair. cbn [join].
  rewrite occursIn_app. cbn [occursIn]. rewrite occursIn_app. cbn [occursIn].
  rewrite Hr, Hs, showZ_no_separator by (reflexivity || discriminate).
  reflexivity.
Qed.

Lemma checkPair_formatPair p :
  writable (Schedule.r_routeId p) -> writable (Schedule.r_stopId p) ->
  Z.abs (Schedule.offset p) <= maxSafeInteger ->
  Schedule.checkPair
    (Schedule.toRawPair (map trim (split "," (formatPair p))))
  = Ok (asParsed p).
Proof.
  intros Hr Hs Ho. unfold formatPair.
  rewrite split_join; [|discriminate|].
  - apply checkPair_parts.
    exists (Schedule.r_routeId p), (Schedule.r_stopId p),
      [showZ (Schedule.offset p)].
    cbn [asParsed Schedule.offset Schedule.r_routeId Schedule.r_stopId isNaN].
    rewrite (inked_trim _ (showZ_inked _)), (parseInt_showZ _ Ho).
    pose proof (writable_ink _ Hr) as Hri. pose proof (writable_ink _ Hs) as Hsi.
    destruct Hr as (_ & -> & _), Hs as (_ & -> & _).
    repeat split; try reflexivity; assumption.
  - destruct Hr as (_ & _ & Hr & _), Hs as (_ & _ & Hs & _).
    repeat constructor; try assumption.
    apply showZ_no_separator; [reflexivity | discriminate].
Qed.

(** X20.  Writing and reading back: a list of pairs, not empty, whose
    route and stop ids are not empty, have no white space at either end
    and hold no comma or semicolon, and whose offsets are integers of at
    most [2^53 - 1] in absolute value, written as [routeId,stopId,offset]
    tuples separated by semicolons with the offset in decimal, is parsed
    to the list itself. *)
Theorem parseRouteStopPairs_reads_what_is_written pairs :
  pairs <> [] ->
  Forall (fun p => writable (Schedule.r_routeId p)
                   /\ writable (Schedule.r_stopId p)
                   /\ Z.abs (Schedule.offset p) <= maxSafeInteger)
    pairs ->
  Schedule.parseRouteStopPairs (formatPairs pairs) = Ok (map asParsed pairs).
Proof.
  intros Hne Hall. unfold Schedule.parseRouteStopPairs, formatPairs.
  rewrite split_join.
  - clear Hne. rewrite map_map.
    induction Hall as [|p rest (Hr & Hs & Ho) Hrest IH]; [reflexivity|].
    cbn [map mapR].
    rewrite (checkPair_formatPair p Hr Hs Ho). cbn [bindR].
    rewrite IH. reflexivity.
  - destruct pairs; [congruence | discriminate].
  - apply List.Forall_map. revert Hall. apply List.Forall_impl.
    intros p (Hr & Hs & _). apply formatPair_one_tuple; assumption.
Qed.

Lemma parseRouteStopPairs_reads_what_is_written_witness :
  Schedule.parseRouteStopPairs
    (formatPairs [ {| Schedule.r_routeId := "AAMV";
                      Schedule.r_stopId := "BEATTY_AIRPORT";
                      Schedule.offset := 0 |};
                   {| Schedule.r_routeId := "STBA";
                      Schedule.r_stopId := "STAGECOACH";
                      Schedule.offset := -30 |} ])
  = Ok [ {| Schedule.r_routeId := "AAMV"; Schedule.r_stopId := "BEATTY_AIRPORT";
            Schedule.offset := Finite 0 |};
         {| Schedule.r_routeId := "STBA"; Schedule.r_stopId := "STAGECOACH";
            Schedule.offset := Finite (-30) |} ].
Proof.
  apply (parseRouteStopPairs_reads_what_is_written
           [ {| Schedule.r_routeId := "AAMV";
                Schedule.r_stopId := "BEATTY_AIRPORT";
                Schedule.offset := 0 |};
             {| Schedule.r_routeId := "STBA";
                Schedule.r_stopId := "STAGECOACH";
                Schedule.offset := -30 |} ]); [discriminate|].
  repeat constructor; try discriminate; cbn; lia.
Defined.

(** Beyond [2^53 - 1] the offset that is read is not the one that was
    written. *)
Example parseRouteStopPairs_rounds_large_offsets :
  Schedule.parseRouteStopPairs "STBA,STAGECOACH,9007199254740993"
  = Ok [ {| Schedule.r_routeId := "STBA"; Schedule.r_stopId := "STAGECOACH";
            Schedule.offset := Finite 9007199254740992 |} ].
Proof. reflexivity. Qed.

(** ** The cache of one feed *)

Lemma cached_writes {E T} feedCode key (lookup : string -> option T)
    (fn : unit -> Result E (Computed T)) ttl v writes :
  cached feedCode key lookup fn ttl = Ok (v, writes) ->
  Forall (fun w => set_key w = feedCode +:+ "-" +:+ key /\ set_value w = v) writes.
Proof.
  unfold cached. destruct (lookup _) as [hit|].
  - intros H. injection H as <- <-. constructor.
  - destruct (fn tt) as [[b|value ttl']|e]; cbn [bindR]; [| |discriminate].
    + intros H. injection H as <- <-. repeat constructor.
    + destruct (ttl' >? 0); intros H; injection H as <- <-; repeat constructor.
Qed.

(** X21.  A feed's cache stays in its feed.  For two feeds whose codes
    differ and hold no dash: what [cached] returns and writes for the one
    feed does not depend on what the store holds under the keys of the
    other (any store that agrees on the feed's own keys gives the same
    answer and the same writes), every write holds the value that is
    returned, and no write lands under a key of the other feed. *)
Theorem cached_stays_in_its_feed {E T} feedCode other key
    (lookup lookup' : string -> option T)
    (fn : unit -> Result E (Computed T)) ttl v writes :
  noDash feedCode = true -> noDash other = true -> feedCode <> other ->
  (forall k, lookup' (feedCode +:+ "-" +:+ k) = lookup (feedCode +:+ "-" +:+ k)) ->
  cached feedCode key lookup fn ttl = Ok (v, writes) ->
  cached feedCode key lookup' fn ttl = Ok (v, writes)
  /\ Forall (fun w => set_value w = v
                      /\ forall k, set_key w <> other +:+ "-" +:+ k) writes.
Proof.
  intros Hf Ho Hne Hagree Hres. split.
  - rewrite <- Hres. unfold cached. rewrite Hagree. reflexivity.
  - pose proof (cached_writes _ _ _ _ _ _ _ Hres) as Hw.
    clear Hres. induction Hw as [|w ws [Hk Hv] _ IH]; constructor; [|exact IH].
    split; [exact Hv|]. intros k Heq. rewrite Hk in Heq.
    destruct (append_dash_inj _ _ _ _ Hf Ho Heq) as [Hsame _]. contradiction.
Qed.

Lemma cached_stays_in_its_feed_witness :
  cached (E := Exception) "septa" "tripUpdates" (fun _ => None)
    (fun _ => Ok (WithTtl 7%Z 15000)) None
  = Ok (7%Z, [Build_CacheSet "septa-tripUpdates" 7%Z (Some 15000)])
  /\ cached (E := Exception) "septa" "tripUpdates"
       (fun k => if String.eqb k "mta-tripUpdates" then Some 9%Z else None)
       (fun _ => Ok (WithTtl 7%Z 15000)) None
     = Ok (7%Z, [Build_CacheSet "septa-tripUpdates" 7%Z (Some 15000)]).
Proof.
  split; [reflexivity|].
  refine (proj1 (cached_stays_in_its_feed "septa" "mta" "tripUpdates"
                   (fun _ => None) _ _ None 7%Z _ _ _ _ _ _)).
  - reflexivity.
  - reflexivity.
  - discriminate.
  - intros k. reflexivity.
  - reflexivity.
Defined.
